(** * Endpoint: length-prefixed framing, send queues and the connection registry

    A shallow embedding of [netio.c] and [endpoint.c].

    Conventions of the embedding.
    - [int] values are [Z]; where the source mixes [int] with [size_t]
      (LP64: 32-bit [int], 64-bit [size_t]) the conversions are written out
      with [wrap_int] and [to_size_t].
    - A C string is the list of its bytes before the terminating NUL, so
      [strlen] is the length of the list.
    - A singly or doubly linked chain is the list of its nodes in link order;
      a possibly-NULL pointer field is an [option].
    - Calls into the operating system are answered by scripts carried by the
      socket model ([inbound], [outbound]) or by explicit arguments.
    - [logmsg], [close] and [free] are recorded as [event]s, in program order;
      the text that [strerror (errno)] contributes to a log line is left out.
    - A [tConnectStc*] held by a caller is the destination port of the entry
      it points to; reading an entry that is no longer linked is undefined. *)

From Stdlib Require Import String ZArith List Lia Bool.
From coqutil Require Import Byte Word.LittleEndianList.
Import ListNotations.
Local Open Scope Z_scope.

(** ** C integer conversions *)

Definition INT_MAX : Z := 2147483647.
Definition SSIZE_MAX : Z := 9223372036854775807.

(** Value of an [int] after reduction to 32-bit two's complement. *)
Definition wrap_int (z : Z) : Z := (z + 2 ^ 31) mod 2 ^ 32 - 2 ^ 31.

(** Conversion of a signed value to [size_t]. *)
Definition to_size_t (z : Z) : Z := z mod 2 ^ 64.

Definition EWOULDBLOCK : Z := 11.
Definition EINVAL : Z := 22.
Definition EINPROGRESS : Z := 115.

(** ** userio.h: log categories *)

Definition PRINT_ERROR : Z := 1.
Definition PRINT_WARNING : Z := 2.
Definition PRINT_QUERY : Z := 4.
Definition PRINT_STATUS : Z := 8.
Definition PRINT_SENT : Z := 16.
Definition PRINT_RCVD : Z := 32.
Definition PRINT_SOCKET : Z := 64.
Definition PRINT_OTHER : Z := 128.

(** ** netio.h *)

Definition STATE_IDLE : Z := 0.
Definition STATE_PENDING : Z := 1.
Definition STATE_READY : Z := 2.

Inductive tSendMsgTyp := SEND_COMPLETE | SEND_BLOCKED | SEND_FAILURE.

Inductive tRecvMsgTyp := RECV_COMPLETE | RECV_BLOCKED | RECV_TERMINATED | RECV_FAILURE.

(** [MessageHeaderStc]: two [int] fields, 8 bytes, no padding. *)
Record MessageHeaderStc := { h_msglen : Z; h_msgix : Z }.

Definition sizeof_header : Z := 8.

(** The bytes of an [int] in memory (little endian) and back. *)
Definition int_bytes (z : Z) : list byte := le_split 4 z.
Definition bytes_int (bs : list byte) : Z := wrap_int (le_combine bs).

(** The memory image of a header. *)
Definition header_bytes (h : MessageHeaderStc) : list byte :=
  int_bytes (h_msglen h) ++ int_bytes (h_msgix h).

(** Reading the fields back from an 8-byte image. *)
Definition header_msglen (mem : list byte) : Z := bytes_int (firstn 4 mem).
Definition header_msgix (mem : list byte) : Z := bytes_int (firstn 4 (skipn 4 mem)).

(** [header.msglen = v] on the memory image. *)
Definition set_header_msglen (mem : list byte) (v : Z) : list byte :=
  int_bytes v ++ skipn 4 mem.

(** ** Sockets

    A non-blocking stream socket as the program sees it.  [inbound] scripts
    what successive [recvmsg] calls find, [outbound] what successive
    [sendmsg] calls return, and [wire] collects the bytes the kernel took. *)

Inductive recv_event :=
| Data (b : byte) (bs : list byte)   (* at least one byte has arrived *)
| Eof                              (* the peer closed: recvmsg returns 0 *)
| Fail (errno : Z).                (* recvmsg returns -1 with this errno *)

Record sendmsg_result := { send_ret : Z; send_errno : Z }.

Record socket := {
  inbound : list recv_event;
  outbound : list sendmsg_result;
  wire : list byte
}.

(** [recvmsg] with a single iovec of [len] bytes: return value, errno, the
    bytes stored at the iovec base, and what is left to arrive.  Nothing
    scripted means nothing has arrived. *)
Definition recvmsg (s : list recv_event) (len : Z)
  : Z * Z * list byte * list recv_event :=
  if SSIZE_MAX <? len then (-1, EINVAL, [], s)
  else match s with
       | [] => (-1, EWOULDBLOCK, [], [])
       | Fail e :: s' => (-1, e, [], s')
       | Eof :: s' => (0, 0, [], s')
       | Data b bs :: s' =>
           let k := Z.to_nat len in
           match skipn k (b :: bs) with
           | [] => (Z.of_nat (length (b :: bs)), 0, b :: bs, s')
           | r :: rs => (Z.of_nat k, 0, firstn k (b :: bs), Data r rs :: s')
           end
       end.

(** [sendmsg]: the kernel answers from the script and takes the first
    [send_ret] bytes when that is positive.  Nothing scripted means the send
    buffer is full. *)
Definition sendmsg (s : socket) (iov : list byte) : Z * Z * socket :=
  match outbound s with
  | [] => (-1, EWOULDBLOCK, s)
  | r :: rest =>
      (send_ret r, send_errno r,
       {| inbound := inbound s; outbound := rest;
          wire := if 0 <? send_ret r
                  then wire s ++ firstn (Z.to_nat (send_ret r)) iov
                  else wire s |})
  end.

(** Storing [data] at offset [off] of a memory block.  A store that runs past
    the end of the block makes the list longer, so an overrun shows. *)
Definition write_at (off : Z) (data mem : list byte) : list byte :=
  firstn (Z.to_nat off) mem ++ data
    ++ skipn (Z.to_nat off + length data) mem.

(** ** Events: log lines, [close] and [free] *)

(** [tBufferStc]: an entry of a send queue ([next] is the list order). *)
Record tBufferStc := {
  b_msgix : Z;
  b_msglen : option Z;            (* not set by add_message *)
  b_buffer : option (list byte)   (* NULL or the message *)
}.

(** [tConnectStc]: an entry of the registry of outbound connections
    ([next]/[prev] are the list order; [msgfirst]/[msglast] delimit
    [queue]). *)
Record tConnectStc := {
  sockfd : Z;
  destport : Z;
  sendport : option Z;            (* not set until the connect completes *)
  state : Z;
  msgix : Z;
  sntix : Z;
  rspix : Z;
  pndix : Z;
  queue : list tBufferStc
}.

(** An argument of a [logmsg] format: a number or a C string. *)
Inductive log_arg :=
| ArgInt (z : Z)
| ArgStr (str : list byte).

Inductive event :=
| EvLog (category : Z) (fmt : string) (args : list log_arg)
| EvClose (fd : Z)
| EvFreeEntry (e : tBufferStc)
| EvFreeBuffer (b : list byte)
| EvFreeConnection (c : tConnectStc)
| EvFreeUnlinked                   (* free of a block that was never linked *)
| EvSend (fd : Z) (buffer : list byte) (msglen ix : Z) (r : tSendMsgTyp).

(** ** netio.c *)

Module Netio.

(** [tcp_send_message]: one vectored [sendmsg] of header and message. *)
Definition tcp_send_message (s : socket) (buffer : list byte) (msglen ix : Z)
  : tSendMsgTyp * socket :=
  let header := {| h_msglen := msglen; h_msgix := ix |} in
  let iov := header_bytes header ++ firstn (Z.to_nat (to_size_t msglen)) buffer in
  let '(ret, errno, s') := sendmsg s iov in
  let n := wrap_int ret in   (* int n = sendmsg (...) *)
  if 0 <? n then (SEND_COMPLETE, s')
  else if (n <? 0) && (errno =? EWOULDBLOCK) then (SEND_BLOCKED, s')
  else (SEND_FAILURE, s').

(** Where the iovec of [tcp_recv_message] points. *)
Inductive iov_target :=
| IovHeader (off : Z)   (* (char* )&header + off *)
| IovBuffer (off : Z).  (* &buffer[off] *)

(** The local variables of [tcp_recv_message], the caller's buffer, the log
    lines written so far and the socket. *)
Record recv_state := {
  header : list byte;
  buffer : list byte;
  recv_count : Z;
  iov_base : iov_target;
  iov_len : Z;
  rlog : list event;
  rsock : list recv_event
}.

Definition store (st : recv_state) (data : list byte) : list byte * list byte :=
  match iov_base st with
  | IovHeader off => (write_at off data (header st), buffer st)
  | IovBuffer off => (header st, write_at off data (buffer st))
  end.

Definition invalid_header_log (len ix : Z) : event :=
  EvLog PRINT_ERROR "invalid message header: len = %d, ix = %d" [ArgInt len; ArgInt ix].

(** The [while (true)] loop of [tcp_recv_message]; [msglen] is the size of
    the caller's buffer.  One unit of fuel per [recvmsg]. *)
Fixpoint recv_loop (fuel : nat) (msglen : Z) (st : recv_state)
  : option (tRecvMsgTyp * recv_state) :=
  match fuel with
  | O => None
  | S fuel' =>
      let '(ret, errno, data, sock') := recvmsg (rsock st) (iov_len st) in
      let n := wrap_int ret in   (* int n = recvmsg (...) *)
      let '(hdr1, buf1) := store st data in
      let st1 := {| header := hdr1; buffer := buf1; recv_count := recv_count st;
                    iov_base := iov_base st; iov_len := iov_len st;
                    rlog := rlog st; rsock := sock' |} in
      if n =? 0 then Some (RECV_TERMINATED, st1)
      else if n <? 0 then
        if errno =? EWOULDBLOCK then Some (RECV_BLOCKED, st1)
        else Some (RECV_FAILURE, st1)
      else
        let rc := wrap_int (recv_count st + n) in
        if sizeof_header <=? to_size_t rc then
          let '(hdr2, log2) :=
            if msglen <? header_msglen hdr1
            then (set_header_msglen hdr1 msglen,
                  rlog st ++ [invalid_header_log (header_msglen hdr1) (header_msgix hdr1)])
            else (hdr1, rlog st) in
          if to_size_t (sizeof_header + to_size_t (header_msglen hdr2)) <=? to_size_t rc
          then Some (RECV_COMPLETE,
                     {| header := hdr2; buffer := buf1; recv_count := rc;
                        iov_base := iov_base st; iov_len := iov_len st;
                        rlog := log2; rsock := sock' |})
          else if to_size_t rc =? sizeof_header then
            recv_loop fuel' msglen
              {| header := hdr2; buffer := buf1; recv_count := rc;
                 iov_base := IovBuffer 0;
                 iov_len := to_size_t (header_msglen hdr2);
                 rlog := log2; rsock := sock' |}
          else
            recv_loop fuel' msglen
              {| header := hdr2; buffer := buf1; recv_count := rc;
                 iov_base := IovBuffer (to_size_t (to_size_t rc - sizeof_header));
                 iov_len := to_size_t (iov_len st - to_size_t n);
                 rlog := log2; rsock := sock' |}
        else
          recv_loop fuel' msglen
            {| header := hdr1; buffer := buf1; recv_count := rc;
               iov_base := IovHeader rc;
               iov_len := to_size_t (sizeof_header - to_size_t rc);
               rlog := rlog st; rsock := sock' |}
  end.

(** Every [recvmsg] that lets the loop go round takes at least one byte, so
    this many rounds are enough. *)
Fixpoint sock_measure (s : list recv_event) : nat :=
  match s with
  | [] => 0
  | Data b bs :: s' => S (S (length bs)) + sock_measure s'
  | _ :: s' => S (sock_measure s')
  end.

Definition recv_init (s : list recv_event) (buf : list byte) : recv_state :=
  {| header := repeat Byte.x00 8; buffer := buf; recv_count := 0;
     iov_base := IovHeader 0; iov_len := sizeof_header;
     rlog := []; rsock := s |}.

(** [tcp_recv_message sockfd buffer msglen]: status, the buffer afterwards,
    the lines logged and the socket afterwards. *)
Definition tcp_recv_message (s : list recv_event) (buf : list byte) (msglen : Z)
  : option (tRecvMsgTyp * list byte * list event * list recv_event) :=
  match recv_loop (S (sock_measure s)) msglen (recv_init s buf) with
  | Some (r, st) => Some (r, buffer st, rlog st, rsock st)
  | None => None
  end.

(** [arrives s k]: the next [k] bytes reach the reader with no [Eof] and no
    failure in between, however they are cut into chunks; the result is those
    bytes and what is left of the script. *)
Fixpoint arrives (s : list recv_event) (k : nat)
  : option (list byte * list recv_event) :=
  match k with
  | O => Some ([], s)
  | S _ =>
      match s with
      | Data b bs :: s' =>
          match skipn k (b :: bs) with
          | [] =>
              match arrives s' (k - length (b :: bs)) with
              | Some (rest, s'') => Some ((b :: bs) ++ rest, s'')
              | None => None
              end
          | r :: rs => Some (firstn k (b :: bs), Data r rs :: s')
          end
      | _ => None
      end
  end.

(** The bytes of one frame: header image, then the message. *)
Definition frame (msg : list byte) (ix : Z) : list byte :=
  header_bytes {| h_msglen := Z.of_nat (length msg); h_msgix := ix |} ++ msg.

(** What the clamp check of [tcp_recv_message] logs for a header [h] and a
    buffer of [cap] bytes. *)
Definition clamp_log (cap : Z) (h : MessageHeaderStc) : list event :=
  if cap <? h_msglen h
  then [invalid_header_log (h_msglen h) (h_msgix h)]
  else [].

End Netio.

(** ** endpoint.c: data *)

Definition MAX_MESSAGE_LEN : Z := 255.

(** [tServerStc]: an entry of the list of worker processes. *)
Record tServerStc := { srv_valid : bool; srv_pid : Z; srv_port : Z }.

(** The globals [first_conn_req] and [first_conn_srv], the sockets behind the
    descriptors, and everything logged, closed and freed so far. *)
Record world := {
  first_conn_req : list tConnectStc;
  first_conn_srv : list tServerStc;
  sockets : Z -> socket;
  trace : list event
}.

Definition emit (w : world) (evs : list event) : world :=
  {| first_conn_req := first_conn_req w; first_conn_srv := first_conn_srv w;
     sockets := sockets w; trace := trace w ++ evs |}.

Definition set_registry (w : world) (reg : list tConnectStc) : world :=
  {| first_conn_req := reg; first_conn_srv := first_conn_srv w;
     sockets := sockets w; trace := trace w |}.

Definition set_socket (w : world) (fd : Z) (s : socket) : world :=
  {| first_conn_req := first_conn_req w; first_conn_srv := first_conn_srv w;
     sockets := fun fd' => if fd' =? fd then s else sockets w fd';
     trace := trace w |}.

(** Assignment to the fields of the entry for [port] (the first one). *)
Fixpoint update_connection (reg : list tConnectStc) (port : Z)
    (f : tConnectStc -> tConnectStc) : list tConnectStc :=
  match reg with
  | [] => []
  | c :: reg' =>
      if destport c =? port then f c :: reg'
      else c :: update_connection reg' port f
  end.

Definition with_queue (q : list tBufferStc) (c : tConnectStc) : tConnectStc :=
  {| sockfd := sockfd c; destport := destport c; sendport := sendport c;
     state := state c; msgix := msgix c; sntix := sntix c; rspix := rspix c;
     pndix := pndix c; queue := q |}.

Definition incr_sntix (c : tConnectStc) : tConnectStc :=
  {| sockfd := sockfd c; destport := destport c; sendport := sendport c;
     state := state c; msgix := msgix c; sntix := wrap_int (sntix c + 1);
     rspix := rspix c; pndix := pndix c; queue := queue c |}.

Definition incr_pndix (c : tConnectStc) : tConnectStc :=
  {| sockfd := sockfd c; destport := destport c; sendport := sendport c;
     state := state c; msgix := msgix c; sntix := sntix c; rspix := rspix c;
     pndix := wrap_int (pndix c + 1); queue := queue c |}.

Definition incr_rspix (c : tConnectStc) : tConnectStc :=
  {| sockfd := sockfd c; destport := destport c; sendport := sendport c;
     state := state c; msgix := msgix c; sntix := sntix c;
     rspix := wrap_int (rspix c + 1); pndix := pndix c; queue := queue c |}.

Definition connected (p : Z) (c : tConnectStc) : tConnectStc :=
  {| sockfd := sockfd c; destport := destport c; sendport := Some p;
     state := STATE_READY; msgix := msgix c; sntix := sntix c; rspix := rspix c;
     pndix := pndix c; queue := queue c |}.

(** [char] is signed. *)
Definition char_value (b : byte) : Z :=
  let u := byte.unsigned b in if u <? 128 then u else u - 256.

(** The C string that starts a block of memory. *)
Fixpoint c_string (mem : list byte) : list byte :=
  match mem with
  | [] => []
  | b :: mem' => if Byte.eqb b Byte.x00 then [] else b :: c_string mem'
  end.

(** [strlen] as assigned to an [int]. *)
Definition strlen (str : list byte) : Z := wrap_int (Z.of_nat (length str)).

(** The index at which the [for] loop of [remove_term] stops. *)
Fixpoint term_index (buffer : list byte) (limit : nat) : nat :=
  match limit, buffer with
  | S limit', b :: buffer' =>
      if char_value b <? 32 then O else S (term_index buffer' limit')
  | _, _ => O
  end.

Definition remove_term (buffer : list byte) (size : Z) : list byte :=
  if size <? 2 then buffer
  else write_at (Z.of_nat (term_index buffer (Z.to_nat (size - 1)))) [Byte.x00] buffer.

(** ** endpoint.c: the send queue *)

Module Queue.

(** [add_message firstptr lastptr msgix buffer]; the two booleans tell
    whether the two [malloc] calls succeed. *)
Definition add_message (entry_ok buffer_ok : bool) (q : list tBufferStc)
    (ix : Z) (buffer : option (list byte)) : Z * list tBufferStc * list event :=
  match buffer with
  | None => (-1, q, [])
  | Some b =>
      if negb entry_ok
      then (-1, q, [EvLog PRINT_ERROR "memory allocation for send queue" []])
      else if negb buffer_ok
      then (-1, q, [EvLog PRINT_ERROR "memory allocation for message" [];
                    EvFreeUnlinked])
      else (0, q ++ [{| b_msgix := ix; b_msglen := None; b_buffer := Some b |}], [])
  end.

(** [rem_message firstptr lastptr]: unlink and free the first entry. *)
Definition rem_message (q : list tBufferStc) : list tBufferStc * list event :=
  match q with
  | [] => ([], [])
  | pending :: q' =>
      (q', match b_buffer pending with
           | Some b => [EvFreeBuffer b; EvFreeEntry pending]
           | None => [EvFreeEntry pending]
           end)
  end.

(** [get_message firstptr lastptr]: the first entry with a buffer, after
    unlinking and freeing the entries without one that precede it. *)
Fixpoint get_message (q : list tBufferStc)
  : option tBufferStc * list tBufferStc * list event :=
  match q with
  | [] => (None, [], [])
  | pending :: q' =>
      match b_buffer pending with
      | Some _ => (Some pending, q, [])
      | None =>
          let '(r, q'', evs) := get_message q' in
          (r, q'',
           EvLog PRINT_ERROR "NULL buffer in sending queue list (msgix %d)"
             [ArgInt (b_msgix pending)]
           :: EvFreeEntry pending :: evs)
      end
  end.


(** What [get_message] logs and frees for one entry without buffer. *)
Definition null_buffer_events (e : tBufferStc) : list event :=
  [EvLog PRINT_ERROR "NULL buffer in sending queue list (msgix %d)" [ArgInt (b_msgix e)];
   EvFreeEntry e].

End Queue.

(** ** endpoint.c: the registry of outbound connections *)

Module Registry.

Definition find_connection (reg : list tConnectStc) (port : Z) : option tConnectStc :=
  find (fun c => destport c =? port) reg.

(** Results of the system calls of [tcp_create_socket]. *)
Record create_calls := {
  r_socket : Z; r_bind : Z; r_fcntl : Z; r_getsockopt_rcv : Z;
  r_getsockopt_snd : Z; r_listen : Z;
  rcv_bufsize : Z; snd_bufsize : Z; create_errno : Z
}.

Definition tcp_create_socket (os : create_calls) (portno : Z) : Z * list event :=
  let sock := r_socket os in
  let err : list log_arg := [] in   (* the text of strerror (errno) *)
  if sock <? 0 then (-1, [EvLog PRINT_ERROR "socket open: %s" err])
  else if (0 <? portno) && (r_bind os <? 0)
  then (-1, [EvLog PRINT_ERROR "socket bind: %s" err; EvClose sock])
  else if r_fcntl os <? 0
  then (-1, [EvLog PRINT_ERROR "socket set to non-block: %s" err; EvClose sock])
  else if r_getsockopt_rcv os <? 0
  then (-1, [EvLog PRINT_ERROR "socket getsockopt SO_RCVBUF: %s" err; EvClose sock])
  else if r_getsockopt_snd os <? 0
  then (-1, [EvLog PRINT_ERROR "socket getsockopt SO_SNDBUF: %s" err; EvClose sock])
  else if 0 <? portno then
    if r_listen os <? 0
    then (-1, [EvLog PRINT_ERROR "socket listen: %s" err; EvClose sock])
    else (sock, [EvLog PRINT_SOCKET
                   "server socket listening on port: %u (rcvbuf = %u, sndbuf = %u)"
                   [ArgInt portno; ArgInt (rcv_bufsize os); ArgInt (snd_bufsize os)]])
  else (sock, [EvLog PRINT_SOCKET "client socket created: (rcvbuf = %u, sndbuf = %u)"
                 [ArgInt (rcv_bufsize os); ArgInt (snd_bufsize os)]]).

(** [tcp_connect_to_server]; [ret] and [errno] are what [connect] answers. *)
Definition tcp_connect_to_server (ret errno : Z) (clientsock portno : Z)
  : Z * list event :=
  if portno <=? 0
  then (STATE_IDLE,
        [EvLog PRINT_ERROR
           "invalid port selection: must specify destination port for this connection" []])
  else if ret <? 0 then
    if errno =? EINPROGRESS
    then (STATE_PENDING,
          [EvLog PRINT_SOCKET "socket connect (port %u): in progress" [ArgInt portno]])
    else (STATE_IDLE,
          [EvLog PRINT_ERROR "socket connect (port %u): %s" [ArgInt portno]])
  else (STATE_READY,
        [EvLog PRINT_SOCKET "socket connect (port %u): complete" [ArgInt portno]]).

(** What the environment answers during one [add_connection]. *)
Record add_calls := {
  malloc_ok : bool;
  create : create_calls;
  connect_ret : Z;
  connect_errno : Z
}.

Definition add_connection (os : add_calls) (w : world) (port : Z)
  : option tConnectStc * world :=
  match find_connection (first_conn_req w) port with
  | Some _ => (None, emit w [EvLog PRINT_ERROR "%u already connected" [ArgInt port]])
  | None =>
      if negb (malloc_ok os)
      then (None, emit w [EvLog PRINT_ERROR
                            "memory allocation failure adding %u to connection list"
                            [ArgInt port]])
      else
        let '(sock, ev1) := tcp_create_socket (create os) 0 in
        if sock <? 0 then (None, emit w (ev1 ++ [EvFreeUnlinked]))
        else
          let '(st, ev2) :=
            tcp_connect_to_server (connect_ret os) (connect_errno os) sock port in
          if st =? STATE_IDLE
          then (None, emit w (ev1 ++ ev2 ++ [EvFreeUnlinked; EvClose sock]))
          else
            let connection :=
              {| sockfd := sock; destport := port; sendport := None; state := st;
                 msgix := 0; sntix := 0; rspix := 0; pndix := 0; queue := [] |} in
            (Some connection,
             emit (set_registry w (first_conn_req w ++ [connection])) (ev1 ++ ev2))
  end.

(** The first entry for [port], taken out of the chain. *)
Fixpoint unlink (port : Z) (reg : list tConnectStc)
  : option (tConnectStc * list tConnectStc) :=
  match reg with
  | [] => None
  | c :: reg' =>
      if destport c =? port then Some (c, reg')
      else match unlink port reg' with
           | Some (x, reg'') => Some (x, c :: reg'')
           | None => None
           end
  end.

Definition rem_connection (w : world) (port : Z) : world :=
  match unlink port (first_conn_req w) with
  | Some (connection, reg') =>
      emit (set_registry w reg')
        ([EvLog PRINT_OTHER "closing and removing connection to port %u"
            [ArgInt (destport connection)]]
         ++ (if 0 <=? sockfd connection then [EvClose (sockfd connection)] else [])
         ++ [EvFreeConnection connection])
  | None => emit w [EvLog PRINT_ERROR "Connection to %u not found" [ArgInt port]]
  end.

(** [fini_connections]: every socket is closed and every entry freed. *)
Definition fini_connections (w : world) : world :=
  emit (set_registry w [])
    (flat_map
       (fun connection =>
          [EvLog PRINT_OTHER "closing and removing connection to port %u"
             [ArgInt (destport connection)];
           EvClose (sockfd connection); EvFreeConnection connection])
       (first_conn_req w)).

End Registry.

(** ** endpoint.c: the dispatcher *)

Module Dispatcher.

Import Queue Registry.

(** How a function that works on one connection comes back. *)
Inductive outcome :=
| Returns (ret : Z) (w : world)     (* the entry is still linked *)
| Removed (ret : Z) (w : world)     (* rem_connection has freed the entry *)
| Undefined (w : world).            (* the source reads an entry or buffer that
                                      is freed or NULL *)

(** The part of [send_message] from [strlen (buffer)] on; [pending] tells
    whether [buffer] is the head of the queue. *)
Definition transmit (entry_ok buffer_ok : bool) (w : world) (connection : tConnectStc)
    (pending : bool) (buffer : list byte) : outcome :=
  let port := destport connection in
  let fd := sockfd connection in
  let msglen := strlen buffer in
  let '(send_error, sock') :=
    Netio.tcp_send_message (sockets w fd) buffer msglen (msgix connection) in
  let w1 := emit (set_socket w fd sock')
              [EvSend fd buffer msglen (msgix connection) send_error] in
  match send_error with
  | SEND_BLOCKED =>
      let w2 := emit w1 [EvLog PRINT_ERROR "socket sendmsg (port %u): blocked"
                           [ArgInt port]] in
      let '(q, evs) :=
        if pending then (queue connection, [])
        else let '(_, q, evs) :=
               add_message entry_ok buffer_ok (queue connection)
                 (msgix connection) (Some buffer) in (q, evs) in
      Returns (-1)
        (emit (set_registry w2
                 (update_connection (first_conn_req w2) port
                    (fun c => incr_pndix (with_queue q c)))) evs)
  | SEND_FAILURE =>
      Removed (-1)
        (rem_connection
           (emit w1 [EvLog PRINT_ERROR "socket sendmsg (port %u): %s" [ArgInt port]])
           port)
  | SEND_COMPLETE =>
      let '(q, evs) :=
        if pending then rem_message (queue connection)
        else (queue connection, []) in
      Returns 0
        (emit (set_registry w1
                 (update_connection (first_conn_req w1) port
                    (fun c => with_queue q (incr_sntix c)))) evs)
  end.

(** [send_message connection buffer]; [buffer] is [None] for a NULL pointer. *)
Definition send_message (entry_ok buffer_ok : bool) (w : world) (port : Z)
    (buffer : option (list byte)) : outcome :=
  match find_connection (first_conn_req w) port with
  | None => Undefined w
  | Some connection =>
      let '(pending, q1, ev1) := get_message (queue connection) in
      let c1 := with_queue q1 connection in
      let w1 := emit (set_registry w
                        (update_connection (first_conn_req w) port (with_queue q1)))
                  ev1 in
      match pending, buffer with
      | Some p, Some b =>
          let '(retcode, q2, ev2) :=
            add_message entry_ok buffer_ok q1 (msgix connection) (Some b) in
          if retcode =? 0 then
            match b_buffer p with
            | Some pb =>
                transmit entry_ok buffer_ok
                  (emit (set_registry w1
                           (update_connection (first_conn_req w1) port (with_queue q2)))
                     ev2)
                  (with_queue q2 connection) true pb
            | None => Undefined w1
            end
          else
            (* rem_connection, then connection->sockfd is read *)
            Undefined (rem_connection (emit w1 ev2) port)
      | Some p, None =>
          match b_buffer p with
          | Some pb => transmit entry_ok buffer_ok w1 c1 true pb
          | None => Undefined w1
          end
      | None, Some b => transmit entry_ok buffer_ok w1 c1 false b
      | None, None => Returns (-1) w1
      end
  end.

(** [while (! send_message (connection, 0)) { }] *)
Fixpoint drain (fuel : nat) (w : world) (port : Z) : option outcome :=
  match fuel with
  | O => None
  | S fuel' =>
      match send_message true true w port None with
      | Returns ret w' =>
          if ret =? 0 then drain fuel' w' port else Some (Returns ret w')
      | other => Some other
      end
  end.

(** How the body of the [for] loop over the connections ends. *)
Inductive body_outcome :=
| Next (w : world)            (* the entry is still linked *)
| NextFreed (w : world)       (* the entry was freed; the loop header reads
                                connection->next from it *)
| BodyUndefined (w : world).  (* the body itself read the freed entry *)

(** What [select] and the socket calls report for one connection. *)
Record readiness := {
  write_ready : bool;
  read_ready : bool;
  so_error_ret : Z;     (* return code of getsockopt (SO_ERROR) *)
  so_error : Z;         (* the pending socket error *)
  local_port : Z        (* ntohs of the port getsockname reports *)
}.

(** The [STATE_PENDING] branch of the write section of [main]. *)
Definition resolve_pending (r : readiness) (w : world) (port : Z) : body_outcome :=
  if so_error_ret r <? 0 then
    NextFreed
      (rem_connection
         (emit w [EvLog PRINT_SOCKET "socket getsockopt failed (port %u): %s"
                    [ArgInt port]]) port)
  else if negb (so_error r =? 0) then
    NextFreed
      (rem_connection
         (emit w [EvLog PRINT_SOCKET "socket getsockopt connect failure (port %u): %s"
                    [ArgInt port]]) port)
  else
    Next
      (emit (set_registry w
               (update_connection (first_conn_req w) port (connected (local_port r))))
         [EvLog PRINT_SOCKET
            "socket getsockopt connect complete (port %u) - sending on port: %u"
            [ArgInt port; ArgInt (local_port r)]]).

(** The write section of [main] for one connection. *)
Definition write_section (r : readiness) (w : world) (port : Z) : option body_outcome :=
  match find_connection (first_conn_req w) port with
  | None => Some (BodyUndefined w)
  | Some connection =>
      let resolved :=
        if state connection =? STATE_PENDING then resolve_pending r w port
        else Next w in
      match resolved with
      | Next w1 =>
          match drain (S (length (queue connection))) w1 port with
          | Some (Returns _ w2) => Some (Next w2)
          | Some (Removed _ w2) => Some (BodyUndefined w2)
          | Some (Undefined w2) => Some (BodyUndefined w2)
          | None => None
          end
      | other => Some other
      end
  end.

(** The [while (true)] loop of the read section of [main]; [response] is the
    local array, which is cleared once before the loop. *)
Fixpoint read_loop (fuel : nat) (w : world) (port : Z) (response : list byte)
  : option body_outcome :=
  match fuel with
  | O => None
  | S fuel' =>
      match find_connection (first_conn_req w) port with
      | None => Some (BodyUndefined w)
      | Some connection =>
          let fd := sockfd connection in
          let sock := sockets w fd in
          match Netio.tcp_recv_message (inbound sock) response (MAX_MESSAGE_LEN + 1) with
          | None => None
          | Some (recv_error, response1, logged, inbound') =>
              let w1 :=
                emit (set_socket w fd {| inbound := inbound'; outbound := outbound sock;
                                         wire := wire sock |}) logged in
              match recv_error with
              | RECV_COMPLETE =>
                  let response2 := remove_term response1 (MAX_MESSAGE_LEN + 1) in
                  read_loop fuel'
                    (set_registry
                       (emit w1 [EvLog PRINT_RCVD "%.30s"
                                   [ArgStr (firstn 30 (c_string response2))]])
                       (update_connection (first_conn_req w1) port incr_rspix))
                    port response2
              | RECV_BLOCKED => Some (Next w1)
              | RECV_TERMINATED =>
                  Some (NextFreed
                          (rem_connection
                             (emit w1 [EvLog PRINT_SOCKET
                                         "socket recvmsg (port %u) terminated connection"
                                         [ArgInt port]]) port))
              | RECV_FAILURE =>
                  Some (NextFreed
                          (rem_connection
                             (emit w1 [EvLog PRINT_ERROR "socket recvmsg (port %u): %s"
                                         [ArgInt port]]) port))
              end
          end
      end
  end.

(** The read section of [main] for one connection. *)
Definition read_section (w : world) (port : Z) : option body_outcome :=
  match find_connection (first_conn_req w) port with
  | None => Some (BodyUndefined w)
  | Some connection =>
      if state connection =? STATE_READY
      then read_loop (S (Netio.sock_measure (inbound (sockets w (sockfd connection)))))
             w port (repeat Byte.x00 (Z.to_nat (MAX_MESSAGE_LEN + 1)))
      else Some (Next w)
  end.

(** The body of the [for] loop over the connections. *)
Definition service_connection (r : readiness) (w : world) (port : Z)
  : option body_outcome :=
  let written := if write_ready r then write_section r w port else Some (Next w) in
  match written with
  | Some (Next w1) => if read_ready r then read_section w1 port else Some (Next w1)
  | other => other
  end.

(** How the [for] loop over the connections ends. *)
Inductive loop_outcome :=
| LoopDone (w : world)
| LoopUndefined (w : world).   (* the loop went on from a freed entry *)

(** The [for] loop, over the ports of the entries linked when it starts. *)
Fixpoint service_connections (ready : Z -> readiness) (w : world) (ports : list Z)
  : option loop_outcome :=
  match ports with
  | [] => Some (LoopDone w)
  | port :: ports' =>
      match service_connection (ready port) w port with
      | Some (Next w1) => service_connections ready w1 ports'
      | Some (NextFreed w1) => Some (LoopUndefined w1)
      | Some (BodyUndefined w1) => Some (LoopUndefined w1)
      | None => None
      end
  end.





Definition add_server_link (malloc_ok : bool) (w : world) (pid port : Z) : world :=
  if malloc_ok
  then {| first_conn_req := first_conn_req w;
          first_conn_srv := first_conn_srv w
                            ++ [{| srv_valid := true; srv_pid := pid; srv_port := port |}];
          sockets := sockets w; trace := trace w |}
  else emit w [EvLog PRINT_ERROR "allocating server connection list" []].




(** [connection->msgix++]: one more message produced. *)
Definition incr_msgix (c : tConnectStc) : tConnectStc :=
  {| sockfd := sockfd c; destport := destport c; sendport := sendport c;
     state := state c; msgix := wrap_int (msgix c + 1); sntix := sntix c;
     rspix := rspix c; pndix := pndix c; queue := queue c |}.

Definition produce (w : world) (port : Z) : world :=
  set_registry w (update_connection (first_conn_req w) port incr_msgix).

(** The [ACTION_SEND_MESSAGE] branch of [main]; [current_endpt] is [None]
    for a NULL pointer. *)
Definition action_send_message (entry_ok buffer_ok : bool) (w : world)
    (current_endpt : option Z) (buffer : list byte) : outcome :=
  let refuse :=
    Returns 0
      (emit w [EvLog PRINT_ERROR
                 "No active connection specified. Either create or select a connection to use"
                 []]) in
  match current_endpt with
  | None => refuse
  | Some port =>
      match find_connection (first_conn_req w) port with
      | None => Undefined w
      | Some connection =>
          if state connection =? STATE_IDLE then refuse
          else
            send_message entry_ok buffer_ok (produce w port) port (Some buffer)
      end
  end.

Definition outcome_world (o : outcome) : world :=
  match o with Returns _ w | Removed _ w | Undefined w => w end.

Definition body_world (o : body_outcome) : world :=
  match o with Next w | NextFreed w | BodyUndefined w => w end.

(** One operation of the dispatcher on the registry: the commands that add
    and remove an endpoint, the production and sending of a message, the
    service of one connection, and the final clean-up. *)
Inductive step : world -> world -> Prop :=
| step_add os w port :
    step w (snd (add_connection os w port))
| step_rem w port :
    step w (rem_connection w port)
| step_produce w port :
    step w (produce w port)
| step_send_message entry_ok buffer_ok w port buffer :
    step w (outcome_world (send_message entry_ok buffer_ok w port buffer))
| step_send entry_ok buffer_ok w current_endpt buffer :
    step w (outcome_world (action_send_message entry_ok buffer_ok w current_endpt buffer))
| step_service r w port o :
    service_connection r w port = Some o -> step w (body_world o)
| step_fini w :
    step w (fini_connections w).

(** The worlds the dispatcher can be in: [init_connections] leaves the
    registry empty. *)
Inductive reachable : world -> Prop :=
| reach_init w : first_conn_req w = [] -> reachable w
| reach_step w w' : reachable w -> step w w' -> reachable w'.

(** The life of one entry: its port and socket stay, and its state stays or
    goes from [STATE_PENDING] to [STATE_READY]. *)
Definition same_connection (c c' : tConnectStc) : Prop :=
  destport c' = destport c /\ sockfd c' = sockfd c /\
  (state c' = state c \/ (state c = STATE_PENDING /\ state c' = STATE_READY)).

(** [evolve reg reg']: [reg'] keeps entries of [reg], in order, each one
    further in its life; the others were removed. *)
Inductive evolve : list tConnectStc -> list tConnectStc -> Prop :=
| evolve_nil : evolve [] []
| evolve_keep c c' reg reg' :
    same_connection c c' -> evolve reg reg' -> evolve (c :: reg) (c' :: reg')
| evolve_drop c reg reg' :
    evolve reg reg' -> evolve (c :: reg) reg'.

(** What holds of every linked entry. *)
Definition live (c : tConnectStc) : Prop :=
  (state c = STATE_PENDING \/ state c = STATE_READY) /\ 0 <= sockfd c.

Definition registry_ok (reg : list tConnectStc) : Prop :=
  NoDup (map destport reg) /\ Forall live reg.

(** The entries for the other destination ports, in link order. *)
Definition others (port : Z) (reg : list tConnectStc) : list tConnectStc :=
  filter (fun c => negb (destport c =? port)) reg.

(** [touches port reg reg']: going from [reg] to [reg'] nothing was added,
    the entries for the other ports are untouched, and every entry kept is
    further in its own life. *)
Definition touches (port : Z) (reg reg' : list tConnectStc) : Prop :=
  others port reg' = others port reg /\ evolve reg reg'.

End Dispatcher.

(** ** endpoint.c: the worker, [child_handle_client] *)

Module Worker.

(** The local variables of [child_handle_client]. *)
Record child := {
  firstmsg : list tBufferStc;   (* the chain from firstmsg.next *)
  sock : socket;            (* the socket behind clientsock *)
  send_count : Z;
  recv_count : Z;
  running : bool;
  ctrace : list event
}.

Definition say (ch : child) (evs : list event) : child :=
  {| firstmsg := firstmsg ch; sock := sock ch; send_count := send_count ch;
     recv_count := recv_count ch; running := running ch; ctrace := ctrace ch ++ evs |}.

Definition stop (ch : child) : child :=
  {| firstmsg := firstmsg ch; sock := sock ch; send_count := send_count ch;
     recv_count := recv_count ch; running := false; ctrace := ctrace ch |}.

(** The [RECV_COMPLETE] branch: the message in [buffer] is put at the end of
    the queue; the booleans tell whether the two [malloc] calls succeed. *)
Definition child_enqueue (response_ok qentry_ok : bool) (ch : child)
    (procid client_port : Z) (buffer : list byte) : child :=
  let count := wrap_int (recv_count ch + 1) in
  let text := c_string (remove_term buffer (MAX_MESSAGE_LEN + 1)) in
  let ch1 :=
    {| firstmsg := firstmsg ch; sock := sock ch;
       send_count := send_count ch; recv_count := count; running := running ch;
       ctrace := ctrace ch
                 ++ [EvLog PRINT_SENT "pid %d [port %u msg %u] : %.30s"
                       [ArgInt procid; ArgInt client_port; ArgInt count;
                        ArgStr (firstn 30 text)]] |} in
  if negb response_ok
  then stop (say ch1 [EvLog PRINT_ERROR "memory allocation for message" []])
  else if negb qentry_ok
  then stop (say ch1 [EvLog PRINT_ERROR "memory allocation for send queue" [];
                      EvFreeUnlinked])
  else
    {| firstmsg := firstmsg ch1
                   ++ [{| b_msgix := count; b_msglen := Some (strlen text);
                          b_buffer := Some text |}];
       sock := sock ch1; send_count := send_count ch1;
       recv_count := recv_count ch1; running := running ch1; ctrace := ctrace ch1 |}.

(** The send loop, [while (pending)]: [pending] is the chain from the
    [pending] pointer on. *)
Fixpoint child_send_queue (pending : list tBufferStc) (ch : child)
    (clientsock client_port : Z) : child :=
  match pending with
  | [] => ch
  | p :: next =>
      match b_buffer p with
      | None =>
          child_send_queue next
            {| firstmsg := next; sock := sock ch;
               send_count := send_count ch; recv_count := recv_count ch;
               running := running ch; ctrace := ctrace ch ++ [EvFreeEntry p] |}
            clientsock client_port
      | Some b =>
          let ix := wrap_int (send_count ch + 1) in
          let '(send_error, sock') :=
            Netio.tcp_send_message (sock ch) b (strlen b) ix in
          let sent := EvSend clientsock b (strlen b) ix send_error in
          match send_error with
          | SEND_BLOCKED =>
              child_send_queue next
                {| firstmsg := firstmsg ch; sock := sock';
                   send_count := send_count ch; recv_count := recv_count ch;
                   running := running ch;
                   ctrace := ctrace ch
                             ++ [sent; EvLog PRINT_ERROR "socket sendmsg (port %u): blocked"
                                         [ArgInt client_port]] |}
                clientsock client_port
          | SEND_FAILURE =>
              {| firstmsg := firstmsg ch; sock := sock';
                 send_count := send_count ch; recv_count := recv_count ch;
                 running := false;
                 ctrace := ctrace ch
                           ++ [sent; EvLog PRINT_ERROR "socket sendmsg (port %u): %s"
                                       [ArgInt client_port]] |}
          | SEND_COMPLETE =>
              child_send_queue next
                {| firstmsg := next; sock := sock';
                   send_count := ix; recv_count := recv_count ch;
                   running := running ch;
                   ctrace := ctrace ch ++ [sent; EvFreeBuffer b; EvFreeEntry p] |}
                clientsock client_port
          end
      end
  end.

(** The send part of one round of the worker's loop. *)
Definition child_send (ch : child) (clientsock client_port : Z) : child :=
  child_send_queue (firstmsg ch) ch clientsock client_port.

(** What the environment answers in one round of the worker's loop. *)
Record round_calls := {
  select_ret : Z;           (* the return code of select *)
  select_readable : bool;   (* FD_ISSET (clientsock, &read_set) *)
  response_malloc : bool;   (* whether malloc (msglen + 1) succeeds *)
  qentry_malloc : bool      (* whether malloc (sizeof (tBufferStc)) succeeds *)
}.

(** The socket after a receive call, and the lines that call logged. *)
Definition received (ch : child) (inbound' : list recv_event) (logged : list event)
  : child :=
  {| firstmsg := firstmsg ch;
     sock := {| inbound := inbound'; outbound := outbound (sock ch);
                wire := wire (sock ch) |};
     send_count := send_count ch; recv_count := recv_count ch;
     running := running ch; ctrace := ctrace ch ++ logged |}.

(** The read part of one round: [buffer] is cleared, then filled by
    [tcp_recv_message]. *)
Definition child_recv (os : round_calls) (ch : child) (procid client_port : Z)
  : option child :=
  match Netio.tcp_recv_message (inbound (sock ch))
          (repeat Byte.x00 (Z.to_nat (MAX_MESSAGE_LEN + 1))) (MAX_MESSAGE_LEN + 1) with
  | None => None
  | Some (recv_error, buffer, logged, inbound') =>
      let ch1 := received ch inbound' logged in
      Some
        match recv_error with
        | RECV_TERMINATED =>
            stop (say ch1 [EvLog PRINT_SOCKET
                             "socket recvmsg (port %u) pid %d terminated connection"
                             [ArgInt client_port; ArgInt procid]])
        | RECV_BLOCKED =>
            say ch1 [EvLog PRINT_ERROR "socket recvmsg (port %u): blocked"
                       [ArgInt client_port]]
        | RECV_FAILURE =>
            stop (say ch1 [EvLog PRINT_ERROR "socket recvmsg (port %u): %s"
                             [ArgInt client_port]])
        | RECV_COMPLETE =>
            child_enqueue (response_malloc os) (qentry_malloc os) ch1 procid client_port
              buffer
        end
  end.

(** One round of [while (running)]: a [break] leaves [running] false and
    skips the send part, a time-out of [select] skips the whole round. *)
Definition child_round (os : round_calls) (ch : child)
    (procid clientsock client_port : Z) : option child :=
  if select_ret os <? 0
  then Some (stop (say ch [EvLog PRINT_ERROR "select: %s" []]))
  else if select_ret os =? 0 then Some ch
  else
    match (if select_readable os then child_recv os ch procid client_port
           else Some ch) with
    | Some ch1 =>
        Some (if running ch1 then child_send ch1 clientsock client_port else ch1)
    | None => None
    end.

(** The rounds that [script] answers, as long as the worker is running. *)
Fixpoint child_run (script : list round_calls) (ch : child)
    (procid clientsock client_port : Z) : option child :=
  match script with
  | [] => Some ch
  | os :: script' =>
      if running ch then
        match child_round os ch procid clientsock client_port with
        | Some ch1 => child_run script' ch1 procid clientsock client_port
        | None => None
        end
      else Some ch
  end.

(** The locals of [child_handle_client] when its loop starts. *)
Definition child_start (s : socket) : child :=
  {| firstmsg := []; sock := s; send_count := 0; recv_count := 0; running := true;
     ctrace := [] |}.

(** [child_handle_client]: the state in which it returns, if its loop ends
    within the rounds of [script]. *)
Definition child_handle_client (script : list round_calls) (s : socket)
    (procid clientsock client_port : Z) : option child :=
  match child_run script (child_start s) procid clientsock client_port with
  | Some ch =>
      if running ch then None
      else Some (say ch [EvClose clientsock;
                         EvLog PRINT_OTHER "pid %d terminating" [ArgInt procid]])
  | None => None
  end.

End Worker.

(** ** endpoint.c: the list of worker processes *)

Module Servers.


(** What the functions of this list do besides changing it. *)
Inductive server_event :=
| SrvLog (category : Z) (fmt : string) (args : list log_arg)
| SrvKill (pid sig : Z)          (* kill (pid, sig) *)
| SrvFree (s : tServerStc).      (* free of a list entry *)



(** The first entry for [pid], taken out of the chain. *)
Fixpoint unlink_server (pid : Z) (srv : list tServerStc)
  : option (tServerStc * list tServerStc) :=
  match srv with
  | [] => None
  | connection :: srv' =>
      if srv_pid connection =? pid then Some (connection, srv')
      else match unlink_server pid srv' with
           | Some (x, rest) => Some (x, connection :: rest)
           | None => None
           end
  end.

Definition rem_server_link (srv : list tServerStc) (pid : Z)
  : list tServerStc * list server_event :=
  match unlink_server pid srv with
  | Some (connection, rest) => (rest, [SrvFree connection])
  | None =>
      (srv, [SrvLog PRINT_ERROR "pid %d connection not found in server list"
               [ArgInt pid]])
  end.



End Servers.

(** ** userio.c, built for a plain terminal ([NCURSES_BOOL] not defined) *)

Module Userio.

Definition PRINT_ALL : Z :=
  Z.lor (Z.lor (Z.lor PRINT_SENT PRINT_RCVD) PRINT_SOCKET) PRINT_OTHER.

Definition ACTION_INVALID : Z := -1.
Definition ACTION_QUIT : Z := 0.
Definition ACTION_SEND_MESSAGE : Z := 1.
Definition ACTION_ADD_ENDPOINT : Z := 2.
Definition ACTION_REM_ENDPOINT : Z := 3.
Definition ACTION_SEL_ENDPOINT : Z := 4.
Definition ACTION_DELAY : Z := 5.
Definition ACTION_TEST : Z := 6.
Definition ACTION_SET_PRINT_FLAG : Z := 7.
Definition ACTION_SHOW_CONNECTIONS : Z := 8.
Definition ACTION_TRANSPORT : Z := 9.
Definition ACTION_HOHOHO : Z := 10.

(** What [logmsg] does with a line. *)
Inductive shown :=
| Suppressed                   (* the category is not enabled: nothing is printed *)
| Prefixed (prefix : string)   (* the prefix, then the formatted line *)
| Uninitialised.               (* no prefix is stored: the line is put behind
                                  whatever string [disp_array] holds *)

(** [logmsg]: the selection by category and the prefix.  The formatting of
    the line into [disp_array] is not part of this embedding. *)
Definition logmsg (print_flag category : Z) : shown :=
  let allowed := Z.lor (Z.lor (Z.lor print_flag PRINT_ERROR) PRINT_WARNING) PRINT_QUERY in
  if Z.land category allowed =? 0 then Suppressed
  else if category =? PRINT_STATUS then Uninitialised
  else if category =? PRINT_QUERY then Uninitialised
  else if category =? PRINT_ERROR then Prefixed " ! ERROR : "
  else if category =? PRINT_WARNING then Prefixed " ! WARN  : "
  else if category =? PRINT_SOCKET then Prefixed " ! "
  else if category =? PRINT_OTHER then Prefixed " ! "
  else if category =? PRINT_RCVD then Prefixed " < "
  else if category =? PRINT_SENT then Prefixed " > "
  else Uninitialised.

(** [isspace] and [isdigit] in the C locale. *)
Definition isspace (c : byte) : bool :=
  let u := byte.unsigned c in (u =? 32) || ((9 <=? u) && (u <=? 13)).

Definition isdigit (c : byte) : bool :=
  let u := byte.unsigned c in (48 <=? u) && (u <=? 57).

(** [atoi] on the memory from a pointer on: white space, a sign, digits.
    [None] when the scan leaves the array or the number is no [int]. *)
Fixpoint atoi_digits (mem : list byte) (acc : Z) : option Z :=
  match mem with
  | [] => None
  | c :: mem' =>
      if isdigit c then atoi_digits mem' (10 * acc + (byte.unsigned c - 48))
      else Some acc
  end.

Fixpoint atoi_signed (mem : list byte) : option Z :=
  match mem with
  | [] => None
  | c :: mem' =>
      if isspace c then atoi_signed mem'
      else if Byte.eqb c Byte.x2d then option_map Z.opp (atoi_digits mem' 0)
      else if Byte.eqb c Byte.x2b then atoi_digits mem' 0
      else atoi_digits mem 0
  end.

Definition atoi (mem : list byte) : option Z :=
  match atoi_signed mem with
  | Some v => if (- 2 ^ 31 <=? v) && (v <? 2 ^ 31) then Some v else None
  | None => None
  end.

(** The bytes [fgets] takes: up to and including the first newline, at most
    [limit] of them. *)
Fixpoint take_line (limit : nat) (input : list byte) : list byte * list byte :=
  match limit, input with
  | S limit', c :: input' =>
      if Byte.eqb c Byte.x0a then ([c], input')
      else let '(line, rest) := take_line limit' input' in (c :: line, rest)
  | _, _ => ([], input)
  end.

(** [fgets (buffer, n, stdin)]: the array and the input afterwards.  At the
    end of the input nothing is stored. *)
Definition fgets (buffer : list byte) (n : Z) (input : list byte)
  : list byte * list byte :=
  if n <=? 0 then (buffer, input)
  else if n =? 1 then (write_at 0 [Byte.x00] buffer, input)
  else
    match input with
    | [] => (buffer, [])
    | _ :: _ =>
        let '(line, rest) := take_line (Z.to_nat (n - 1)) input in
        (write_at 0 (line ++ [Byte.x00]) buffer, rest)
    end.

(** The loop over the flags of the [p] command: the value, and the invalid
    character if there is one.  [None] when the scan leaves the array. *)
Fixpoint print_flags (flag : list byte) (value : Z) : option (Z * option byte) :=
  match flag with
  | [] => None
  | c :: flag' =>
      if 32 <? char_value c then
        if Byte.eqb c Byte.x30 then print_flags flag' 0
        else if Byte.eqb c Byte.x61 then print_flags flag' PRINT_ALL
        else if Byte.eqb c Byte.x73 then print_flags flag' (Z.lor value PRINT_SENT)
        else if Byte.eqb c Byte.x72 then print_flags flag' (Z.lor value PRINT_RCVD)
        else if Byte.eqb c Byte.x63 then print_flags flag' (Z.lor value PRINT_SOCKET)
        else if Byte.eqb c Byte.x6f then print_flags flag' (Z.lor value PRINT_OTHER)
        else Some (value, Some c)
      else Some (value, None)
  end.

(** What [userio_get_command] returns and leaves behind. *)
Record command_read := {
  cmd : Z;                            (* the return value *)
  cmd_value : option Z;               (* *value *)
  cmd_buffer : option (list byte);    (* the array *)
  cmd_input : list byte;              (* what is left of the input *)
  cmd_log : list event
}.

(** [userio_get_command value buffer size]; a NULL pointer is [None].  The
    result is [None] when a byte outside the array is read or [atoi] has no
    defined result. *)
Definition userio_get_command (value : option Z) (buffer : option (list byte))
    (size : Z) (input : list byte) : option command_read :=
  match value, buffer with
  | Some v, Some buf =>
      if size =? 0
      then Some {| cmd := ACTION_INVALID; cmd_value := value; cmd_buffer := buffer;
                   cmd_input := input; cmd_log := [] |}
      else
        let '(buf1, rest) := fgets buf (wrap_int (size - 1)) input in
        let done (command v' : Z) (evs : list event) :=
          Some {| cmd := command; cmd_value := Some v'; cmd_buffer := Some buf1;
                  cmd_input := rest; cmd_log := evs |} in
        let number (command : Z) :=
          match atoi (skipn 2 buf1) with
          | Some n => done command n []
          | None => None
          end in
        match nth_error buf1 0 with
        | None => None
        | Some c0 =>
            if Byte.eqb c0 Byte.x23 then
              match nth_error buf1 1 with
              | None => None
              | Some c1 =>
                  if Byte.eqb c1 Byte.x71 then done ACTION_QUIT v []
                  else if Byte.eqb c1 Byte.x2b then number ACTION_ADD_ENDPOINT
                  else if Byte.eqb c1 Byte.x2d then number ACTION_REM_ENDPOINT
                  else if Byte.eqb c1 Byte.x73 then number ACTION_SEL_ENDPOINT
                  else if Byte.eqb c1 Byte.x7a then done ACTION_DELAY v []
                  else if Byte.eqb c1 Byte.x74 then number ACTION_TEST
                  else if Byte.eqb c1 Byte.x70 then
                    match print_flags (skipn 2 buf1) 0 with
                    | None => None
                    | Some (_, Some invalid_char) =>
                        done ACTION_SET_PRINT_FLAG PRINT_ALL
                          [EvLog PRINT_QUERY
                             "invalid print flag: %c. must be { 0, a, s, r, c, o }"
                             [ArgInt (char_value invalid_char)]]
                    | Some (v', None) =>
                        done ACTION_SET_PRINT_FLAG v'
                          [EvLog PRINT_QUERY "print_flag = 0x%2.2X" [ArgInt v']]
                    end
                  else if Byte.eqb c1 Byte.x64 then done ACTION_SHOW_CONNECTIONS v []
                  else done ACTION_INVALID v [EvLog PRINT_ERROR "Invalid command" []]
              end
            else done ACTION_SHOW_CONNECTIONS v []
        end
  | _, _ =>
      Some {| cmd := ACTION_INVALID; cmd_value := value; cmd_buffer := buffer;
              cmd_input := input; cmd_log := [] |}
  end.

End Userio.

(** ** endpoint.c: [main], the keyboard and the descriptor sets *)

Module Main.

Import Queue Registry Dispatcher Userio.

Definition SHIP_UPS : Z := 0.
Definition SHIP_FEDEX : Z := 1.
Definition SHIP_REINDEER : Z := 2.

Definition STDIN_FILENO : Z := 0.
Definition FD_SETSIZE : Z := 1024.

(** An [fd_set]: the descriptors that are members. *)
Definition fd_set := Z -> bool.

Definition FD_ZERO : fd_set := fun _ => false.

(** [FD_SET (fd, set)]; [None] for a descriptor the set has no bit for. *)
Definition FD_SET (fd : Z) (set : fd_set) : option fd_set :=
  if (0 <=? fd) && (fd <? FD_SETSIZE)
  then Some (fun x => (x =? fd) || set x)
  else None.

(** [set_connection_select psock_set maxfd] over the chain [reg]. *)
Fixpoint set_connection_select (reg : list tConnectStc) (psock_set : fd_set)
    (maxfd : Z) : option (fd_set * Z) :=
  match reg with
  | [] => Some (psock_set, maxfd)
  | connection :: reg' =>
      match FD_SET (sockfd connection) psock_set with
      | None => None
      | Some set1 =>
          set_connection_select reg' set1
            (if maxfd <? sockfd connection then sockfd connection else maxfd)
      end
  end.

(** The descriptor sets and [max_descriptor] for the [select] of [main]. *)
Definition select_sets (w : world) (serversock : Z) : option (fd_set * fd_set * Z) :=
  match FD_SET STDIN_FILENO FD_ZERO with
  | None => None
  | Some set0 =>
      match FD_SET serversock set0 with
      | None => None
      | Some set1 =>
          match set_connection_select (first_conn_req w) set1 serversock with
          | None => None
          | Some (read_set, max1) =>
              match set_connection_select (first_conn_req w) FD_ZERO max1 with
              | None => None
              | Some (write_set, max2) => Some (read_set, write_set, max2)
              end
          end
      end
  end.

Definition show_state (state : Z) : string :=
  if state =? STATE_IDLE then "IDLE"
  else if state =? STATE_PENDING then "PENDING"
  else if state =? STATE_READY then "READY"
  else "<unknown>".

(** The lines of [show_all_connections] for the queue of one connection;
    [None] when an entry has no buffer to print. *)
Fixpoint show_queue (q : list tBufferStc) : option (list event) :=
  match q with
  | [] => Some []
  | qentry :: q' =>
      match b_buffer qentry, show_queue q' with
      | Some b, Some evs =>
          Some (EvLog PRINT_QUERY "      %d : %s" [ArgInt (b_msgix qentry); ArgStr b]
                :: evs)
      | _, _ => None
      end
  end.

(** [show_all_connections]; [unset] is what the memory of a [sendport] that
    was never assigned holds. *)
Fixpoint show_connections (unset : tConnectStc -> Z) (reg : list tConnectStc)
  : option (list event) :=
  match reg with
  | [] => Some []
  | endpt :: reg' =>
      match show_queue (queue endpt), show_connections unset reg' with
      | Some lines, Some evs =>
          Some (EvLog PRINT_QUERY
                  "  destport %d, sendport %d, sockfd %d, state %s, msgs (%d:%d:%d) blocked %d"
                  [ArgInt (destport endpt);
                   ArgInt (match sendport endpt with Some p => p | None => unset endpt end);
                   ArgInt (sockfd endpt);
                   ArgStr (list_byte_of_string (show_state (state endpt)));
                   ArgInt (msgix endpt); ArgInt (sntix endpt); ArgInt (rspix endpt);
                   ArgInt (pndix endpt)]
                :: lines ++ evs)
      | _, _ => None
      end
  end.

Definition show_servers (srv : list tServerStc) : list event :=
  flat_map
    (fun connection =>
       if srv_valid connection
       then [EvLog PRINT_QUERY "  client port %d, pid %d"
               [ArgInt (srv_port connection); ArgInt (srv_pid connection)]]
       else [])
    srv.

Definition show_all_connections (unset : tConnectStc -> Z) (w : world)
  : option (list event) :=
  match show_connections unset (first_conn_req w) with
  | Some lines =>
      Some (EvLog PRINT_QUERY "client connections:" [] :: lines
            ++ EvLog PRINT_QUERY "server connections:" [] :: show_servers (first_conn_srv w))
  | None => None
  end.

(** The variables of [main] that its commands work on, and the globals
    [print_flag] and [transport_type].  [current_endpt] is [None] for NULL. *)
Record main_state := {
  current_endpt : option Z;
  testcount : Z;
  recv_delay : Z;
  print_flag : Z;
  transport_type : Z;
  running : bool
}.

Definition set_current_endpt (m : main_state) (p : option Z) : main_state :=
  {| current_endpt := p; testcount := testcount m; recv_delay := recv_delay m;
     print_flag := print_flag m; transport_type := transport_type m;
     running := running m |}.

Definition set_testcount (m : main_state) (n : Z) : main_state :=
  {| current_endpt := current_endpt m; testcount := n; recv_delay := recv_delay m;
     print_flag := print_flag m; transport_type := transport_type m;
     running := running m |}.

(** How a section of the loop of [main] ends. *)
Inductive section_outcome :=
| Done (m : main_state) (w : world)
| SectionUndefined (w : world)             (* an entry that is freed or NULL is read,
                                             or an array is overrun *)
| Package (value : Z) (m : main_state) (w : world).
                                           (* ACTION_HOHOHO: the call of
                                             secret_package_selection, which this
                                             embedding does not cover *)

Definition no_connection : event :=
  EvLog PRINT_ERROR
    "No active connection specified. Either create or select a connection to use" [].

(** The [switch (command)] of [main]. *)
Definition handle_command (os : add_calls) (entry_ok buffer_ok : bool)
    (unset : tConnectStc -> Z) (m : main_state) (w : world)
    (command value : Z) (buffer : list byte) : section_outcome :=
  if command =? ACTION_QUIT then
    Done {| current_endpt := current_endpt m; testcount := testcount m;
            recv_delay := recv_delay m; print_flag := print_flag m;
            transport_type := transport_type m; running := false |}
      (emit w [EvLog PRINT_QUERY "endpoint exiting..." []])
  else if command =? ACTION_SEND_MESSAGE then
    match action_send_message entry_ok buffer_ok w (current_endpt m) (c_string buffer) with
    | Returns _ w' => Done m w'
    | Removed _ w' => Done m w'
    | Undefined w' => SectionUndefined w'
    end
  else if command =? ACTION_ADD_ENDPOINT then
    let '(connection, w') := add_connection os w value in
    Done (set_current_endpt m (option_map destport connection)) w'
  else if command =? ACTION_REM_ENDPOINT then
    let w' := rem_connection w value in
    match current_endpt m with
    | None => Done m w'
    | Some p =>
        match find_connection (first_conn_req w') p with
        | Some endpt =>
            if destport endpt =? value then Done (set_current_endpt m None) w'
            else Done m w'
        | None => SectionUndefined w'
        end
    end
  else if command =? ACTION_SEL_ENDPOINT then
    match find_connection (first_conn_req w) value with
    | Some endpt => Done (set_current_endpt m (Some (destport endpt))) w
    | None =>
        Done (set_current_endpt m None)
          (emit w [EvLog PRINT_ERROR "connection to port %u not found" [ArgInt value]])
    end
  else if command =? ACTION_DELAY then
    Done {| current_endpt := current_endpt m; testcount := testcount m;
            recv_delay := 1; print_flag := print_flag m;
            transport_type := transport_type m; running := running m |} w
  else if command =? ACTION_TEST then
    match current_endpt m with
    | None => Done m (emit w [no_connection])
    | Some p =>
        match find_connection (first_conn_req w) p with
        | None => SectionUndefined w
        | Some endpt =>
            if state endpt =? STATE_IDLE then Done m (emit w [no_connection])
            else
              let t1 := if 99999 <? value then 99999 else value in
              let t2 := if t1 <? 0 then 0 else t1 in
              Done (set_testcount m t2) w
        end
    end
  else if command =? ACTION_SET_PRINT_FLAG then
    Done {| current_endpt := current_endpt m; testcount := testcount m;
            recv_delay := recv_delay m; print_flag := value;
            transport_type := transport_type m; running := running m |} w
  else if command =? ACTION_SHOW_CONNECTIONS then
    match show_all_connections unset w with
    | Some lines => Done m (emit w lines)
    | None => SectionUndefined w
    end
  else if command =? ACTION_TRANSPORT then
    Done {| current_endpt := current_endpt m; testcount := testcount m;
            recv_delay := recv_delay m; print_flag := print_flag m;
            transport_type := if value =? 0 then SHIP_UPS else SHIP_REINDEER;
            running := running m |} w
  else if command =? ACTION_HOHOHO then Package value m w
  else Done m (emit w [EvLog PRINT_ERROR "Unknown command received: %d" [ArgInt command]]).

(** The section of [main] for a readable keyboard: the outcome and what is
    left of the input. *)
Definition keyboard_section (os : add_calls) (entry_ok buffer_ok : bool)
    (unset : tConnectStc -> Z) (m : main_state) (w : world) (input : list byte)
  : section_outcome * list byte :=
  let m0 := set_testcount m 0 in
  match userio_get_command (Some 0)
          (Some (repeat Byte.x00 (Z.to_nat (MAX_MESSAGE_LEN + 1))))
          (MAX_MESSAGE_LEN + 1) input with
  | Some {| cmd := command; cmd_value := Some value; cmd_buffer := Some buffer;
            cmd_input := rest; cmd_log := evs |} =>
      (handle_command os entry_ok buffer_ok unset m0 (emit w evs) command value buffer,
       rest)
  | _ => (SectionUndefined w, input)
  end.

(** The digits of [n], most significant first. *)
Fixpoint decimal (fuel : nat) (n : Z) (acc : list byte) : list byte :=
  match fuel with
  | O => acc
  | S fuel' =>
      let acc' := nth (Z.to_nat (n mod 10))
                    [Byte.x30; Byte.x31; Byte.x32; Byte.x33; Byte.x34;
                     Byte.x35; Byte.x36; Byte.x37; Byte.x38; Byte.x39] Byte.x30
                  :: acc in
      if n / 10 =? 0 then acc' else decimal fuel' (n / 10) acc'
  end.

(** What [sprintf] writes for the conversion [%5.5d] of an [int]: at least
    five digits, a minus sign for a negative number, at least five
    characters. *)
Definition sprintf_5_5d (v : Z) : list byte :=
  let digits := decimal 10 (Z.abs v) [] in
  let padded := repeat Byte.x30 (5 - length digits) ++ digits in
  let text := if v <? 0 then Byte.x2d :: padded else padded in
  repeat Byte.x20 (5 - length text) ++ text.

(** The string that the test mode puts into [tempbuf]. *)
Definition test_message (count : Z) : list byte :=
  sprintf_5_5d count
  ++ list_byte_of_string
       ": This is a test message to determine if the send process gets blocked. 01234567890123456789...".

Definition sizeof_tempbuf : Z := 101.

(** The section [if (testcount)] of [main]. *)
Definition test_section (entry_ok buffer_ok : bool) (m : main_state) (w : world)
  : section_outcome :=
  if testcount m =? 0 then Done m w
  else
    let tempbuf := test_message (testcount m) in
    if sizeof_tempbuf <? Z.of_nat (length tempbuf) + 1 then SectionUndefined w
    else
      match current_endpt m with
      | None => SectionUndefined w
      | Some p =>
          match find_connection (first_conn_req w) p with
          | None => SectionUndefined w
          | Some _ =>
              let m' := set_testcount m (wrap_int (testcount m - 1)) in
              match send_message entry_ok buffer_ok (produce w p) p (Some tempbuf) with
              | Returns _ w' => Done m' w'
              | Removed _ w' => Done m' w'
              | Undefined w' => SectionUndefined w'
              end
          end
      end.

End Main.

(** ** Notions used in the statements *)







(** The frames the worker puts on the wire for the entries of [q] when its
    count of messages sent is [count]. *)
Fixpoint echoed_frames (count : Z) (q : list tBufferStc) : list byte :=
  match q with
  | [] => []
  | e :: q' =>
      match b_buffer e with
      | Some b =>
          Netio.frame b (wrap_int (count + 1)) ++ echoed_frames (wrap_int (count + 1)) q'
      | None => echoed_frames count q'
      end
  end.

(** The queue after [add_message] for each of [msgs] (index and message) in
    turn, every allocation succeeding. *)
Definition enqueue_all (q : list tBufferStc) (msgs : list (Z * list byte))
  : list tBufferStc :=
  fold_left
    (fun q m => snd (fst (Queue.add_message true true q (fst m) (Some (snd m)))))
    msgs q.

(** The queue after [k] calls of [rem_message]. *)
Definition dequeue (k : nat) (q : list tBufferStc) : list tBufferStc :=
  Nat.iter k (fun q => fst (Queue.rem_message q)) q.



Definition section_world (o : Main.section_outcome) : world :=
  match o with
  | Main.Done _ w => w
  | Main.SectionUndefined w => w
  | Main.Package _ _ w => w
  end.

(** The record of a call of [tcp_send_message]. *)
Definition is_send (e : event) : bool :=
  match e with EvSend _ _ _ _ _ => true | _ => false end.

(** [quiet w w']: from [w] to [w'] nothing was sent and no socket changed. *)
Definition quiet (w w' : world) : Prop :=
  sockets w' = sockets w /\ filter is_send (trace w') = filter is_send (trace w).

(** A [close], or the [free] of a block that was never linked. *)
Definition is_release (e : event) : bool :=
  match e with EvClose _ | EvFreeUnlinked => true | _ => false end.

Definition is_close (e : event) : bool :=
  match e with EvClose _ => true | _ => false end.

(** [current_endpt] is NULL or points to an entry that is linked. *)
Definition selected_linked (m : Main.main_state) (w : world) : Prop :=
  match Main.current_endpt m with
  | Some p => Registry.find_connection (first_conn_req w) p <> None
  | None => True
  end.

(** The lines that the worker logs where it leaves its loop. *)
Definition exit_causes : list string :=
  ["select: %s"; "socket recvmsg (port %u) pid %d terminated connection";
   "socket recvmsg (port %u): %s"; "memory allocation for message";
   "memory allocation for send queue"; "socket sendmsg (port %u): %s"]%string.

Definition logs_cause (e : event) : bool :=
  match e with
  | EvLog category fmt _ => existsb (String.eqb fmt) exit_causes
  | _ => false
  end.

(** From [ch] to [ch'] the worker closed nothing, and it stopped only after
    logging why. *)
Definition worker_goes_on (ch ch' : Worker.child) : Prop :=
  exists evs,
    Worker.ctrace ch' = Worker.ctrace ch ++ evs /\
    filter is_close evs = [] /\
    (Worker.running ch' = false ->
     Worker.running ch = false \/ existsb logs_cause evs = true).

(** ** Sample data *)

Definition msg_A : list byte := [Byte.x41].

Definition full_write_9 : socket :=
  {| inbound := []; outbound := [{| send_ret := 9; send_errno := 0 |}]; wire := [] |}.

(** The frame of [msg_A] with index 1, cut after the fourth byte. *)
Definition frame_A_head : recv_event := Data Byte.x01 [Byte.x00; Byte.x00; Byte.x00].
Definition frame_A_tail : recv_event :=
  Data Byte.x01 [Byte.x00; Byte.x00; Byte.x00; Byte.x41].

(** A header declaring 9 bytes for a buffer of 4, then six more bytes. *)
Definition oversize_stream : list recv_event :=
  [Data Byte.x09 [Byte.x00; Byte.x00; Byte.x00; Byte.x07; Byte.x00; Byte.x00; Byte.x00;
                  Byte.x41];
   Data Byte.x42 [Byte.x43; Byte.x44; Byte.x45; Byte.x46]].

Definition entry_null : tBufferStc :=
  {| b_msgix := 1; b_msglen := None; b_buffer := None |}.
Definition entry_B : tBufferStc :=
  {| b_msgix := 2; b_msglen := None; b_buffer := Some [Byte.x42] |}.

Definition entry_A : tBufferStc :=
  {| b_msgix := 1; b_msglen := None; b_buffer := Some msg_A |}.

Definition idle_socket : socket := {| inbound := []; outbound := []; wire := [] |}.

Definition conn_9001 : tConnectStc :=
  {| sockfd := 5; destport := 9001; sendport := Some 40000; state := STATE_READY;
     msgix := 2; sntix := 0; rspix := 0; pndix := 0; queue := [entry_A] |}.

Definition conn_9002 : tConnectStc :=
  {| sockfd := 6; destport := 9002; sendport := None; state := STATE_PENDING;
     msgix := 0; sntix := 0; rspix := 0; pndix := 0; queue := [] |}.

(** Two connections; [out] scripts the sends on the socket of the first. *)
Definition world_two (out : list sendmsg_result) : world :=
  {| first_conn_req := [conn_9001; conn_9002]; first_conn_srv := [];
     sockets := fun fd => if fd =? 5
                          then {| inbound := []; outbound := out; wire := [] |}
                          else idle_socket;
     trace := [] |}.

Definition world_empty : world :=
  {| first_conn_req := []; first_conn_srv := []; sockets := fun _ => idle_socket;
     trace := [] |}.

(** System calls that all succeed, with a connect that is in progress. *)
Definition calls_ok : Registry.add_calls :=
  {| Registry.malloc_ok := true;
     Registry.create :=
       {| Registry.r_socket := 7; Registry.r_bind := 0; Registry.r_fcntl := 0;
          Registry.r_getsockopt_rcv := 0; Registry.r_getsockopt_snd := 0;
          Registry.r_listen := 0; Registry.rcv_bufsize := 4096;
          Registry.snd_bufsize := 4096; Registry.create_errno := 0 |};
     Registry.connect_ret := -1; Registry.connect_errno := EINPROGRESS |}.

Definition msg_B : list byte := [Byte.x42].

(** A worker with two messages queued whose socket first reports a full send
    buffer and then takes a whole frame. *)
Definition child_two : Worker.child :=
  {| Worker.firstmsg := [entry_A; entry_B];
     Worker.sock :=
       {| inbound := [];
          outbound := [{| send_ret := -1; send_errno := EWOULDBLOCK |};
                       {| send_ret := 9; send_errno := 0 |}];
          wire := [] |};
     Worker.send_count := 0; Worker.recv_count := 2; Worker.running := true;
     Worker.ctrace := [] |}.





(** A worker with two messages queued whose socket takes both frames. *)
Definition child_ready : Worker.child :=
  {| Worker.firstmsg := [entry_A; entry_B];
     Worker.sock :=
       {| inbound := [];
          outbound := [{| send_ret := 9; send_errno := 0 |};
                       {| send_ret := 9; send_errno := 0 |}];
          wire := [] |};
     Worker.send_count := 0; Worker.recv_count := 2; Worker.running := true;
     Worker.ctrace := [] |}.

(** A worker that finds the frame of [msg_A] on its socket. *)
Definition child_listening : Worker.child :=
  {| Worker.firstmsg := [];
     Worker.sock :=
       {| inbound := [frame_A_head; frame_A_tail];
          outbound := [{| send_ret := 9; send_errno := 0 |}];
          wire := [] |};
     Worker.send_count := 0; Worker.recv_count := 0; Worker.running := true;
     Worker.ctrace := [] |}.

Definition round_ready : Worker.round_calls :=
  {| Worker.select_ret := 1; Worker.select_readable := true;
     Worker.response_malloc := true; Worker.qentry_malloc := true |}.

(** A connection that is ready with nothing queued; [out] scripts the sends
    on its socket and [arrived] what it finds there. *)
Definition conn_idle : tConnectStc :=
  {| sockfd := 5; destport := 9001; sendport := Some 40000; state := STATE_READY;
     msgix := 1; sntix := 0; rspix := 0; pndix := 0; queue := [] |}.

Definition world_idle (arrived : list recv_event) (out : list sendmsg_result) : world :=
  {| first_conn_req := [conn_idle]; first_conn_srv := [];
     sockets := fun fd => if fd =? 5
                          then {| inbound := arrived; outbound := out; wire := [] |}
                          else idle_socket;
     trace := [] |}.

(** The variables of [main] when its loop starts, and with the connection
    to port 9001 selected and [count] test messages to go. *)
Definition main_start : Main.main_state :=
  {| Main.current_endpt := None; Main.testcount := 0; Main.recv_delay := 0;
     Main.print_flag := Userio.PRINT_ALL; Main.transport_type := Main.SHIP_REINDEER;
     Main.running := true |}.

Definition main_selected (count : Z) : Main.main_state :=
  {| Main.current_endpt := Some 9001; Main.testcount := count; Main.recv_delay := 0;
     Main.print_flag := Userio.PRINT_ALL; Main.transport_type := Main.SHIP_REINDEER;
     Main.running := true |}.

(** The lines [#+9001] and [#-9001]. *)
Definition line_add_9001 : list byte :=
  [Byte.x23; Byte.x2b; Byte.x39; Byte.x30; Byte.x30; Byte.x31; Byte.x0a].
Definition line_rem_9001 : list byte :=
  [Byte.x23; Byte.x2d; Byte.x39; Byte.x30; Byte.x30; Byte.x31; Byte.x0a].

(** The socket of a worker whose client sends [msg_A] and then closes. *)
Definition closing_socket : socket :=
  {| inbound := [frame_A_head; frame_A_tail; Eof];
     outbound := [{| send_ret := 9; send_errno := 0 |}]; wire := [] |}.

(** * Properties *)

(** ** Integer conversions and header images *)

Section Conversions.

Lemma wrap_int_small z : - 2 ^ 31 <= z < 2 ^ 31 -> wrap_int z = z.
Proof.
  intros H. unfold wrap_int.
  rewrite Z.mod_small by lia. lia.
Qed.

Lemma wrap_int_range z : - 2 ^ 31 <= wrap_int z < 2 ^ 31.
Proof.
  unfold wrap_int.
  pose proof (Z.mod_pos_bound (z + 2 ^ 31) (2 ^ 32) ltac:(lia)). lia.
Qed.

Lemma to_size_t_small z : 0 <= z < 2 ^ 64 -> to_size_t z = z.
Proof. intros H. unfold to_size_t. apply Z.mod_small. exact H. Qed.

Lemma length_int_bytes z : length (int_bytes z) = 4%nat.
Proof. apply length_le_split. Qed.

Lemma bytes_int_int_bytes z : - 2 ^ 31 <= z < 2 ^ 31 -> bytes_int (int_bytes z) = z.
Proof.
  intros H. unfold bytes_int, int_bytes.
  rewrite le_combine_split. change (Z.of_nat 4 * 8) with 32.
  unfold wrap_int.
  rewrite Z.add_mod_idemp_l by lia.
  rewrite Z.mod_small by lia. lia.
Qed.

Lemma firstn_app_exact {A} (l1 l2 : list A) n :
  length l1 = n -> firstn n (l1 ++ l2) = l1.
Proof.
  intros <-. rewrite firstn_app, Nat.sub_diag, firstn_all. simpl.
  apply app_nil_r.
Qed.

Lemma skipn_app_exact {A} (l1 l2 : list A) n :
  length l1 = n -> skipn n (l1 ++ l2) = l2.
Proof.
  intros <-. rewrite skipn_app, Nat.sub_diag, skipn_all. reflexivity.
Qed.

Lemma length_header_bytes h : length (header_bytes h) = 8%nat.
Proof. unfold header_bytes. rewrite length_app, !length_int_bytes. reflexivity. Qed.

Lemma header_msglen_header_bytes h tl :
  - 2 ^ 31 <= h_msglen h < 2 ^ 31 ->
  header_msglen (header_bytes h ++ tl) = h_msglen h.
Proof.
  intros H. unfold header_msglen, header_bytes.
  rewrite <- !app_assoc.
  rewrite firstn_app_exact by apply length_int_bytes.
  apply bytes_int_int_bytes, H.
Qed.

Lemma header_msgix_header_bytes h tl :
  - 2 ^ 31 <= h_msgix h < 2 ^ 31 ->
  header_msgix (header_bytes h ++ tl) = h_msgix h.
Proof.
  intros H. unfold header_msgix, header_bytes.
  rewrite <- !app_assoc.
  rewrite skipn_app_exact by apply length_int_bytes.
  rewrite firstn_app_exact by apply length_int_bytes.
  apply bytes_int_int_bytes, H.
Qed.

Lemma header_msglen_set mem v :
  - 2 ^ 31 <= v < 2 ^ 31 -> header_msglen (set_header_msglen mem v) = v.
Proof.
  intros H. unfold header_msglen, set_header_msglen.
  rewrite firstn_app_exact by apply length_int_bytes.
  apply bytes_int_int_bytes, H.
Qed.

End Conversions.

(** ** The socket model *)

Section SocketModel.

Import Netio.

Lemma skipn_nil_length {A} n (l : list A) : skipn n l = [] -> (length l <= n)%nat.
Proof.
  intros H. pose proof (length_skipn n l) as L. rewrite H in L. simpl in L. lia.
Qed.

Lemma skipn_cons_length {A} n (l : list A) r rs :
  skipn n l = r :: rs -> (n < length l)%nat /\ length (r :: rs) = (length l - n)%nat.
Proof.
  intros H. pose proof (length_skipn n l) as L. rewrite H in L. simpl in *. lia.
Qed.

Lemma arrives_0 s : arrives s 0 = Some ([], s).
Proof. destruct s; reflexivity. Qed.

(** One [recvmsg] asking for no more than what is arriving takes a non-empty
    prefix of it and leaves the rest arriving. *)
Lemma recvmsg_arrives s k bytes s' len :
  arrives s k = Some (bytes, s') ->
  (0 < len <= k)%nat -> Z.of_nat len <= SSIZE_MAX ->
  exists n s1,
    recvmsg s (Z.of_nat len) = (Z.of_nat n, 0, firstn n bytes, s1) /\
    (0 < n <= len)%nat /\
    arrives s1 (k - n) = Some (skipn n bytes, s').
Proof.
  intros Ha Hlen Hmax.
  destruct k as [|k0]; [lia|].
  destruct s as [|[b bs| |e] rest]; cbn [arrives] in Ha; try discriminate.
  remember (S k0) as k eqn:Hk.
  unfold recvmsg.
  destruct (SSIZE_MAX <? Z.of_nat len) eqn:Hs; [apply Z.ltb_lt in Hs; lia|].
  rewrite Nat2Z.id.
  assert (Hpos : (0 < length (b :: bs))%nat) by (simpl; lia).
  remember (b :: bs) as chunk eqn:Hc. clear Hc b bs.
  destruct (skipn len chunk) as [|r rs] eqn:E1.
  - apply skipn_nil_length in E1.
    rewrite skipn_all2 in Ha by lia.
    destruct (arrives rest (k - length chunk)) as [[rb s'']|] eqn:E3; [|discriminate].
    injection Ha as <- <-.
    exists (length chunk), rest. split; [|split].
    + rewrite firstn_app_exact by reflexivity. reflexivity.
    + simpl in *. lia.
    + rewrite skipn_app_exact by reflexivity. exact E3.
  - pose proof (skipn_cons_length _ _ _ _ E1) as [L1 L2].
    exists len, (Data r rs :: rest). split; [|split]; try lia.
    + f_equal. f_equal.
      destruct (skipn k chunk) as [|r2 rs2] eqn:E2.
      * destruct (arrives rest (k - length chunk)) as [[rb s'']|]; [|discriminate].
        injection Ha as <- <-.
        rewrite firstn_app. replace (len - length chunk)%nat with 0%nat by lia.
        simpl firstn at 2. now rewrite app_nil_r.
      * injection Ha as <- <-.
        rewrite firstn_firstn. now replace (Nat.min len k) with len by lia.
    + destruct (skipn k chunk) as [|r2 rs2] eqn:E2.
      * apply skipn_nil_length in E2.
        destruct (arrives rest (k - length chunk)) as [[rb s'']|] eqn:E3; [|discriminate].
        injection Ha as <- <-.
        destruct (k - len)%nat as [|d] eqn:Hd; [lia|]. rewrite <- Hd.
        rewrite Hd at 1. cbn [arrives]. rewrite <- Hd.
        replace (skipn (k - len) (r :: rs)) with (@nil byte).
        2:{ rewrite <- E1, skipn_skipn. symmetry. apply skipn_all2. lia. }
        replace (k - len - length (r :: rs))%nat with (k - length chunk)%nat by lia.
        rewrite E3. f_equal. f_equal.
        rewrite skipn_app. replace (len - length chunk)%nat with 0%nat by lia.
        rewrite E1. reflexivity.
      * pose proof (skipn_cons_length _ _ _ _ E2) as [L3 L4].
        injection Ha as <- <-.
        destruct (k - len)%nat as [|d] eqn:Hd.
        -- assert (k = len) by lia. subst len. simpl.
           rewrite E1 in E2. injection E2 as <- <-.
           f_equal. f_equal. symmetry. apply skipn_all2. rewrite length_firstn. lia.
        -- rewrite <- Hd. rewrite Hd at 1. cbn [arrives]. rewrite <- Hd.
           replace (skipn (k - len) (r :: rs)) with (r2 :: rs2).
           2:{ rewrite <- E1, skipn_skipn, <- E2. f_equal. lia. }
           f_equal. f_equal. rewrite <- E1.
           rewrite skipn_firstn_comm. reflexivity.
Qed.

(** The same when what arrives ends in a failed read: the chunks end where
    the bytes end, so a longer request takes no more. *)
Lemma recvmsg_arrives_then_fail s k bytes e s' len :
  arrives s k = Some (bytes, Fail e :: s') ->
  (0 < k <= len)%nat -> Z.of_nat len <= SSIZE_MAX ->
  exists n s1,
    recvmsg s (Z.of_nat len) = (Z.of_nat n, 0, firstn n bytes, s1) /\
    (0 < n <= k)%nat /\
    arrives s1 (k - n) = Some (skipn n bytes, Fail e :: s').
Proof.
  intros Ha Hlen Hmax.
  destruct (recvmsg_arrives s k bytes (Fail e :: s') k Ha ltac:(lia) ltac:(lia))
    as (n & s1 & Hrecv & Hn & Harr).
  exists n, s1. split; [|auto].
  destruct k as [|k0]; [lia|].
  destruct s as [|[b bs| |e0] rest]; cbn [arrives] in Ha; try discriminate.
  remember (S k0) as k eqn:Hk.
  revert Hrecv. unfold recvmsg.
  destruct (SSIZE_MAX <? Z.of_nat k) eqn:E1; [apply Z.ltb_lt in E1; lia|].
  destruct (SSIZE_MAX <? Z.of_nat len) eqn:E2; [apply Z.ltb_lt in E2; lia|].
  rewrite !Nat2Z.id.
  destruct (skipn k (b :: bs)) as [|r rs] eqn:E3; [|discriminate Ha].
  apply skipn_nil_length in E3.
  rewrite (skipn_all2 (n := len)) by lia. auto.
Qed.

End SocketModel.

(** ** The receive loop *)

Section ReceiveLoop.

Import Netio.

Lemma recvmsg_measure s len ret e data s1 :
  recvmsg s len = (ret, e, data, s1) -> 0 < ret ->
  (sock_measure s1 < sock_measure s)%nat.
Proof.
  unfold recvmsg. intros H Hret.
  destruct (SSIZE_MAX <? len); [injection H as <- _ _ _; lia|].
  destruct s as [|[b bs| |err] rest]; try (injection H as <- _ _ _; lia).
  destruct (skipn (Z.to_nat len) (b :: bs)) as [|r rs] eqn:E.
  - injection H as _ _ _ <-. simpl. lia.
  - injection H as <- _ _ <-.
    apply skipn_cons_length in E. cbn [sock_measure length] in *. lia.
Qed.

Lemma firstn_plus {A} (k n : nat) (l : list A) :
  firstn (k + n) l = firstn k l ++ firstn n (skipn k l).
Proof.
  revert l. induction k as [|k IH]; intros l; [reflexivity|].
  destruct l as [|a l]; simpl.
  - now rewrite firstn_nil.
  - now rewrite IH.
Qed.

(** Storing the next [n] bytes of [body] behind the [k] already stored. *)
Lemma write_at_next (k n : nat) (body buf : list byte) :
  (k + n <= length body)%nat ->
  write_at (Z.of_nat k) (firstn n (skipn k body)) (firstn k body ++ skipn k buf)
  = firstn (k + n) body ++ skipn (k + n) buf.
Proof.
  intros Hk. unfold write_at. rewrite Nat2Z.id.
  assert (Hl : length (firstn k body) = k) by (rewrite length_firstn; lia).
  rewrite (firstn_app_exact _ _ k Hl).
  rewrite length_firstn, length_skipn.
  replace (Nat.min n (length body - k)) with n by lia.
  rewrite skipn_app, Hl.
  rewrite (skipn_all2 (firstn k body)) by lia.
  replace (k + n - k)%nat with n by lia.
  rewrite skipn_skipn, firstn_plus, <- app_assoc. simpl.
  now replace (n + k)%nat with (k + n)%nat by lia.
Qed.

Lemma write_at_nil off mem : write_at off [] mem = mem.
Proof. unfold write_at. simpl. rewrite Nat.add_0_r. apply firstn_skipn. Qed.

Lemma length_write_at off data mem :
  0 <= off -> (Z.to_nat off + length data <= length mem)%nat ->
  length (write_at off data mem) = length mem.
Proof.
  intros Hoff H. unfold write_at.
  rewrite !length_app, length_firstn, length_skipn. lia.
Qed.

Ltac int_small :=
  repeat match goal with
    | |- context [wrap_int ?z] =>
        rewrite (wrap_int_small z) by (unfold INT_MAX, sizeof_header in *; lia)
    | |- context [to_size_t ?z] =>
        rewrite (to_size_t_small z) by (unfold INT_MAX, sizeof_header in *; lia)
    end.

Ltac flag b :=
  let E := fresh "E" in
  destruct b eqn:E;
  [ first [apply Z.ltb_lt in E | apply Z.leb_le in E | apply Z.eqb_eq in E]
  | first [apply Z.ltb_ge in E | apply Z.leb_gt in E | apply Z.eqb_neq in E] ];
  try (unfold sizeof_header, INT_MAX in *; lia).

(** The payload phase: [k] bytes of the message are in the buffer and the
    remaining ones arrive. *)
Lemma recv_loop_payload (cap : Z) (body buf : list byte) (s' : list recv_event) :
  Z.of_nat (length body) <= cap -> cap <= INT_MAX - 8 ->
  forall (fuel : nat) (k : nat) hdr log s,
    (sock_measure s < fuel)%nat ->
    (k < length body)%nat ->
    header_msglen hdr = Z.of_nat (length body) ->
    arrives s (length body - k) = Some (skipn k body, s') ->
    exists st',
      recv_loop fuel cap
        {| header := hdr; buffer := firstn k body ++ skipn k buf;
           recv_count := 8 + Z.of_nat k; iov_base := IovBuffer (Z.of_nat k);
           iov_len := Z.of_nat (length body - k); rlog := log; rsock := s |}
      = Some (RECV_COMPLETE, st') /\
      buffer st' = body ++ skipn (length body) buf /\
      rlog st' = log /\ rsock st' = s'.
Proof.
  intros Hcap Hmax. induction fuel as [|fuel IH]; intros k hdr log s Hfuel Hk Hhdr Harr; [lia|].
  destruct (recvmsg_arrives s _ _ _ (length body - k) Harr) as (n & s1 & Hrecv & Hn & Harr1);
    [lia | unfold SSIZE_MAX, INT_MAX in *; lia |].
  cbn [recv_loop rsock iov_len]. rewrite Hrecv.
  cbn [store iov_base header buffer recv_count rlog].
  rewrite write_at_next by lia.
  int_small.
  flag (Z.of_nat n =? 0). flag (Z.of_nat n <? 0).
  flag (sizeof_header <=? 8 + Z.of_nat k + Z.of_nat n).
  rewrite Hhdr.
  flag (cap <? Z.of_nat (length body)).
  rewrite Hhdr. int_small. unfold sizeof_header.
  int_small.
  flag (8 + Z.of_nat (length body) <=? 8 + Z.of_nat k + Z.of_nat n).
  - assert (Hkn : (k + n = length body)%nat) by lia.
    eexists. split; [reflexivity|]. cbn [buffer rlog rsock].
    rewrite Hkn, firstn_all. repeat split.
    replace (length body - k - n)%nat with 0%nat in Harr1 by lia.
    rewrite arrives_0 in Harr1. congruence.
  - flag (8 + Z.of_nat k + Z.of_nat n =? 8).
    replace (8 + Z.of_nat k + Z.of_nat n - 8) with (Z.of_nat (k + n)) by lia.
    replace (Z.of_nat (length body - k) - Z.of_nat n)
      with (Z.of_nat (length body - (k + n))) by lia.
    replace (8 + Z.of_nat k + Z.of_nat n) with (8 + Z.of_nat (k + n)) by lia.
    apply IH.
    + apply recvmsg_measure in Hrecv; lia.
    + lia.
    + exact Hhdr.
    + rewrite skipn_skipn in Harr1.
      replace (length body - (k + n))%nat with (length body - k - n)%nat by lia.
      now replace (k + n)%nat with (n + k)%nat by lia.
Qed.

(** The header phase: [c] bytes of the header image are in place and the rest
    of the header and the (clamped) message arrive. *)
Lemma recv_loop_header (cap : Z) (h : MessageHeaderStc) (body buf : list byte)
    (s' : list recv_event) :
  0 <= cap <= INT_MAX - 8 ->
  - 2 ^ 31 <= h_msglen h < 2 ^ 31 -> - 2 ^ 31 <= h_msgix h < 2 ^ 31 ->
  Z.of_nat (length body) = (if cap <? h_msglen h then cap else h_msglen h) ->
  forall (fuel : nat) (c : nat) junk log s,
    (sock_measure s < fuel)%nat ->
    (c < 8)%nat -> length junk = (8 - c)%nat ->
    arrives s (8 - c + length body) = Some (skipn c (header_bytes h) ++ body, s') ->
    exists st',
      recv_loop fuel cap
        {| header := firstn c (header_bytes h) ++ junk; buffer := buf;
           recv_count := Z.of_nat c; iov_base := IovHeader (Z.of_nat c);
           iov_len := Z.of_nat (8 - c); rlog := log; rsock := s |}
      = Some (RECV_COMPLETE, st') /\
      buffer st' = body ++ skipn (length body) buf /\
      rlog st' = log ++ clamp_log cap h /\ rsock st' = s'.
Proof.
  intros Hcap Hlen Hix Hbody.
  pose proof (length_header_bytes h) as HL.
  induction fuel as [|fuel IH]; intros c junk log s Hfuel Hc Hjunk Harr; [lia|].
  destruct (recvmsg_arrives s _ _ _ (8 - c) Harr) as (n & s1 & Hrecv & Hn & Harr1);
    [lia | unfold SSIZE_MAX; lia |].
  assert (Hdata : firstn n (skipn c (header_bytes h) ++ body)
                  = firstn n (skipn c (header_bytes h))).
  { rewrite firstn_app, length_skipn, HL.
    replace (n - (8 - c))%nat with 0%nat by lia. simpl. apply app_nil_r. }
  assert (Hrest : skipn n (skipn c (header_bytes h) ++ body)
                  = skipn (c + n) (header_bytes h) ++ body).
  { rewrite skipn_app, length_skipn, HL, skipn_skipn.
    replace (n - (8 - c))%nat with 0%nat by lia.
    now replace (n + c)%nat with (c + n)%nat by lia. }
  rewrite Hdata in Hrecv. rewrite Hrest in Harr1.
  cbn [recv_loop rsock iov_len]. rewrite Hrecv.
  cbn [store iov_base header buffer recv_count rlog].
  assert (Hstore : write_at (Z.of_nat c) (firstn n (skipn c (header_bytes h)))
                     (firstn c (header_bytes h) ++ junk)
                   = firstn (c + n) (header_bytes h) ++ skipn n junk).
  { unfold write_at. rewrite Nat2Z.id.
    assert (Hl : length (firstn c (header_bytes h)) = c) by (rewrite length_firstn; lia).
    rewrite (firstn_app_exact _ _ c Hl).
    rewrite length_firstn, length_skipn, HL.
    replace (Nat.min n (8 - c)) with n by lia.
    rewrite skipn_app, Hl, (skipn_all2 (firstn c (header_bytes h))) by lia.
    replace (c + n - c)%nat with n by lia.
    rewrite firstn_plus, <- app_assoc. reflexivity. }
  rewrite Hstore. clear Hstore.
  int_small.
  flag (Z.of_nat n =? 0). flag (Z.of_nat n <? 0).
  flag (sizeof_header <=? Z.of_nat c + Z.of_nat n).
  - (* the header is complete *)
    assert (Hcn : (c + n = 8)%nat) by (unfold sizeof_header in *; lia).
    rewrite (firstn_all2 (n := (c + n)%nat) (header_bytes h)) by lia.
    replace (skipn n junk) with (@nil byte) by (symmetry; apply skipn_all2; lia).
    rewrite header_msglen_header_bytes, header_msgix_header_bytes by assumption.
    replace (8 - c + length body - n)%nat with (length body) in Harr1 by lia.
    rewrite (skipn_all2 (n := (c + n)%nat) (header_bytes h)) in Harr1 by lia.
    simpl app in Harr1.
    unfold clamp_log.
    destruct (cap <? h_msglen h) eqn:Eclamp.
    + rewrite header_msglen_set by (unfold INT_MAX in *; lia).
      int_small. unfold sizeof_header.
      flag (8 + cap <=? Z.of_nat c + Z.of_nat n).
      * assert (length body = 0%nat) by lia.
        destruct body; [|discriminate]. rewrite arrives_0 in Harr1.
        eexists. split; [reflexivity|]. cbn [buffer rlog rsock]. simpl.
        repeat split. congruence.
      * flag (Z.of_nat c + Z.of_nat n =? 8).
        destruct (recv_loop_payload cap body buf s' ltac:(lia) ltac:(lia) fuel 0%nat
                    (set_header_msglen (header_bytes h ++ []) cap)
                    (log ++ [invalid_header_log (h_msglen h) (h_msgix h)]) s1)
          as (st' & Hst' & Hbuf & Hlog & Hsock).
        -- apply recvmsg_measure in Hrecv; lia.
        -- lia.
        -- rewrite header_msglen_set by (unfold INT_MAX in *; lia). lia.
        -- rewrite Nat.sub_0_r. exact Harr1.
        -- exists st'. split; [|split; [|split]]; try assumption.
           rewrite <- Hst'. f_equal. f_equal; simpl; lia.
    + rewrite !header_msglen_header_bytes by assumption.
      apply Z.ltb_ge in Eclamp.
      destruct (Z_lt_le_dec (h_msglen h) 0) as [Hneg|Hnn]; [lia|].
      int_small. unfold sizeof_header.
      flag (8 + h_msglen h <=? Z.of_nat c + Z.of_nat n).
      * assert (length body = 0%nat) by lia.
        destruct body; [|discriminate]. rewrite arrives_0 in Harr1.
        eexists. split; [reflexivity|]. cbn [buffer rlog rsock]. simpl.
        rewrite app_nil_r. repeat split. congruence.
      * flag (Z.of_nat c + Z.of_nat n =? 8).
        destruct (recv_loop_payload cap body buf s' ltac:(lia) ltac:(lia) fuel 0%nat
                    (header_bytes h ++ []) log s1)
          as (st' & Hst' & Hbuf & Hlog & Hsock).
        -- apply recvmsg_measure in Hrecv; lia.
        -- lia.
        -- rewrite header_msglen_header_bytes by assumption. lia.
        -- rewrite Nat.sub_0_r. exact Harr1.
        -- exists st'. split; [|split; [|split]]; try assumption.
           ++ rewrite <- Hst'. f_equal. f_equal; simpl; lia.
           ++ rewrite Hlog. symmetry. apply app_nil_r.
  - (* still in the header *)
    replace (sizeof_header - (Z.of_nat c + Z.of_nat n)) with (Z.of_nat (8 - (c + n)))
      by (unfold sizeof_header in *; lia).
    replace (Z.of_nat c + Z.of_nat n) with (Z.of_nat (c + n)) by lia.
    apply IH.
    + apply recvmsg_measure in Hrecv; lia.
    + unfold sizeof_header in *; lia.
    + rewrite length_skipn. lia.
    + replace (8 - (c + n) + length body)%nat with (8 - c + length body - n)%nat
        by (unfold sizeof_header in *; lia).
      exact Harr1.
Qed.

(** What one [recvmsg] can return. *)
Lemma recvmsg_cases s len ret e data s1 :
  recvmsg s len = (ret, e, data, s1) -> 0 <= len <= SSIZE_MAX ->
  (ret = -1 /\ data = []) \/ (ret = 0 /\ data = []) \/
  (0 < ret <= len /\ Z.of_nat (length data) = ret /\
   (sock_measure s1 < sock_measure s)%nat).
Proof.
  intros H Hlen.
  assert (Hm : 0 < ret -> (sock_measure s1 < sock_measure s)%nat)
    by (apply (recvmsg_measure _ _ _ _ _ _ H)).
  revert H. unfold recvmsg.
  destruct (SSIZE_MAX <? len); [intros [= <- _ <- _]; auto|].
  destruct s as [|[b bs| |err] rest]; try (intros [= <- _ <- _]; auto).
  assert (Hpos : (0 < length (b :: bs))%nat) by (simpl; lia).
  remember (b :: bs) as chunk eqn:Hc.
  destruct (skipn (Z.to_nat len) chunk) as [|r rs] eqn:E; intros [= <- _ <- _].
  - apply skipn_nil_length in E. right. right.
    split; [lia|]. split; [reflexivity|]. apply Hm. lia.
  - apply skipn_cons_length in E as [E _].
    destruct (Z.eq_dec len 0) as [->|Hne].
    + right. left. auto.
    + right. right. rewrite length_firstn.
      split; [lia|]. split; [lia|]. apply Hm. lia.
Qed.

(** The payload phase never stores past the buffer, whatever arrives. *)
Lemma recv_loop_payload_safe (cap M : Z) :
  M <= cap -> cap <= INT_MAX - 8 ->
  forall (fuel : nat) (k : Z) hdr buf log s,
    (sock_measure s < fuel)%nat ->
    0 <= k < M ->
    header_msglen hdr = M ->
    Z.of_nat (length buf) = cap ->
    exists r st',
      recv_loop fuel cap
        {| header := hdr; buffer := buf; recv_count := 8 + k;
           iov_base := IovBuffer k; iov_len := M - k; rlog := log; rsock := s |}
      = Some (r, st') /\
      length (buffer st') = length buf /\ rlog st' = log.
Proof.
  intros HM Hmax. induction fuel as [|fuel IH]; intros k hdr buf log s Hfuel Hk Hhdr Hbuf; [lia|].
  cbn [recv_loop rsock iov_len].
  destruct (recvmsg s (M - k)) as [[[ret e] data] s1] eqn:Hrecv.
  cbn [store iov_base header buffer recv_count rlog].
  destruct (recvmsg_cases _ _ _ _ _ _ Hrecv) as [[-> ->]|[[-> ->]|(Hret & Hdata & Hm)]];
    [unfold SSIZE_MAX, INT_MAX in *; lia | | |].
  - rewrite write_at_nil. change (wrap_int (-1)) with (-1). simpl.
    destruct (e =? EWOULDBLOCK); eexists _, _; (split; [reflexivity|]); auto.
  - rewrite write_at_nil. change (wrap_int 0) with 0. simpl.
    eexists _, _; (split; [reflexivity|]); auto.
  - assert (Hw : length (write_at k data buf) = length buf)
      by (apply length_write_at; lia).
    int_small.
    flag (ret =? 0). flag (ret <? 0). flag (sizeof_header <=? 8 + k + ret).
    rewrite Hhdr. flag (cap <? M). rewrite Hhdr. int_small. unfold sizeof_header.
    flag (8 + M <=? 8 + k + ret).
    + eexists _, _; (split; [reflexivity|]); auto.
    + flag (8 + k + ret =? 8).
      replace (8 + k + ret - 8) with (k + ret) by lia.
      replace (M - k - ret) with (M - (k + ret)) by lia.
      replace (8 + k + ret) with (8 + (k + ret)) by lia.
      destruct (IH (k + ret) hdr (write_at k data buf) log s1) as (r & st' & Heq & Hl & Hlog);
        try lia; try assumption.
      exists r, st'. split; [exact Heq|]. split; [congruence|assumption].
Qed.


(** Part of the header arrives and then the socket would block: the call
    returns [RECV_BLOCKED]; the bytes are taken from the socket, and nothing
    of them is in what the call gives back. *)
Lemma recv_loop_header_blocked (cap : Z) (buf : list byte) (s' : list recv_event) :
  forall (fuel : nat) (c k : nat) bytes hdr log s,
    (sock_measure s < fuel)%nat ->
    (c + k < 8)%nat -> length hdr = 8%nat ->
    arrives s k = Some (bytes, Fail EWOULDBLOCK :: s') ->
    exists st',
      recv_loop fuel cap
        {| header := hdr; buffer := buf;
           recv_count := Z.of_nat c; iov_base := IovHeader (Z.of_nat c);
           iov_len := Z.of_nat (8 - c); rlog := log; rsock := s |}
      = Some (RECV_BLOCKED, st') /\
      buffer st' = buf /\ rlog st' = log /\ rsock st' = s'.
Proof.
  induction fuel as [|fuel IH]; intros c k bytes hdr log s Hfuel Hck Hhdr Harr; [lia|].
  destruct k as [|k0].
  - rewrite arrives_0 in Harr. injection Harr as _ ->.
    assert (Hrecv : recvmsg (Fail EWOULDBLOCK :: s') (Z.of_nat (8 - c))
                    = (-1, EWOULDBLOCK, [], s')).
    { unfold recvmsg.
      destruct (SSIZE_MAX <? Z.of_nat (8 - c)) eqn:E; [|reflexivity].
      apply Z.ltb_lt in E. unfold SSIZE_MAX in E. lia. }
    cbn [recv_loop rsock iov_len]. rewrite Hrecv.
    cbn [store iov_base header buffer recv_count rlog]. rewrite write_at_nil.
    change (wrap_int (-1)) with (-1). cbn [Z.eqb Z.ltb Z.compare].
    change (EWOULDBLOCK =? EWOULDBLOCK) with true. cbv iota.
    eexists. split; [reflexivity|]. auto.
  - remember (S k0) as k eqn:Hk.
    destruct (recvmsg_arrives_then_fail s k bytes EWOULDBLOCK s' (8 - c) Harr)
      as (n & s1 & Hrecv & Hn & Harr1); [lia | unfold SSIZE_MAX; lia |].
    cbn [recv_loop rsock iov_len]. rewrite Hrecv.
    cbn [store iov_base header buffer recv_count rlog].
    int_small.
    flag (Z.of_nat n =? 0). flag (Z.of_nat n <? 0).
    flag (sizeof_header <=? Z.of_nat c + Z.of_nat n).
    replace (sizeof_header - (Z.of_nat c + Z.of_nat n)) with (Z.of_nat (8 - (c + n)))
      by (unfold sizeof_header in *; lia).
    replace (Z.of_nat c + Z.of_nat n) with (Z.of_nat (c + n)) by lia.
    eapply IH; [| |  |exact Harr1].
    + apply recvmsg_measure in Hrecv; lia.
    + lia.
    + rewrite length_write_at; [exact Hhdr|lia|].
      rewrite Nat2Z.id, length_firstn. lia.
Qed.

(** The loop returns within the fuel [tcp_recv_message] gives it. *)
Lemma recv_loop_total (cap : Z) :
  forall (fuel : nat) st,
    (sock_measure (rsock st) < fuel)%nat -> recv_loop fuel cap st <> None.
Proof.
  induction fuel as [|fuel IH]; intros st Hfuel; [lia|].
  cbn [recv_loop].
  destruct (recvmsg (rsock st) (iov_len st)) as [[[ret e] data] s1] eqn:Hrecv.
  destruct (store st data) as [hdr1 buf1].
  destruct (wrap_int ret =? 0) eqn:E0; [discriminate|].
  destruct (wrap_int ret <? 0) eqn:E1; [destruct (e =? EWOULDBLOCK); discriminate|].
  assert (Hm : (sock_measure s1 < fuel)%nat).
  { assert (0 < ret); [|apply recvmsg_measure in Hrecv; lia].
    apply Z.eqb_neq in E0. apply Z.ltb_ge in E1.
    revert Hrecv E0 E1. unfold recvmsg.
    destruct (SSIZE_MAX <? iov_len st); [intros [= <- _ _ _]; cbv; intuition congruence|].
    destruct (rsock st) as [|[b bs| |err] rest];
      try (intros [= <- _ _ _]; cbv; intuition congruence).
    destruct (skipn (Z.to_nat (iov_len st)) (b :: bs));
      intros [= <- _ _ _] E0 E1.
    - simpl length. lia.
    - destruct (Z.to_nat (iov_len st)); [exfalso; apply E0; reflexivity|lia]. }
  destruct (sizeof_header <=? to_size_t (wrap_int (recv_count st + wrap_int ret))).
  - destruct (cap <? header_msglen hdr1);
      match goal with |- context [if ?b then _ else _] => destruct b end;
      try discriminate;
      match goal with |- context [if ?b then _ else _] => destruct b end;
      apply IH; exact Hm.
  - apply IH. exact Hm.
Qed.

Lemma tcp_recv_message_total s buf cap : tcp_recv_message s buf cap <> None.
Proof.
  unfold tcp_recv_message.
  destruct (recv_loop (S (sock_measure s)) cap (recv_init s buf)) as [[r st]|] eqn:E;
    [discriminate|].
  exfalso. revert E. apply recv_loop_total. simpl. lia.
Qed.

(** A call never puts anything back, and a completed frame took at least
    one byte. *)
Lemma recv_loop_measure (cap : Z) :
  forall (fuel : nat) st r st',
    recv_loop fuel cap st = Some (r, st') ->
    (sock_measure (rsock st') <= sock_measure (rsock st))%nat /\
    (r = RECV_COMPLETE -> (sock_measure (rsock st') < sock_measure (rsock st))%nat).
Proof.
  induction fuel as [|fuel IH]; intros st r st'; [discriminate|].
  cbn [recv_loop].
  destruct (recvmsg (rsock st) (iov_len st)) as [[[ret e] data] s1] eqn:Hrecv.
  destruct (store st data) as [hdr1 buf1].
  assert (Hle : (sock_measure s1 <= sock_measure (rsock st))%nat).
  { revert Hrecv. unfold recvmsg.
    destruct (SSIZE_MAX <? iov_len st); [intros [= _ _ _ <-]; lia|].
    destruct (rsock st) as [|[b bs| |err] rest]; try (intros [= _ _ _ <-]; simpl; lia).
    destruct (skipn (Z.to_nat (iov_len st)) (b :: bs)) as [|x xs] eqn:E;
      intros [= _ _ _ <-].
    - simpl. lia.
    - apply skipn_cons_length in E. cbn [sock_measure length] in *. lia. }
  destruct (wrap_int ret =? 0) eqn:E0;
    [intros [= <- <-]; cbn [rsock]; split; [exact Hle|discriminate]|].
  destruct (wrap_int ret <? 0) eqn:E1.
  { destruct (e =? EWOULDBLOCK); intros [= <- <-]; cbn [rsock];
      (split; [exact Hle|discriminate]). }
  assert (Hm : (sock_measure s1 < sock_measure (rsock st))%nat).
  { assert (0 < ret); [|apply recvmsg_measure in Hrecv; lia].
    apply Z.eqb_neq in E0. apply Z.ltb_ge in E1.
    revert Hrecv E0 E1. unfold recvmsg.
    destruct (SSIZE_MAX <? iov_len st); [intros [= <- _ _ _]; cbv; intuition congruence|].
    destruct (rsock st) as [|[b bs| |err] rest];
      try (intros [= <- _ _ _]; cbv; intuition congruence).
    destruct (skipn (Z.to_nat (iov_len st)) (b :: bs));
      intros [= <- _ _ _] E0 E1.
    - simpl length. lia.
    - destruct (Z.to_nat (iov_len st)); [exfalso; apply E0; reflexivity|lia]. }
  assert (Hrec : forall st1, rsock st1 = s1 ->
                 recv_loop fuel cap st1 = Some (r, st') ->
                 (sock_measure (rsock st') <= sock_measure (rsock st))%nat /\
                 (r = RECV_COMPLETE ->
                  (sock_measure (rsock st') < sock_measure (rsock st))%nat)).
  { intros st1 Hs1 H. apply IH in H as [H1 H2]. rewrite Hs1 in *. split; intros; lia. }
  destruct (sizeof_header <=? to_size_t (wrap_int (recv_count st + wrap_int ret))).
  - destruct (cap <? header_msglen hdr1);
      match goal with |- context [if ?b then _ else _] => destruct b end;
      try (intros [= <- <-]; cbn [rsock]; split; intros; lia);
      match goal with |- context [if ?b then _ else _] => destruct b end;
      apply Hrec; reflexivity.
  - apply Hrec. reflexivity.
Qed.

Lemma tcp_recv_message_measure s buf cap r buf' logged s' :
  tcp_recv_message s buf cap = Some (r, buf', logged, s') ->
  (sock_measure s' <= sock_measure s)%nat /\
  (r = RECV_COMPLETE -> (sock_measure s' < sock_measure s)%nat).
Proof.
  unfold tcp_recv_message.
  destruct (recv_loop _ cap (recv_init s buf)) as [[r0 st]|] eqn:E; [|discriminate].
  intros [= <- _ _ <-]. apply (recv_loop_measure _ _ _ _ _ E).
Qed.

End ReceiveLoop.

(** ** The send queue *)

Section QueueFacts.

Import Queue.

Lemma get_message_spec (q : list tBufferStc) :
  exists dropped,
    q = dropped ++ snd (fst (get_message q)) /\
    Forall (fun e => b_buffer e = None) dropped /\
    snd (get_message q) = flat_map null_buffer_events dropped /\
    fst (fst (get_message q)) = hd_error (snd (fst (get_message q))) /\
    (forall e, fst (fst (get_message q)) = Some e -> exists b, b_buffer e = Some b).
Proof.
  induction q as [|p q IH].
  - exists []. simpl. repeat split; auto. intros e H. discriminate.
  - simpl. destruct (b_buffer p) as [b|] eqn:Eb.
    + exists []. simpl. repeat split; auto.
      intros e [= <-]. eauto.
    + destruct IH as (dropped & Hq & Hall & Hev & Hhd & Hbuf).
      destruct (get_message q) as [[r q''] evs]. simpl in *.
      exists (p :: dropped). simpl. repeat split; auto.
      * now f_equal.
      * now f_equal; f_equal.
Qed.

Lemma get_message_none_iff (q : list tBufferStc) :
  fst (fst (get_message q)) = None <-> Forall (fun e => b_buffer e = None) q.
Proof.
  induction q as [|p q IH]; simpl.
  - split; auto.
  - destruct (b_buffer p) as [b|] eqn:Eb.
    + simpl. split; [discriminate|]. intros H. inversion H. congruence.
    + destruct (get_message q) as [[r q''] evs]. simpl in *.
      rewrite IH. split; [auto|]. intros H. now inversion H.
Qed.

End QueueFacts.

(** ** The registry *)

Section RegistryFacts.

Import Registry.

Lemma unlink_spec port reg c reg' :
  unlink port reg = Some (c, reg') ->
  exists before after,
    reg = before ++ c :: after /\ reg' = before ++ after /\
    destport c = port /\ Forall (fun x => destport x <> port) before.
Proof.
  revert reg'. induction reg as [|x reg IH]; intros reg'; simpl; [discriminate|].
  destruct (destport x =? port) eqn:E.
  - intros [= <- <-]. apply Z.eqb_eq in E. exists [], reg. auto.
  - destruct (unlink port reg) as [[y reg'']|]; [|discriminate].
    intros [= <- <-]. apply Z.eqb_neq in E.
    destruct (IH _ eq_refl) as (before & after & -> & -> & Hp & Hall).
    exists (x :: before), after. repeat split; auto.
Qed.

Lemma unlink_find port reg :
  match find_connection reg port with
  | Some c => exists reg', unlink port reg = Some (c, reg')
  | None => unlink port reg = None
  end.
Proof.
  unfold find_connection. induction reg as [|x reg IH]; simpl; [reflexivity|].
  destruct (destport x =? port); [eauto|].
  destruct (find _ reg) as [c|].
  - destruct IH as [reg' ->]. eauto.
  - now rewrite IH.
Qed.

Lemma find_connection_port reg port c :
  find_connection reg port = Some c -> destport c = port /\ In c reg.
Proof.
  unfold find_connection. intros H. apply find_some in H as [Hin Hp].
  apply Z.eqb_eq in Hp. auto.
Qed.

Lemma find_connection_none reg port :
  find_connection reg port = None <-> ~ In port (map destport reg).
Proof.
  unfold find_connection. split.
  - intros H Hin. apply in_map_iff in Hin as (c & Hp & Hin).
    apply (find_none _ _ H) in Hin. apply Z.eqb_neq in Hin. auto.
  - intros H. destruct (find _ reg) as [c|] eqn:E; [|reflexivity].
    apply find_some in E as [Hin Hp]. apply Z.eqb_eq in Hp.
    exfalso. apply H. apply in_map_iff. eauto.
Qed.

Lemma find_none_filter reg port :
  find_connection reg port = None ->
  filter (fun x => destport x =? port) reg = [].
Proof.
  unfold find_connection. induction reg as [|x reg IH]; simpl; [reflexivity|].
  destruct (destport x =? port); [discriminate|exact IH].
Qed.

Lemma find_update reg port f :
  (forall c, destport (f c) = destport c) ->
  find_connection (update_connection reg port f) port
  = option_map f (find_connection reg port).
Proof.
  intros Hf. unfold find_connection.
  induction reg as [|x reg IH]; simpl; [reflexivity|].
  destruct (destport x =? port) eqn:E; simpl.
  - now rewrite Hf, E.
  - now rewrite E.
Qed.

Lemma update_ports reg port f :
  (forall c, destport (f c) = destport c) ->
  map destport (update_connection reg port f) = map destport reg.
Proof.
  intros Hf. induction reg as [|x reg IH]; simpl; [reflexivity|].
  destruct (destport x =? port); simpl; [now rewrite Hf|now rewrite IH].
Qed.

(** [rem_connection] when the port has an entry. *)
Lemma rem_connection_found w port c :
  find_connection (first_conn_req w) port = Some c ->
  exists before after,
    first_conn_req w = before ++ c :: after /\
    Forall (fun x => destport x <> port) before /\
    rem_connection w port
    = emit (set_registry w (before ++ after))
        ([EvLog PRINT_OTHER "closing and removing connection to port %u" [ArgInt port]]
         ++ (if 0 <=? sockfd c then [EvClose (sockfd c)] else [])
         ++ [EvFreeConnection c]).
Proof.
  intros Hf. unfold rem_connection.
  pose proof (unlink_find port (first_conn_req w)) as H. rewrite Hf in H.
  destruct H as [reg' H]. rewrite H.
  destruct (unlink_spec _ _ _ _ H) as (before & after & Hreg & -> & Hp & Hall).
  exists before, after. rewrite Hp. auto.
Qed.

(** With one entry per port, the port is gone once its entry is unlinked. *)
Lemma find_after_removal before c after port :
  NoDup (map destport (before ++ c :: after)) -> destport c = port ->
  find_connection (before ++ after) port = None.
Proof.
  intros Hnd Hp. apply find_connection_none.
  rewrite map_app in *. simpl in Hnd. apply NoDup_remove_2 in Hnd.
  now rewrite <- Hp.
Qed.

End RegistryFacts.

(** ** The dispatcher and the registry *)

Section DispatcherFacts.

Import Queue Registry Dispatcher.

Lemma same_connection_refl c : same_connection c c.
Proof. unfold same_connection. auto. Qed.

Lemma same_connection_trans c1 c2 c3 :
  same_connection c1 c2 -> same_connection c2 c3 -> same_connection c1 c3.
Proof.
  unfold same_connection, STATE_PENDING, STATE_READY.
  intros (Hp & Hs & Hst) (Hp' & Hs' & Hst').
  repeat split; try congruence.
  destruct Hst as [Hst|[Ha Hb]], Hst' as [Hst'|[Ha' Hb']]; try (left; congruence);
    try (right; split; congruence).
Qed.

Lemma evolve_refl reg : evolve reg reg.
Proof.
  induction reg; constructor; auto using same_connection_refl.
Qed.

Lemma evolve_trans reg1 reg2 reg3 :
  evolve reg1 reg2 -> evolve reg2 reg3 -> evolve reg1 reg3.
Proof.
  intros H12. revert reg3. induction H12; intros reg3 H23.
  - exact H23.
  - inversion H23; subst.
    + constructor; eauto using same_connection_trans.
    + apply evolve_drop. auto.
  - apply evolve_drop. auto.
Qed.

Lemma touches_refl port reg : touches port reg reg.
Proof. split; [reflexivity|apply evolve_refl]. Qed.

Lemma touches_trans port reg1 reg2 reg3 :
  touches port reg1 reg2 -> touches port reg2 reg3 -> touches port reg1 reg3.
Proof.
  intros [H1 H2] [H3 H4]. split; [congruence|eauto using evolve_trans].
Qed.

Lemma evolve_In reg reg' c' :
  evolve reg reg' -> In c' reg' -> exists c, In c reg /\ same_connection c c'.
Proof.
  induction 1; intros Hin.
  - destruct Hin.
  - destruct Hin as [<-|Hin]; [exists c; simpl; auto|].
    destruct (IHevolve Hin) as (x & Hx & Hs). exists x. simpl. auto.
  - destruct (IHevolve Hin) as (x & Hx & Hs). exists x. simpl. auto.
Qed.

Lemma evolve_ports reg reg' p :
  evolve reg reg' -> In p (map destport reg') -> In p (map destport reg).
Proof.
  intros He Hin. apply in_map_iff in Hin as (c' & <- & Hin).
  destruct (evolve_In _ _ _ He Hin) as (c & Hc & Hp & _).
  rewrite Hp. now apply in_map.
Qed.

Lemma live_same c c' : same_connection c c' -> live c -> live c'.
Proof.
  unfold same_connection, live. intros (Hp & Hs & Hst) [Hl Hfd].
  split; [|lia]. destruct Hst as [->|[_ ->]]; auto.
Qed.

Lemma registry_ok_evolve reg reg' :
  evolve reg reg' -> registry_ok reg -> registry_ok reg'.
Proof.
  unfold registry_ok. induction 1; intros [Hnd Hall]; simpl in *.
  - auto.
  - inversion Hnd; subst. inversion Hall; subst.
    destruct IHevolve as [Hnd' Hall']; [auto|].
    split.
    + constructor; [|exact Hnd'].
      destruct H as (Hp & _). rewrite Hp. intros Hin.
      eauto using evolve_ports.
    + constructor; eauto using live_same.
  - inversion Hnd; subst. inversion Hall; subst. auto.
Qed.

(** Assignments to the fields of an entry. *)
Lemma update_touches reg port f :
  (forall c, find_connection reg port = Some c -> same_connection c (f c)) ->
  touches port reg (update_connection reg port f).
Proof.
  unfold touches, others, find_connection.
  induction reg as [|x reg IH]; intros Hf; simpl.
  - split; [reflexivity|constructor].
  - simpl in Hf. destruct (destport x =? port) eqn:E.
    + specialize (Hf x eq_refl). simpl.
      destruct Hf as (Hp & Hrest). rewrite Hp, E. simpl.
      split; [reflexivity|]. constructor; [split; auto|apply evolve_refl].
    + simpl. rewrite E. simpl. destruct (IH Hf) as [H1 H2].
      split; [now f_equal|]. constructor; [apply same_connection_refl|exact H2].
Qed.

Lemma unlink_touches port reg c reg' :
  unlink port reg = Some (c, reg') -> touches port reg reg'.
Proof.
  unfold touches, others.
  revert reg'. induction reg as [|x reg IH]; intros reg'; simpl; [discriminate|].
  destruct (destport x =? port) eqn:E.
  - intros [= <- <-]. simpl. split; [reflexivity|].
    apply evolve_drop, evolve_refl.
  - destruct (unlink port reg) as [[y reg'']|]; [|discriminate].
    intros [= <- <-]. destruct (IH _ eq_refl) as [H1 H2]. simpl. rewrite E. simpl.
    split; [now f_equal|]. constructor; [apply same_connection_refl|exact H2].
Qed.

Lemma rem_connection_touches w port reg :
  first_conn_req w = reg ->
  touches port reg (first_conn_req (rem_connection w port)).
Proof.
  intros <-. unfold rem_connection.
  destruct (unlink port (first_conn_req w)) as [[c reg']|] eqn:E; simpl.
  - eauto using unlink_touches.
  - apply touches_refl.
Qed.

Ltac same_fields := unfold same_connection; simpl; auto.

Lemma transmit_touches entry_ok buffer_ok w c pending buffer reg port :
  first_conn_req w = reg -> destport c = port ->
  touches port reg
    (first_conn_req (outcome_world (transmit entry_ok buffer_ok w c pending buffer))).
Proof.
  intros <- <-. unfold transmit.
  destruct (Netio.tcp_send_message _ _ _ _) as [[] sock'].
  - destruct (if pending then rem_message (queue c) else (queue c, [])) as [q evs].
    simpl. apply update_touches. intros; same_fields.
  - destruct (if pending then _ else _) as [q evs].
    simpl. apply update_touches. intros; same_fields.
  - simpl. apply rem_connection_touches. reflexivity.
Qed.

Lemma send_message_touches entry_ok buffer_ok w port buffer :
  touches port (first_conn_req w)
    (first_conn_req (outcome_world (send_message entry_ok buffer_ok w port buffer))).
Proof.
  unfold send_message.
  destruct (find_connection (first_conn_req w) port) as [c|] eqn:Hf;
    [|apply touches_refl].
  apply find_connection_port in Hf as [Hp _].
  destruct (get_message (queue c)) as [[pending q1] ev1].
  assert (H1 : touches port (first_conn_req w)
                 (update_connection (first_conn_req w) port (with_queue q1)))
    by (apply update_touches; intros; same_fields).
  destruct pending as [p|], buffer as [b|].
  - destruct (add_message _ _ _ _ _) as [[retcode q2] ev2].
    destruct (retcode =? 0).
    + destruct (b_buffer p) as [pb|]; [|exact H1].
      eapply touches_trans; [exact H1|].
      eapply touches_trans; [|apply transmit_touches; [reflexivity|exact Hp]].
      simpl. apply update_touches. intros; same_fields.
    + eapply touches_trans; [exact H1|].
      apply rem_connection_touches. reflexivity.
  - destruct (b_buffer p) as [pb|]; [|exact H1].
    eapply touches_trans; [exact H1|].
    apply transmit_touches; [reflexivity|exact Hp].
  - eapply touches_trans; [exact H1|].
    apply transmit_touches; [reflexivity|exact Hp].
  - exact H1.
Qed.

Lemma drain_touches fuel : forall w port o,
  drain fuel w port = Some o ->
  touches port (first_conn_req w) (first_conn_req (outcome_world o)).
Proof.
  induction fuel as [|fuel IH]; intros w port o; simpl; [discriminate|].
  pose proof (send_message_touches true true w port None) as Hs.
  destruct (send_message true true w port None) as [ret w'|ret w'|w']; simpl in Hs.
  - destruct (ret =? 0).
    + intros H. eapply touches_trans; [exact Hs|]. eauto.
    + intros [= <-]. exact Hs.
  - intros [= <-]. exact Hs.
  - intros [= <-]. exact Hs.
Qed.

Lemma resolve_pending_touches r w port c :
  find_connection (first_conn_req w) port = Some c -> state c = STATE_PENDING ->
  touches port (first_conn_req w) (first_conn_req (body_world (resolve_pending r w port))).
Proof.
  intros Hf Hst. unfold resolve_pending.
  destruct (so_error_ret r <? 0); [simpl; apply rem_connection_touches; reflexivity|].
  destruct (negb (so_error r =? 0)); [simpl; apply rem_connection_touches; reflexivity|].
  simpl. apply update_touches. intros c0 Hc0.
  assert (c0 = c) as -> by congruence. same_fields.
Qed.

Lemma write_section_touches r w port o :
  write_section r w port = Some o ->
  touches port (first_conn_req w) (first_conn_req (body_world o)).
Proof.
  unfold write_section.
  destruct (find_connection (first_conn_req w) port) as [c|] eqn:Hf;
    [|intros [= <-]; apply touches_refl].
  assert (Hres : touches port (first_conn_req w)
                   (first_conn_req
                      (body_world (if state c =? STATE_PENDING
                                   then resolve_pending r w port else Next w)))).
  { destruct (state c =? STATE_PENDING) eqn:E; [|apply touches_refl].
    apply Z.eqb_eq in E. eauto using resolve_pending_touches. }
  destruct (if state c =? STATE_PENDING then _ else _) as [w1|w1|w1];
    try (intros [= <-]; exact Hres).
  destruct (drain _ w1 port) as [o1|] eqn:Hd; [|discriminate].
  apply drain_touches in Hd.
  destruct o1; intros [= <-]; eapply touches_trans; eauto.
Qed.

Lemma read_loop_touches fuel : forall w port response o,
  read_loop fuel w port response = Some o ->
  touches port (first_conn_req w) (first_conn_req (body_world o)).
Proof.
  induction fuel as [|fuel IH]; intros w port response o; simpl; [discriminate|].
  destruct (find_connection (first_conn_req w) port) as [c|] eqn:Hf;
    [|intros [= <-]; apply touches_refl].
  destruct (Netio.tcp_recv_message _ _ _) as [[[[[] response1] logged] inbound']|];
    [| | | |discriminate].
  - intros H. apply IH in H. simpl in H.
    eapply touches_trans; [|exact H].
    apply update_touches. intros; same_fields.
  - intros [= <-]. apply touches_refl.
  - intros [= <-]. simpl. apply rem_connection_touches. reflexivity.
  - intros [= <-]. simpl. apply rem_connection_touches. reflexivity.
Qed.

Lemma read_section_touches w port o :
  read_section w port = Some o ->
  touches port (first_conn_req w) (first_conn_req (body_world o)).
Proof.
  unfold read_section.
  destruct (find_connection (first_conn_req w) port) as [c|];
    [|intros [= <-]; apply touches_refl].
  destruct (state c =? STATE_READY); [apply read_loop_touches|].
  intros [= <-]. apply touches_refl.
Qed.

Lemma service_connection_touches r w port o :
  service_connection r w port = Some o ->
  touches port (first_conn_req w) (first_conn_req (body_world o)).
Proof.
  unfold service_connection.
  assert (Hw : forall o1, (if write_ready r then write_section r w port else Some (Next w))
                          = Some o1 ->
                          touches port (first_conn_req w) (first_conn_req (body_world o1))).
  { destruct (write_ready r); [apply write_section_touches|].
    intros o1 [= <-]. apply touches_refl. }
  destruct (if write_ready r then _ else _) as [[w1|w1|w1]|];
    try (intros [= <-]; apply Hw; reflexivity).
  specialize (Hw _ eq_refl). simpl in Hw.
  destruct (read_ready r); [|intros [= <-]; exact Hw].
  intros H. apply read_section_touches in H. eapply touches_trans; eauto.
Qed.

Lemma produce_touches w port :
  touches port (first_conn_req w) (first_conn_req (produce w port)).
Proof. simpl. apply update_touches. intros; same_fields. Qed.

Lemma evolve_to_nil reg : evolve reg [].
Proof. induction reg; constructor; auto. Qed.

Lemma action_send_message_touches entry_ok buffer_ok w current_endpt buffer :
  exists port,
    touches port (first_conn_req w)
      (first_conn_req
         (outcome_world (action_send_message entry_ok buffer_ok w current_endpt buffer))).
Proof.
  unfold action_send_message.
  destruct current_endpt as [port|]; [|exists 0; apply touches_refl].
  exists port.
  destruct (find_connection (first_conn_req w) port) as [c|]; [|apply touches_refl].
  destruct (state c =? STATE_IDLE); [apply touches_refl|].
  eapply touches_trans; [|apply send_message_touches].
  apply produce_touches.
Qed.

(** [add_connection] changes the registry only by linking one new entry at
    the end, for a port that had none. *)
Lemma add_connection_registry os w port :
  let '(r, w') := add_connection os w port in
  match r with
  | None => first_conn_req w' = first_conn_req w
  | Some c =>
      first_conn_req w' = first_conn_req w ++ [c] /\
      find_connection (first_conn_req w) port = None /\
      destport c = port /\ live c /\ queue c = []
  end.
Proof.
  unfold add_connection.
  destruct (find_connection (first_conn_req w) port) as [c0|] eqn:Hf; [reflexivity|].
  destruct (negb (malloc_ok os)); [reflexivity|].
  destruct (tcp_create_socket (create os) 0) as [sock ev1] eqn:Hc.
  destruct (sock <? 0) eqn:Hs; [reflexivity|].
  destruct (tcp_connect_to_server _ _ sock port) as [st ev2] eqn:Hconn.
  destruct (st =? STATE_IDLE) eqn:Hst; [reflexivity|].
  simpl. repeat split; auto.
  - revert Hconn Hst. unfold tcp_connect_to_server.
    destruct (port <=? 0); [intros [= <- _]; discriminate|].
    destruct (connect_ret os <? 0); [|intros [= <- _]; auto].
    destruct (connect_errno os =? EINPROGRESS); intros [= <- _]; auto; discriminate.
  - simpl. apply Z.ltb_ge in Hs. exact Hs.
Qed.

(** What one step of the dispatcher does to the registry. *)
Lemma step_registry w w' :
  step w w' ->
  exists kept,
    evolve (first_conn_req w) kept /\
    (first_conn_req w' = kept \/
     exists c, first_conn_req w' = kept ++ [c] /\ live c /\
               kept = first_conn_req w /\
               ~ In (destport c) (map destport (first_conn_req w))).
Proof.
  intros [os w0 port|w0 port|w0 port|e b w0 port buffer|e b w0 cur buffer
         |r w0 port o Hs|w0].
  - pose proof (add_connection_registry os w0 port) as H.
    destruct (add_connection os w0 port) as [[c|] w1]; simpl.
    + destruct H as (Hreg & Hf & Hp & Hl & _).
      exists (first_conn_req w0). split; [apply evolve_refl|]. right.
      exists c. split; [exact Hreg|]. split; [exact Hl|]. split; [reflexivity|].
      rewrite Hp. now apply find_connection_none.
    + exists (first_conn_req w0). split; [apply evolve_refl|]. now left.
  - exists (first_conn_req (rem_connection w0 port)). split; [|now left].
    apply (rem_connection_touches w0 port _ eq_refl).
  - eexists. split; [apply (produce_touches w0 port)|now left].
  - eexists. split; [apply (send_message_touches e b w0 port buffer)|now left].
  - destruct (action_send_message_touches e b w0 cur buffer) as [port [_ H]].
    eexists. split; [exact H|now left].
  - apply service_connection_touches in Hs as [_ H].
    eexists. split; [exact H|now left].
  - exists []. split; [apply evolve_to_nil|now left].
Qed.

Lemma step_registry_ok w w' :
  step w w' -> registry_ok (first_conn_req w) -> registry_ok (first_conn_req w').
Proof.
  intros Hs Hok. destruct (step_registry _ _ Hs) as (kept & He & [->|H]).
  - eauto using registry_ok_evolve.
  - destruct H as (c & -> & Hl & -> & Hnew).
    destruct Hok as [Hnd Hall]. split.
    + rewrite map_app. simpl.
      apply NoDup_app_remove_l with (l := []). simpl.
      apply NoDup_app; [exact Hnd|repeat constructor; auto|].
      intros x Hx [<-|[]]. auto.
    + apply Forall_app. split; auto.
Qed.

Lemma reachable_registry_ok w : reachable w -> registry_ok (first_conn_req w).
Proof.
  induction 1 as [w Hinit|w w' _ IH Hs].
  - rewrite Hinit. split; constructor.
  - eauto using step_registry_ok.
Qed.




(** With one entry per port, [rem_connection] leaves none for the port. *)
Lemma rem_connection_gone w port :
  NoDup (map destport (first_conn_req w)) ->
  find_connection (first_conn_req (rem_connection w port)) port = None.
Proof.
  intros Hnd.
  destruct (find_connection (first_conn_req w) port) as [c|] eqn:Hf.
  - destruct (rem_connection_found w port c Hf) as (before & after & Hreg & _ & ->).
    simpl. rewrite Hreg in Hnd.
    apply find_connection_port in Hf as [Hp _]. eauto using find_after_removal.
  - unfold rem_connection.
    pose proof (unlink_find port (first_conn_req w)) as H. rewrite Hf in H.
    rewrite H. exact Hf.
Qed.

Lemma transmit_removed entry_ok buffer_ok w c pending buffer ret w' :
  NoDup (map destport (first_conn_req w)) ->
  transmit entry_ok buffer_ok w c pending buffer = Removed ret w' ->
  find_connection (first_conn_req w') (destport c) = None.
Proof.
  intros Hnd. unfold transmit.
  destruct (Netio.tcp_send_message _ _ _ _) as [[] sock'].
  - destruct (if pending then _ else _); discriminate.
  - destruct (if pending then _ else _); discriminate.
  - intros [= _ <-]. apply rem_connection_gone. exact Hnd.
Qed.

Lemma send_message_removed entry_ok buffer_ok w port buffer ret w' :
  NoDup (map destport (first_conn_req w)) ->
  send_message entry_ok buffer_ok w port buffer = Removed ret w' ->
  find_connection (first_conn_req w') port = None.
Proof.
  intros Hnd. unfold send_message.
  destruct (find_connection (first_conn_req w) port) as [c|] eqn:Hf; [|discriminate].
  apply find_connection_port in Hf as [Hp _].
  destruct (get_message (queue c)) as [[pending q1] ev1].
  destruct pending as [p|], buffer as [b|]; try discriminate.
  - destruct (add_message _ _ _ _ _) as [[retcode q2] ev2].
    destruct (retcode =? 0); [|discriminate].
    destruct (b_buffer p); [|discriminate].
    intros H. apply transmit_removed in H; [now rewrite <- Hp|].
    simpl. now rewrite !update_ports by reflexivity.
  - destruct (b_buffer p); [|discriminate].
    intros H. apply transmit_removed in H; [now rewrite <- Hp|].
    simpl. now rewrite !update_ports by reflexivity.
  - intros H. apply transmit_removed in H; [now rewrite <- Hp|].
    simpl. now rewrite !update_ports by reflexivity.
Qed.



(** ** The loops of the dispatcher return *)

Lemma get_message_length q :
  (length (snd (fst (get_message q))) <= length q)%nat.
Proof.
  destruct (get_message_spec q) as (dropped & Hq & _).
  rewrite Hq at 2. rewrite length_app. lia.
Qed.

Lemma transmit_progress w c buffer w' port :
  find_connection (first_conn_req w) port = Some c -> destport c = port ->
  transmit true true w c true buffer = Returns 0 w' ->
  exists c', find_connection (first_conn_req w') port = Some c' /\
             (length (queue c') < S (length (queue c)))%nat /\
             (queue c <> [] -> length (queue c') < length (queue c))%nat.
Proof.
  intros Hf Hp. unfold transmit.
  destruct (Netio.tcp_send_message _ _ _ _) as [[] sock']; try discriminate.
  destruct (rem_message (queue c)) as [q evs] eqn:Hr.
  intros [= <-]. simpl. rewrite Hp, find_update by reflexivity. rewrite Hf. simpl.
  eexists. split; [reflexivity|]. simpl.
  unfold rem_message in Hr. destruct (queue c) as [|x l]; injection Hr as <- _; simpl.
  - split; [lia|]. congruence.
  - split; intros; lia.
Qed.

Lemma send_message_progress w port c w' :
  find_connection (first_conn_req w) port = Some c ->
  send_message true true w port None = Returns 0 w' ->
  exists c', find_connection (first_conn_req w') port = Some c' /\
             (length (queue c') < length (queue c))%nat.
Proof.
  intros Hf. unfold send_message. rewrite Hf.
  pose proof (get_message_spec (queue c)) as (dropped & Hq & _ & _ & Hhd & _).
  pose proof (find_connection_port _ _ _ Hf) as [Hp _].
  destruct (get_message (queue c)) as [[pending q1] ev1]. cbn [fst snd] in *.
  destruct pending as [p|]; [|discriminate].
  destruct (b_buffer p) as [pb|]; [|discriminate].
  intros H.
  apply transmit_progress with (port := port) in H; [| |exact Hp].
  - destruct H as (c' & Hc' & _ & Hlt). exists c'. split; [exact Hc'|].
    cbn [queue with_queue] in Hlt.
    destruct q1 as [|x l]; [discriminate|].
    specialize (Hlt ltac:(discriminate)).
    rewrite Hq, length_app. lia.
  - simpl. rewrite find_update by reflexivity. now rewrite Hf.
Qed.

Lemma drain_total fuel : forall w port c,
  find_connection (first_conn_req w) port = Some c ->
  (length (queue c) < fuel)%nat ->
  drain fuel w port <> None.
Proof.
  induction fuel as [|fuel IH]; intros w port c Hf Hlen; [lia|].
  cbn [drain].
  destruct (send_message true true w port None) as [ret w'|ret w'|w'] eqn:Hs;
    try discriminate.
  destruct (ret =? 0) eqn:E; [|discriminate].
  apply Z.eqb_eq in E. subst ret.
  destruct (send_message_progress _ _ _ _ Hf Hs) as (c' & Hc' & Hlt).
  apply (IH _ _ c' Hc'). lia.
Qed.

Lemma read_loop_total fuel : forall w port response,
  (0 < fuel)%nat ->
  (forall c, find_connection (first_conn_req w) port = Some c ->
             (Netio.sock_measure (inbound (sockets w (sockfd c))) < fuel)%nat) ->
  read_loop fuel w port response <> None.
Proof.
  induction fuel as [|fuel IH]; intros w port response Hpos Hm; [lia|].
  cbn [read_loop].
  destruct (find_connection (first_conn_req w) port) as [c|] eqn:Hf; [|discriminate].
  specialize (Hm c eq_refl).
  pose proof (tcp_recv_message_total (inbound (sockets w (sockfd c))) response
                (MAX_MESSAGE_LEN + 1)) as Ht.
  destruct (Netio.tcp_recv_message _ _ _) as [[[[r response1] logged] inbound']|] eqn:Hr;
    [|congruence].
  apply tcp_recv_message_measure in Hr as [_ Hlt].
  destruct r; try discriminate.
  specialize (Hlt eq_refl).
  apply IH; [lia|].
  intros c'. cbn [first_conn_req sockets emit set_registry set_socket].
  rewrite find_update by reflexivity. rewrite Hf. intros [= <-].
  cbn [sockfd incr_rspix]. rewrite Z.eqb_refl. cbn [inbound]. lia.
Qed.

(** The body of the loop over the connections always comes to an end. *)
Lemma service_connection_total r w port :
  exists o, service_connection r w port = Some o.
Proof.
  assert (Hread : forall w1, exists o, read_section w1 port = Some o).
  { intros w1. unfold read_section.
    destruct (find_connection (first_conn_req w1) port) as [c|] eqn:Hf; [|eauto].
    destruct (state c =? STATE_READY); [|eauto].
    destruct (read_loop _ w1 port _) as [o|] eqn:E; [eauto|].
    exfalso. revert E. apply read_loop_total; [lia|].
    intros c' Hc'. assert (c' = c) as -> by congruence. lia. }
  assert (Hwrite : exists o, write_section r w port = Some o).
  { unfold write_section.
    destruct (find_connection (first_conn_req w) port) as [c|] eqn:Hf; [|eauto].
    assert (Hd : forall w1 c1, find_connection (first_conn_req w1) port = Some c1 ->
                 length (queue c1) = length (queue c) ->
                 exists o, match drain (S (length (queue c))) w1 port with
                           | Some (Returns _ w2) => Some (Next w2)
                           | Some (Removed _ w2) => Some (BodyUndefined w2)
                           | Some (Undefined w2) => Some (BodyUndefined w2)
                           | None => None
                           end = Some o).
    { intros w1 c1 Hf1 Hl.
      destruct (drain (S (length (queue c))) w1 port) as [[]|] eqn:E; eauto.
      exfalso. revert E. apply (drain_total _ _ _ c1 Hf1). lia. }
    destruct (state c =? STATE_PENDING); [|eauto].
    unfold resolve_pending.
    destruct (so_error_ret r <? 0); [eauto|].
    destruct (negb (so_error r =? 0)); [eauto|].
    apply (Hd _ (connected (local_port r) c)); [|reflexivity].
    simpl. rewrite find_update by reflexivity. now rewrite Hf. }
  unfold service_connection.
  destruct (write_ready r).
  - destruct Hwrite as [[w1|w1|w1] ->]; eauto.
    destruct (read_ready r); eauto.
  - destruct (read_ready r); eauto.
Qed.

End DispatcherFacts.

(** * The claims *)

Section Claims.

Import Netio Queue Registry Dispatcher.

(** ** C2: the status of [tcp_send_message] *)

(** C2.  [tcp_send_message] makes exactly one [sendmsg] call and returns
    [SEND_COMPLETE] exactly when the count [n] that call reports is positive
    (however short of the whole frame: the call is not repeated),
    [SEND_BLOCKED] exactly when it reports an error with
    [errno = EWOULDBLOCK], in which case nothing was written, and
    [SEND_FAILURE] in every other case.  [n] is the returned count as stored
    in the [int], which is the count itself whenever it fits. *)
Theorem tcp_send_message_status (s : socket) (buffer : list byte) (msglen ix : Z) :
  let iov := header_bytes {| h_msglen := msglen; h_msgix := ix |}
             ++ firstn (Z.to_nat (to_size_t msglen)) buffer in
  let ret := fst (fst (sendmsg s iov)) in
  let n := wrap_int ret in
  let errno := snd (fst (sendmsg s iov)) in
  let status := fst (tcp_send_message s buffer msglen ix) in
  let s' := snd (tcp_send_message s buffer msglen ix) in
  (- 2 ^ 31 <= ret < 2 ^ 31 -> n = ret) /\
  (status = SEND_COMPLETE <-> 0 < n) /\
  (status = SEND_BLOCKED <-> n < 0 /\ errno = EWOULDBLOCK) /\
  (status = SEND_FAILURE <-> ~ 0 < n /\ ~ (n < 0 /\ errno = EWOULDBLOCK)) /\
  s' = snd (sendmsg s iov) /\
  outbound s' = tl (outbound s) /\
  (0 < ret -> wire s' = wire s ++ firstn (Z.to_nat ret) iov) /\
  (ret <= 0 -> wire s' = wire s).
Proof.
  cbv zeta. unfold tcp_send_message.
  set (iov := header_bytes _ ++ _).
  split; [apply wrap_int_small|].
  assert (Hout : outbound (snd (sendmsg s iov)) = tl (outbound s)).
  { unfold sendmsg. destruct (outbound s) as [|r rest] eqn:E; simpl; [exact E|reflexivity]. }
  assert (Hwire : (0 < fst (fst (sendmsg s iov)) ->
                   wire (snd (sendmsg s iov))
                   = wire s ++ firstn (Z.to_nat (fst (fst (sendmsg s iov)))) iov) /\
                  (fst (fst (sendmsg s iov)) <= 0 -> wire (snd (sendmsg s iov)) = wire s)).
  { unfold sendmsg. destruct (outbound s) as [|r rest]; simpl.
    - split; [lia|reflexivity].
    - destruct (0 <? send_ret r) eqn:E;
        [apply Z.ltb_lt in E | apply Z.ltb_ge in E]; split; intros; try lia; reflexivity. }
  destruct (sendmsg s iov) as [[ret errno] s'] eqn:Hs. cbn [fst snd] in *.
  destruct Hwire as [Hw1 Hw2].
  destruct (0 <? wrap_int ret) eqn:E1; [apply Z.ltb_lt in E1 | apply Z.ltb_ge in E1].
  - cbn [fst snd]. repeat split; intros; try lia; try discriminate; tauto.
  - destruct (wrap_int ret <? 0) eqn:E2; [apply Z.ltb_lt in E2 | apply Z.ltb_ge in E2];
      destruct (errno =? EWOULDBLOCK) eqn:E3;
      [apply Z.eqb_eq in E3 | apply Z.eqb_neq in E3
      |apply Z.eqb_eq in E3 | apply Z.eqb_neq in E3];
      cbn [fst snd andb]; repeat split; intros; try lia; try discriminate; try tauto.
Qed.

(** ** C1: frame round trip *)

(** A full write puts exactly the frame on the wire. *)
Lemma tcp_send_message_full (sender : socket) (P : list byte) (ix : Z) r rest :
  Z.of_nat (length P) <= INT_MAX - 8 ->
  outbound sender = r :: rest -> send_ret r = 8 + Z.of_nat (length P) ->
  fst (tcp_send_message sender P (Z.of_nat (length P)) ix) = SEND_COMPLETE /\
  wire (snd (tcp_send_message sender P (Z.of_nat (length P)) ix))
  = wire sender ++ frame P ix.
Proof.
  intros HP Hout Hret. unfold tcp_send_message, sendmsg. rewrite Hout, Hret.
  assert (E : (0 <? 8 + Z.of_nat (length P)) = true) by (apply Z.ltb_lt; lia).
  cbv beta iota zeta. rewrite wrap_int_small by (unfold INT_MAX in *; lia).
  rewrite E. cbn [fst snd wire]. split; [reflexivity|]. f_equal.
  rewrite to_size_t_small by (unfold INT_MAX in *; lia). rewrite Nat2Z.id, firstn_all.
  unfold frame. apply firstn_all2.
  rewrite length_app, length_header_bytes. lia.
Qed.

(** C1 (as the code has it).  A message [P] that fits the receive buffer,
    sent by [tcp_send_message] in one full write, is reconstructed exactly by
    one call of [tcp_recv_message], however the bytes of the frame are cut
    into chunks across the successive [recvmsg] reads of that call; the bytes
    behind the frame are left to arrive.  A call that finds only part of a
    header before the socket would block returns [RECV_BLOCKED] and gives
    back the buffer as it was: the bytes it took are gone from the socket and
    are not handed to the next call. *)
Theorem frame_roundtrip_within_one_call
    (P buf : list byte) (ix cap : Z) (sender sender' : socket)
    (status : tSendMsgTyp) (r : sendmsg_result) (rest : list sendmsg_result)
    (s s' : list recv_event) :
  Z.of_nat (length P) <= cap -> cap <= INT_MAX - 8 ->
  Z.of_nat (length buf) = cap ->
  - 2 ^ 31 <= ix < 2 ^ 31 ->
  outbound sender = r :: rest -> send_ret r = 8 + Z.of_nat (length P) ->
  wire sender = [] ->
  tcp_send_message sender P (Z.of_nat (length P)) ix = (status, sender') ->
  arrives s (8 + length P) = Some (wire sender', s') ->
  status = SEND_COMPLETE /\
  tcp_recv_message s buf cap
  = Some (RECV_COMPLETE, P ++ skipn (length P) buf, [], s') /\
  (forall (k : nat) part blocked later,
     (k < 8)%nat ->
     arrives blocked k = Some (part, Fail EWOULDBLOCK :: later) ->
     tcp_recv_message blocked buf cap = Some (RECV_BLOCKED, buf, [], later)).
Proof.
  intros HP Hcap Hbuf Hix Hout Hret Hwire Hsend Harr.
  destruct (tcp_send_message_full sender P ix r rest) as [Hst Hw];
    [lia | assumption | assumption |].
  rewrite Hsend in Hst, Hw. simpl in Hst, Hw. rewrite Hwire in Hw. simpl in Hw.
  split; [exact Hst|].
  split.
  2:{ intros k part blocked later Hk Hpart.
      destruct (recv_loop_header_blocked cap buf later (S (sock_measure blocked)) 0%nat k
                  part (repeat Byte.x00 8) [] blocked ltac:(lia) ltac:(lia) eq_refl Hpart)
        as (st' & Heq & Hb & Hl & Hs).
      unfold tcp_recv_message.
      change (recv_init blocked buf) with
        {| header := repeat Byte.x00 8; buffer := buf;
           recv_count := Z.of_nat 0; iov_base := IovHeader (Z.of_nat 0);
           iov_len := Z.of_nat (8 - 0); rlog := []; rsock := blocked |}.
      rewrite Heq, Hb, Hl, Hs. reflexivity. }
  rewrite Hw in Harr. unfold frame in Harr.
  set (h := {| h_msglen := Z.of_nat (length P); h_msgix := ix |}) in *.
  assert (Hnoclamp : (cap <? h_msglen h) = false) by (apply Z.ltb_ge; simpl; lia).
  assert (H1 : 0 <= cap <= INT_MAX - 8) by lia.
  assert (H2 : - 2 ^ 31 <= h_msglen h < 2 ^ 31) by (simpl; unfold INT_MAX in *; lia).
  assert (H3 : Z.of_nat (length P) = if cap <? h_msglen h then cap else h_msglen h)
    by (rewrite Hnoclamp; reflexivity).
  destruct (recv_loop_header cap h P buf s' H1 H2 Hix H3 (S (sock_measure s)) 0%nat
              (repeat Byte.x00 8) [] s ltac:(lia) ltac:(lia) eq_refl Harr)
    as (st' & Heq & Hb & Hl & Hs).
  - unfold tcp_recv_message.
    change (recv_init s buf) with
      {| header := firstn 0 (header_bytes h) ++ repeat Byte.x00 8; buffer := buf;
         recv_count := Z.of_nat 0; iov_base := IovHeader (Z.of_nat 0);
         iov_len := Z.of_nat (8 - 0); rlog := []; rsock := s |}.
    rewrite Heq, Hb, Hl, Hs. unfold clamp_log. rewrite Hnoclamp. reflexivity.
Qed.

Lemma frame_roundtrip_within_one_call_witness :
  tcp_recv_message [frame_A_head; frame_A_tail] (repeat Byte.x00 4) 4
  = Some (RECV_COMPLETE, [Byte.x41; Byte.x00; Byte.x00; Byte.x00], [], []).
Proof.
  refine (proj1 (proj2 (frame_roundtrip_within_one_call msg_A (repeat Byte.x00 4) 1 4
                   full_write_9 {| inbound := []; outbound := []; wire := frame msg_A 1 |}
                   SEND_COMPLETE {| send_ret := 9; send_errno := 0 |} []
                   [frame_A_head; frame_A_tail] [] _ _ _ _ _ _ _ _ _)));
    try reflexivity; vm_compute; intuition discriminate.
Defined.

(** C1, as stated, fails.  The frame of [msg_A] reaches the receiver in two
    parts with a would-block in between: the first call returns
    [RECV_BLOCKED] after taking four header bytes, the second call starts a
    new header with the remaining five bytes and blocks as well.  The whole
    frame has been consumed, no call returned [RECV_COMPLETE], and the buffer
    never held the message. *)
Lemma blocked_mid_frame_loses_the_frame :
  wire (snd (tcp_send_message full_write_9 msg_A 1 1))
  = [Byte.x01; Byte.x00; Byte.x00; Byte.x00; Byte.x01; Byte.x00; Byte.x00; Byte.x00;
     Byte.x41] /\
  tcp_recv_message [frame_A_head; Fail EWOULDBLOCK; frame_A_tail] (repeat Byte.x00 4) 4
  = Some (RECV_BLOCKED, repeat Byte.x00 4, [], [frame_A_tail]) /\
  tcp_recv_message [frame_A_tail] (repeat Byte.x00 4) 4
  = Some (RECV_BLOCKED, repeat Byte.x00 4, [], []).
Proof. vm_compute. auto. Qed.

(** ** C3: clamp safety *)



(** ** C9: [get_message] *)

(** C9.  [get_message] returns NULL exactly when the queue is empty or holds
    only entries without a buffer; otherwise it returns the oldest entry that
    has a buffer, which is then the head of the queue.  The entries ahead of
    it (all without buffer) are unlinked and freed, each with its log line,
    and the entry returned has a buffer. *)
Theorem get_message_oldest_valid (q : list tBufferStc) :
  exists dropped,
    q = dropped ++ snd (fst (get_message q)) /\
    Forall (fun e => b_buffer e = None) dropped /\
    snd (get_message q) = flat_map null_buffer_events dropped /\
    fst (fst (get_message q)) = hd_error (snd (fst (get_message q))) /\
    (forall e, fst (fst (get_message q)) = Some e -> exists b, b_buffer e = Some b) /\
    (fst (fst (get_message q)) = None <-> Forall (fun e => b_buffer e = None) q).
Proof.
  destruct (get_message_spec q) as (dropped & H1 & H2 & H3 & H4 & H5).
  exists dropped. repeat split; auto; apply get_message_none_iff.
Qed.

Lemma get_message_oldest_valid_witness :
  exists dropped,
    [entry_null; entry_B] = dropped ++ snd (fst (get_message [entry_null; entry_B])) /\
    Forall (fun e => b_buffer e = None) dropped /\
    fst (fst (get_message [entry_null; entry_B])) = Some entry_B.
Proof.
  destruct (get_message_oldest_valid [entry_null; entry_B])
    as (dropped & H1 & H2 & _ & _ & _ & _).
  exists dropped. split; [exact H1|]. split; [exact H2|]. reflexivity.
Defined.

(** ** C10: [rem_connection] *)

(** C10.  [rem_connection] for a port that has no entry logs an error and
    changes nothing else: nothing is closed, unlinked or freed.  For a port
    that has an entry, that entry (the first for the port) is closed,
    unlinked and freed, and all the others stay linked in their order. *)
Theorem rem_connection_exactly_one (w : world) (port : Z) :
  (find_connection (first_conn_req w) port = None ->
     rem_connection w port
     = emit w [EvLog PRINT_ERROR "Connection to %u not found" [ArgInt port]]) /\
  (forall c, find_connection (first_conn_req w) port = Some c -> 0 <= sockfd c ->
     exists before after,
       first_conn_req w = before ++ c :: after /\
       Forall (fun x => destport x <> port) before /\
       first_conn_req (rem_connection w port) = before ++ after /\
       first_conn_srv (rem_connection w port) = first_conn_srv w /\
       sockets (rem_connection w port) = sockets w /\
       trace (rem_connection w port)
       = trace w ++ [EvLog PRINT_OTHER "closing and removing connection to port %u"
                       [ArgInt port];
                     EvClose (sockfd c); EvFreeConnection c]).
Proof.
  split.
  - intros Hf. unfold rem_connection.
    pose proof (unlink_find port (first_conn_req w)) as H. rewrite Hf in H.
    now rewrite H.
  - intros c Hf Hfd.
    destruct (rem_connection_found w port c Hf) as (before & after & Hreg & Hall & ->).
    exists before, after.
    assert (E : (0 <=? sockfd c) = true) by (apply Z.leb_le; exact Hfd).
    rewrite E. simpl. auto 10.
Qed.

Lemma rem_connection_exactly_one_witness :
  exists before after,
    first_conn_req (world_two []) = before ++ conn_9001 :: after /\
    first_conn_req (rem_connection (world_two []) 9001) = before ++ after.
Proof.
  destruct (proj2 (rem_connection_exactly_one (world_two []) 9001) conn_9001 eq_refl)
    as (before & after & H1 & _ & H2 & _).
  - simpl. lia.
  - exists before, after. split; assumption.
Defined.

(** ** C6: one entry per destination port *)

(** C6.  [add_connection] for a port that already has an entry reports the
    duplicate and creates nothing (the world is unchanged but for the log
    line); every registry the dispatcher can reach has at most one entry per
    destination port; and after an [add_connection] that linked an entry, a
    second one for the same port fails with the duplicate error and leaves
    exactly one entry for the port. *)
Theorem add_connection_unique :
  (forall os w port c0,
     find_connection (first_conn_req w) port = Some c0 ->
     add_connection os w port
     = (None, emit w [EvLog PRINT_ERROR "%u already connected" [ArgInt port]])) /\
  (forall w, reachable w -> NoDup (map destport (first_conn_req w))) /\
  (forall os1 os2 w port c w1,
     reachable w ->
     add_connection os1 w port = (Some c, w1) ->
     add_connection os2 w1 port
     = (None, emit w1 [EvLog PRINT_ERROR "%u already connected" [ArgInt port]]) /\
     filter (fun x => destport x =? port) (first_conn_req w1) = [c]).
Proof.
  split; [|split].
  - intros os w port c0 Hf. unfold add_connection. now rewrite Hf.
  - intros w Hr. apply reachable_registry_ok in Hr. apply Hr.
  - intros os1 os2 w port c w1 Hr Hadd.
    pose proof (add_connection_registry os1 w port) as H. rewrite Hadd in H.
    destruct H as (Hreg & Hnone & Hp & _ & _).
    assert (Hfilter : filter (fun x => destport x =? port) (first_conn_req w1) = [c]).
    { rewrite Hreg, filter_app. simpl. rewrite Hp, Z.eqb_refl.
      now rewrite (find_none_filter _ _ Hnone). }
    split; [|exact Hfilter].
    unfold add_connection.
    destruct (find_connection (first_conn_req w1) port) as [c1|] eqn:Hf; [reflexivity|].
    exfalso. unfold find_connection in Hf.
    assert (Hin : In c (filter (fun x => destport x =? port) (first_conn_req w1)))
      by (rewrite Hfilter; simpl; auto).
    apply filter_In in Hin as [Hin Hc].
    apply (find_none _ _ Hf) in Hin. congruence.
Qed.

Lemma add_connection_unique_witness :
  exists c w1,
    add_connection calls_ok world_empty 9001 = (Some c, w1) /\
    add_connection calls_ok w1 9001
    = (None, emit w1 [EvLog PRINT_ERROR "%u already connected" [ArgInt 9001]]) /\
    filter (fun x => destport x =? 9001) (first_conn_req w1) = [c].
Proof.
  destruct (add_connection calls_ok world_empty 9001) as [[c|] w1] eqn:E;
    [|discriminate E].
  exists c, w1. split; [reflexivity|].
  exact (proj2 (proj2 add_connection_unique) calls_ok calls_ok world_empty 9001 c w1
           (reach_init world_empty eq_refl) E).
Defined.

(** ** C7: the connection state machine *)

(** C7.  A connect attempt gives [STATE_READY] when [connect] succeeds at
    once, [STATE_PENDING] when it is in progress and [STATE_IDLE] on any
    other failure, and [add_connection] links an entry only in the first two
    cases, in that state.  In the [STATE_PENDING] branch of the write section
    the pending socket error is queried: zero makes the entry [STATE_READY]
    and stores the local port, a non-zero error or a failed query removes the
    entry.  Across every step of the dispatcher an entry that stays linked
    keeps its state or goes from [STATE_PENDING] to [STATE_READY], a new
    entry starts in one of these two states, and no linked entry is ever
    [STATE_IDLE]. *)
Theorem connection_state_machine :
  (forall ret errno sock port, 0 < port ->
     (0 <= ret -> fst (tcp_connect_to_server ret errno sock port) = STATE_READY) /\
     (ret < 0 -> errno = EINPROGRESS ->
      fst (tcp_connect_to_server ret errno sock port) = STATE_PENDING) /\
     (ret < 0 -> errno <> EINPROGRESS ->
      fst (tcp_connect_to_server ret errno sock port) = STATE_IDLE)) /\
  (forall os w port,
     match fst (add_connection os w port) with
     | Some c =>
         0 < port /\
         state c = (if 0 <=? connect_ret os then STATE_READY else STATE_PENDING) /\
         (connect_ret os < 0 -> connect_errno os = EINPROGRESS)
     | None => first_conn_req (snd (add_connection os w port)) = first_conn_req w
     end) /\
  (forall r w port c,
     NoDup (map destport (first_conn_req w)) ->
     find_connection (first_conn_req w) port = Some c ->
     (0 <= so_error_ret r -> so_error r = 0 ->
      exists w', resolve_pending r w port = Next w' /\
                 find_connection (first_conn_req w') port
                 = Some (connected (local_port r) c) /\
                 state (connected (local_port r) c) = STATE_READY /\
                 sendport (connected (local_port r) c) = Some (local_port r)) /\
     (so_error_ret r < 0 \/ so_error r <> 0 ->
      exists w', resolve_pending r w port = NextFreed w' /\
                 find_connection (first_conn_req w') port = None /\
                 In (EvFreeConnection c) (trace w') /\
                 (state c = STATE_PENDING -> write_ready r = true ->
                  service_connection r w port = Some (NextFreed w')))) /\
  (forall w w', step w w' ->
     forall c', In c' (first_conn_req w') ->
       (exists c, In c (first_conn_req w) /\ destport c' = destport c /\
                  sockfd c' = sockfd c /\
                  (state c' = state c \/
                   (state c = STATE_PENDING /\ state c' = STATE_READY))) \/
       (~ In (destport c') (map destport (first_conn_req w)) /\
        (state c' = STATE_PENDING \/ state c' = STATE_READY))) /\
  (forall w, reachable w ->
     Forall (fun c => state c = STATE_PENDING \/ state c = STATE_READY)
       (first_conn_req w)).
Proof.
  split; [|split; [|split; [|split]]].
  - intros ret errno sock port Hport. unfold tcp_connect_to_server.
    destruct (port <=? 0) eqn:Ep; [apply Z.leb_le in Ep; lia|].
    destruct (ret <? 0) eqn:Er; [apply Z.ltb_lt in Er|apply Z.ltb_ge in Er];
      destruct (errno =? EINPROGRESS) eqn:Ee;
      [apply Z.eqb_eq in Ee|apply Z.eqb_neq in Ee|apply Z.eqb_eq in Ee|apply Z.eqb_neq in Ee];
      simpl; repeat split; intros; try reflexivity; try lia; try contradiction.
  - intros os w port. unfold add_connection.
    destruct (find_connection (first_conn_req w) port); [reflexivity|].
    destruct (negb (malloc_ok os)); [reflexivity|].
    destruct (tcp_create_socket (create os) 0) as [sock ev1].
    destruct (sock <? 0); [reflexivity|].
    unfold tcp_connect_to_server.
    destruct (port <=? 0) eqn:Ep; [reflexivity|]. apply Z.leb_gt in Ep.
    destruct (connect_ret os <? 0) eqn:Er.
    + apply Z.ltb_lt in Er.
      destruct (connect_errno os =? EINPROGRESS) eqn:Ee; [|reflexivity].
      apply Z.eqb_eq in Ee. simpl.
      destruct (0 <=? connect_ret os) eqn:E0; [apply Z.leb_le in E0; lia|]. auto.
    + apply Z.ltb_ge in Er. simpl.
      destruct (0 <=? connect_ret os) eqn:E0; [|apply Z.leb_gt in E0; lia].
      repeat split; auto. lia.
  - intros r w port c Hnd Hf. split.
    + intros Hret Herr. unfold resolve_pending.
      destruct (so_error_ret r <? 0) eqn:E1; [apply Z.ltb_lt in E1; lia|].
      rewrite Herr. simpl. eexists. split; [reflexivity|]. simpl.
      rewrite find_update by reflexivity. rewrite Hf. auto.
    + intros Hfail.
      destruct (rem_connection_found
                  (emit w [EvLog PRINT_SOCKET "socket getsockopt failed (port %u): %s"
                             [ArgInt port]]) port c Hf)
        as (before & after & Hreg & Hall & Hrem1).
      destruct (rem_connection_found
                  (emit w [EvLog PRINT_SOCKET
                             "socket getsockopt connect failure (port %u): %s"
                             [ArgInt port]]) port c Hf)
        as (before2 & after2 & Hreg2 & Hall2 & Hrem2).
      simpl in Hreg, Hreg2. pose proof Hf as Hf'.
      apply find_connection_port in Hf as [Hp _].
      unfold resolve_pending.
      destruct (so_error_ret r <? 0) eqn:E1.
      * eexists. split; [reflexivity|]. rewrite Hrem1. split; [|split].
        -- simpl. rewrite Hreg in Hnd. eauto using find_after_removal.
        -- cbn [trace emit set_registry].
           do 3 (apply in_or_app; right). now left.
        -- intros Hst Hwr. unfold service_connection, write_section, resolve_pending.
           rewrite Hwr, Hf', Hst, E1, Hrem1. reflexivity.
      * pose proof E1 as E1b. apply Z.ltb_ge in E1.
        destruct (so_error r =? 0) eqn:E2; [apply Z.eqb_eq in E2; lia|]. simpl.
        eexists. split; [reflexivity|]. rewrite Hrem2. split; [|split].
        -- simpl. rewrite Hreg2 in Hnd. eauto using find_after_removal.
        -- cbn [trace emit set_registry].
           do 3 (apply in_or_app; right). now left.
        -- intros Hst Hwr. unfold service_connection, write_section, resolve_pending.
           rewrite Hwr, Hf', Hst, E1b, E2. simpl. rewrite Hrem2. reflexivity.
  - intros w w' Hs c' Hin.
    destruct (step_registry _ _ Hs) as (kept & He & [Hk|(c & Hk & Hl & -> & Hnew)]).
    + rewrite Hk in Hin. destruct (evolve_In _ _ _ He Hin) as (c & Hc & Hsame).
      left. exists c. split; [exact Hc|exact Hsame].
    + rewrite Hk in Hin. apply in_app_iff in Hin as [Hin|[<-|[]]].
      * left. exists c'. split; [exact Hin|]. apply same_connection_refl.
      * right. split; [exact Hnew|apply Hl].
  - intros w Hr. apply reachable_registry_ok in Hr as [_ Hall].
    eapply Forall_impl; [|exact Hall]. intros c Hl. apply Hl.
Qed.

Lemma connection_state_machine_witness :
  exists w',
    resolve_pending
      {| write_ready := true; read_ready := false; so_error_ret := 0; so_error := 0;
         local_port := 40001 |} (world_two []) 9002 = Next w' /\
    find_connection (first_conn_req w') 9002 = Some (connected 40001 conn_9002).
Proof.
  destruct (proj1 (proj1 (proj2 (proj2 connection_state_machine))
                     {| write_ready := true; read_ready := false; so_error_ret := 0;
                        so_error := 0; local_port := 40001 |}
                     (world_two []) 9002 conn_9002
                     ltac:(repeat constructor; simpl; intuition discriminate) eq_refl)
                   ltac:(simpl; lia) eq_refl)
    as (w' & H1 & H2 & _).
  exists w'. split; assumption.
Defined.

(** ** C4: the send path of the dispatcher *)



(** ** C5: order of transmission *)

(** C5 fails in the worker.  Its send loop does not stop at a blocked entry:
    with two entries queued, when the socket blocks on the first and then
    accepts a frame, the second message goes on the wire, the first never
    does, and both entries are gone from the queue. *)
Theorem worker_sends_past_blocked_entry :
  let ch := Worker.child_send child_two 4 9000 in
  wire (Worker.sock ch) = frame msg_B 1 /\
  Worker.firstmsg ch = [] /\
  Worker.send_count ch = 1 /\
  Worker.ctrace ch
  = [EvSend 4 msg_A 1 1 SEND_BLOCKED;
     EvLog PRINT_ERROR "socket sendmsg (port %u): blocked" [ArgInt 9000];
     EvSend 4 msg_B 1 1 SEND_COMPLETE;
     EvFreeBuffer msg_B; EvFreeEntry entry_B].
Proof. vm_compute. repeat split. Qed.

(** ** C8: error isolation *)




End Claims.

(** * Further properties *)

Section Coverage.

Import Netio Queue Registry Dispatcher Servers Userio Main.

Ltac int_small :=
  repeat match goal with
    | |- context [wrap_int ?z] =>
        rewrite (wrap_int_small z) by (unfold INT_MAX, sizeof_header in *; lia)
    | |- context [to_size_t ?z] =>
        rewrite (to_size_t_small z) by (unfold INT_MAX, sizeof_header in *; lia)
    end.

Ltac flag b :=
  let E := fresh "E" in
  destruct b eqn:E;
  [ first [apply Z.ltb_lt in E | apply Z.leb_le in E | apply Z.eqb_eq in E]
  | first [apply Z.ltb_ge in E | apply Z.leb_gt in E | apply Z.eqb_neq in E] ];
  try (unfold sizeof_header, INT_MAX in *; lia).

(** ** [remove_term] *)

Lemma term_index_bound buffer limit :
  (term_index buffer limit <= limit)%nat /\ (term_index buffer limit <= length buffer)%nat.
Proof.
  revert limit. induction buffer as [|b buffer IH]; intros [|limit]; simpl; try lia.
  destruct (char_value b <? 32); simpl; [lia|].
  destruct (IH limit). lia.
Qed.

Lemma term_index_prefix buffer limit :
  Forall (fun b => 32 <= char_value b) (firstn (term_index buffer limit) buffer).
Proof.
  revert limit. induction buffer as [|b buffer IH]; intros [|limit]; simpl;
    try constructor.
  destruct (char_value b <? 32) eqn:E; simpl; constructor.
  - apply Z.ltb_ge in E. exact E.
  - apply IH.
Qed.

Lemma term_index_stop buffer limit :
  (term_index buffer limit < limit)%nat ->
  (term_index buffer limit < length buffer)%nat ->
  exists b, nth_error buffer (term_index buffer limit) = Some b /\ char_value b < 32.
Proof.
  revert limit. induction buffer as [|b buffer IH]; intros [|limit]; simpl; try lia.
  destruct (char_value b <? 32) eqn:E; simpl; intros H1 H2.
  - exists b. split; [reflexivity|]. apply Z.ltb_lt in E. exact E.
  - apply IH; lia.
Qed.

Lemma char_value_printable b :
  32 <= char_value b <-> 32 <= byte.unsigned b <= 127.
Proof.
  unfold char_value. pose proof (byte.unsigned_range b) as R.
  destruct (byte.unsigned b <? 128) eqn:E;
    [apply Z.ltb_lt in E | apply Z.ltb_ge in E]; lia.
Qed.

Lemma c_string_prefix text rest :
  Forall (fun b => 32 <= char_value b) text ->
  c_string (text ++ Byte.x00 :: rest) = text.
Proof.
  induction 1 as [|b text Hb _ IH]; simpl.
  - reflexivity.
  - destruct (Byte.eqb b Byte.x00) eqn:E.
    + apply Byte.byte_dec_bl in E. subst b. vm_compute in Hb. exfalso. apply Hb. reflexivity.
    + rewrite IH. reflexivity.
Qed.

Lemma remove_term_shape buffer size :
  2 <= size -> size <= Z.of_nat (length buffer) ->
  let k := term_index buffer (Z.to_nat (size - 1)) in
  remove_term buffer size = firstn k buffer ++ Byte.x00 :: skipn (S k) buffer.
Proof.
  intros H2 HL k. unfold remove_term.
  destruct (size <? 2) eqn:E; [apply Z.ltb_lt in E; lia|].
  unfold write_at. rewrite Nat2Z.id. simpl. fold k.
  replace (k + 1)%nat with (S k) by lia. reflexivity.
Qed.

(** [remove_term] ends the string within the array. *)
Theorem remove_term_terminates (buffer : list byte) (size : Z) :
  2 <= size -> size <= Z.of_nat (length buffer) ->
  let k := term_index buffer (Z.to_nat (size - 1)) in
  let text := c_string (remove_term buffer size) in
  length (remove_term buffer size) = length buffer /\
  text = firstn k buffer /\
  Z.of_nat (length text) <= size - 1 /\
  Forall (fun b => 32 <= byte.unsigned b <= 127) text /\
  (Z.of_nat k < size - 1 ->
   exists b, nth_error buffer k = Some b /\
             (byte.unsigned b < 32 \/ 128 <= byte.unsigned b)) /\
  skipn (S k) (remove_term buffer size) = skipn (S k) buffer.
Proof.
  intros H2 HL k text.
  pose proof (term_index_bound buffer (Z.to_nat (size - 1))) as [B1 B2]. fold k in B1, B2.
  assert (Hk : (k < length buffer)%nat) by lia.
  assert (Hshape := remove_term_shape buffer size H2 HL). cbv zeta in Hshape. fold k in Hshape.
  assert (Htext : text = firstn k buffer).
  { unfold text. rewrite Hshape. apply c_string_prefix. apply term_index_prefix. }
  split; [|split; [|split; [|split; [|split]]]].
  - rewrite Hshape, length_app, length_firstn. cbn [length]. rewrite length_skipn. lia.
  - exact Htext.
  - rewrite Htext, length_firstn. lia.
  - rewrite Htext. eapply Forall_impl; [|apply term_index_prefix].
    intros b Hb. apply char_value_printable. exact Hb.
  - intros Hlt.
    destruct (term_index_stop buffer (Z.to_nat (size - 1))) as (b & Hn & Hb);
      [fold k; lia | fold k; lia |].
    exists b. split; [exact Hn|].
    unfold char_value in Hb. pose proof (byte.unsigned_range b).
    destruct (byte.unsigned b <? 128) eqn:E;
      [apply Z.ltb_lt in E | apply Z.ltb_ge in E]; lia.
  - rewrite Hshape.
    replace (S k) with (length (firstn k buffer ++ [Byte.x00])) at 1
      by (rewrite length_app, length_firstn; simpl; lia).
    replace (firstn k buffer ++ Byte.x00 :: skipn (S k) buffer)
      with ((firstn k buffer ++ [Byte.x00]) ++ skipn (S k) buffer)
      by (rewrite <- app_assoc; reflexivity).
    rewrite skipn_app, skipn_all, Nat.sub_diag. reflexivity.
Qed.

Lemma remove_term_terminates_witness :
  c_string (remove_term [Byte.x68; Byte.x69; Byte.x0a; Byte.x7a] 4) = [Byte.x68; Byte.x69].
Proof.
  exact (proj1 (proj2 (remove_term_terminates [Byte.x68; Byte.x69; Byte.x0a; Byte.x7a] 4
                         ltac:(lia) ltac:(simpl; lia)))).
Defined.

(** ** [tcp_recv_message]: nothing is stored past the buffer *)

Lemma to_size_t_negative z : - 2 ^ 64 <= z < 0 -> to_size_t z = z + 2 ^ 64.
Proof.
  intros H. unfold to_size_t.
  rewrite <- (Z_mod_plus_full z 1 (2 ^ 64)). apply Z.mod_small. lia.
Qed.

Lemma header_msglen_range mem : - 2 ^ 31 <= header_msglen mem < 2 ^ 31.
Proof. unfold header_msglen, bytes_int. apply wrap_int_range. Qed.

Lemma recv_loop_header_any (cap : Z) (buf : list byte) :
  0 <= cap <= INT_MAX - 8 -> Z.of_nat (length buf) = cap ->
  forall (fuel : nat) (c : Z) hdr log s,
    (sock_measure s < fuel)%nat ->
    0 <= c < 8 -> length hdr = 8%nat ->
    exists r st',
      recv_loop fuel cap
        {| header := hdr; buffer := buf; recv_count := c; iov_base := IovHeader c;
           iov_len := 8 - c; rlog := log; rsock := s |}
      = Some (r, st') /\
      length (buffer st') = length buf /\
      (rlog st' = log \/
       exists len ix, cap < len /\ rlog st' = log ++ [invalid_header_log len ix]).
Proof.
  intros Hcap Hbuf.
  induction fuel as [|fuel IH]; intros c hdr log s Hfuel Hc Hhdr; [lia|].
  cbn [recv_loop rsock iov_len].
  destruct (recvmsg s (8 - c)) as [[[ret e] data] s1] eqn:Hrecv.
  cbn [store iov_base header buffer recv_count rlog].
  destruct (recvmsg_cases _ _ _ _ _ _ Hrecv) as [[-> ->]|[[-> ->]|(Hret & Hdata & Hm)]];
    [unfold SSIZE_MAX; lia | | |].
  - rewrite write_at_nil. change (wrap_int (-1)) with (-1). simpl.
    destruct (e =? EWOULDBLOCK); eexists _, _; (split; [reflexivity|]);
      (split; [reflexivity|left; reflexivity]).
  - rewrite write_at_nil. change (wrap_int 0) with 0. simpl.
    eexists _, _; (split; [reflexivity|]); (split; [reflexivity|left; reflexivity]).
  - assert (Hw : length (write_at c data hdr) = 8%nat)
      by (rewrite length_write_at; lia).
    remember (write_at c data hdr) as hdr1 eqn:Hhdr1.
    int_small.
    flag (ret =? 0). flag (ret <? 0).
    flag (sizeof_header <=? c + ret).
    + assert (Hrc : c + ret = 8) by (unfold sizeof_header in *; lia).
      pose proof (header_msglen_range hdr1) as HM0.
      assert (Hclamp :
        exists hdr2 log2,
          (if cap <? header_msglen hdr1
           then (set_header_msglen hdr1 cap,
                 log ++ [invalid_header_log (header_msglen hdr1) (header_msgix hdr1)])
           else (hdr1, log)) = (hdr2, log2) /\
          - 2 ^ 31 <= header_msglen hdr2 <= cap /\
          (log2 = log \/
           exists len ix, cap < len /\ log2 = log ++ [invalid_header_log len ix])).
      { destruct (cap <? header_msglen hdr1) eqn:Ec;
          [apply Z.ltb_lt in Ec | apply Z.ltb_ge in Ec]; eexists _, _;
          (split; [reflexivity|]).
        - rewrite header_msglen_set by (unfold INT_MAX in *; lia).
          split; [unfold INT_MAX in *; lia|]. right. eexists _, _. split; [exact Ec|reflexivity].
        - split; [lia|]. left. reflexivity. }
      destruct Hclamp as (hdr2 & log2 & -> & HM & Hlog).
      remember (header_msglen hdr2) as M eqn:HMdef.
      destruct (Z_lt_le_dec M 0) as [Hneg|Hpos].
      * rewrite (to_size_t_negative M) by lia.
        destruct (Z_lt_le_dec M (-8)) as [Hfar|Hnear].
        -- (* the length is taken for a huge size_t: the next recvmsg fails *)
           replace (to_size_t (sizeof_header + (M + 2 ^ 64))) with (M + 2 ^ 64 + 8)
             by (unfold sizeof_header; rewrite to_size_t_small by lia; lia).
           flag (M + 2 ^ 64 + 8 <=? c + ret).
           flag (c + ret =? sizeof_header).
           destruct fuel as [|fuel]; [lia|].
           cbn [recv_loop rsock iov_len]. unfold recvmsg at 1.
           flag (SSIZE_MAX <? M + 2 ^ 64); [|unfold SSIZE_MAX in *; lia].
           cbn [store iov_base header buffer recv_count rlog].
           rewrite write_at_nil. change (wrap_int (-1)) with (-1). simpl.
           eexists _, _. split; [reflexivity|]. split; [reflexivity|exact Hlog].
        -- replace (to_size_t (sizeof_header + (M + 2 ^ 64))) with (8 + M).
           2:{ unfold sizeof_header, to_size_t.
               replace (8 + (M + 2 ^ 64)) with (8 + M + 1 * 2 ^ 64) by lia.
               rewrite Z_mod_plus_full. symmetry. apply Z.mod_small. lia. }
           flag (8 + M <=? c + ret).
           eexists _, _. split; [reflexivity|]. split; [reflexivity|exact Hlog].
      * int_small. unfold sizeof_header.
        flag (8 + M <=? c + ret).
        -- eexists _, _. split; [reflexivity|]. split; [reflexivity|exact Hlog].
        -- flag (c + ret =? 8).
           destruct (recv_loop_payload_safe cap M ltac:(lia) ltac:(lia) fuel 0
                       hdr2 buf log2 s1) as (r & st' & Hst' & Hl & Hlog').
           ++ lia.
           ++ lia.
           ++ symmetry. exact HMdef.
           ++ exact Hbuf.
           ++ exists r, st'. split; [|split; [exact Hl|rewrite Hlog'; exact Hlog]].
              rewrite <- Hst'. f_equal. f_equal; lia.
    + replace (to_size_t (sizeof_header - to_size_t (c + ret))) with (8 - (c + ret))
        by (int_small; reflexivity).
      apply IH; [lia | unfold sizeof_header in *; lia | exact Hw].
Qed.

(** Whatever arrives on the socket, [tcp_recv_message] returns and leaves the
    size of the caller's buffer as it is. *)
Theorem tcp_recv_message_no_overrun (s : list recv_event) (buf : list byte) (cap : Z) :
  0 <= cap <= INT_MAX - 8 -> Z.of_nat (length buf) = cap ->
  exists r buf' logged s',
    tcp_recv_message s buf cap = Some (r, buf', logged, s') /\
    length buf' = length buf /\
    (logged = [] \/
     exists len ix, cap < len /\ logged = [invalid_header_log len ix]).
Proof.
  intros Hcap Hbuf. unfold tcp_recv_message, recv_init.
  destruct (recv_loop_header_any cap buf Hcap Hbuf (S (sock_measure s)) 0
              (repeat Byte.x00 8) [] s) as (r & st' & Heq & Hl & Hlog);
    [lia | lia | reflexivity |].
  change (8 - 0) with sizeof_header in Heq. rewrite Heq.
  exists r, (buffer st'), (rlog st'), (rsock st').
  split; [reflexivity|]. split; [exact Hl|]. exact Hlog.
Qed.

Lemma tcp_recv_message_no_overrun_witness :
  exists r buf' logged s',
    tcp_recv_message oversize_stream (repeat Byte.x00 4) 4 = Some (r, buf', logged, s') /\
    length buf' = 4%nat.
Proof.
  destruct (tcp_recv_message_no_overrun oversize_stream (repeat Byte.x00 4) 4)
    as (r & buf' & logged & s' & H & Hl & _).
  - unfold INT_MAX. lia.
  - reflexivity.
  - exists r, buf', logged, s'. split; [exact H|exact Hl].
Defined.

(** ** [tcp_create_socket] *)

(** [tcp_create_socket] gives the descriptor only when every call succeeded,
    and closes it when a later call failed. *)
Theorem tcp_create_socket_no_leak (os : create_calls) (portno : Z) :
  let ret := fst (tcp_create_socket os portno) in
  let evs := snd (tcp_create_socket os portno) in
  let all_ok :=
    0 <= r_socket os /\ (0 < portno -> 0 <= r_bind os) /\ 0 <= r_fcntl os /\
    0 <= r_getsockopt_rcv os /\ 0 <= r_getsockopt_snd os /\
    (0 < portno -> 0 <= r_listen os) in
  (all_ok ->
   ret = r_socket os /\ exists fmt args, evs = [EvLog PRINT_SOCKET fmt args]) /\
  (~ all_ok ->
   ret = -1 /\
   exists fmt,
     evs = EvLog PRINT_ERROR fmt []
           :: (if r_socket os <? 0 then [] else [EvClose (r_socket os)])) /\
  (portno <= 0 ->
   forall b l,
     tcp_create_socket
       {| r_socket := r_socket os; r_bind := b; r_fcntl := r_fcntl os;
          r_getsockopt_rcv := r_getsockopt_rcv os;
          r_getsockopt_snd := r_getsockopt_snd os; r_listen := l;
          rcv_bufsize := rcv_bufsize os; snd_bufsize := snd_bufsize os;
          create_errno := create_errno os |} portno
     = tcp_create_socket os portno).
Proof.
  cbv zeta. unfold tcp_create_socket. cbn [r_socket r_bind r_fcntl r_getsockopt_rcv
    r_getsockopt_snd r_listen rcv_bufsize snd_bufsize].
  destruct (r_socket os <? 0) eqn:E1;
    [apply Z.ltb_lt in E1 | apply Z.ltb_ge in E1].
  { split; [intros (H & _); lia|]. split; [|reflexivity].
    intros _. split; [reflexivity|]. eexists. reflexivity. }
  destruct (0 <? portno) eqn:Ep; [apply Z.ltb_lt in Ep | apply Z.ltb_ge in Ep];
    cbn [andb];
    repeat match goal with
      | |- context [?a <? 0] =>
          let E := fresh "E" in
          destruct (a <? 0) eqn:E; [apply Z.ltb_lt in E | apply Z.ltb_ge in E]
      end;
    (split; [|split]);
    try (intros; lia);
    try (intros; reflexivity);
    try (intros (? & ? & ? & ? & ? & ?); lia);
    try (intros _; split; [reflexivity|]; eexists; reflexivity);
    try (intros _; split; [reflexivity|]; eexists _, _; reflexivity);
    try (intros Hn; exfalso; apply Hn; repeat split; intros; lia).
Qed.

(** ** [fini_connections] *)

Lemma fini_connections_fold (reg : list tConnectStc) :
  NoDup (map destport reg) -> Forall (fun c => 0 <= sockfd c) reg ->
  forall srv socks tr,
    fold_left rem_connection (map destport reg)
      {| first_conn_req := reg; first_conn_srv := srv; sockets := socks; trace := tr |}
    = fini_connections
        {| first_conn_req := reg; first_conn_srv := srv; sockets := socks; trace := tr |}.
Proof.
  induction reg as [|c reg IH]; intros Hnd Hfd srv socks tr.
  - unfold fini_connections, emit, set_registry. simpl. rewrite app_nil_r. reflexivity.
  - inversion Hnd as [|? ? Hnotin Hnd']; subst. inversion Hfd as [|? ? Hc Hfd']; subst.
    cbn [map fold_left].
    assert (Hrem :
      rem_connection
        {| first_conn_req := c :: reg; first_conn_srv := srv; sockets := socks;
           trace := tr |} (destport c)
      = {| first_conn_req := reg; first_conn_srv := srv; sockets := socks;
           trace := tr ++ [EvLog PRINT_OTHER "closing and removing connection to port %u"
                             [ArgInt (destport c)];
                           EvClose (sockfd c); EvFreeConnection c] |}).
    { unfold rem_connection. cbn [first_conn_req unlink]. rewrite Z.eqb_refl.
      destruct (0 <=? sockfd c) eqn:E; [|apply Z.leb_gt in E; lia].
      reflexivity. }
    rewrite Hrem, (IH Hnd' Hfd').
    unfold fini_connections, emit, set_registry. cbn [first_conn_req first_conn_srv sockets trace flat_map].
    rewrite <- app_assoc. reflexivity.
Qed.

(** [fini_connections] does to every entry, in link order, what
    [rem_connection] does for its port. *)
Theorem fini_connections_removes_each (w : world) :
  NoDup (map destport (first_conn_req w)) ->
  Forall (fun c => 0 <= sockfd c) (first_conn_req w) ->
  fini_connections w = fold_left rem_connection (map destport (first_conn_req w)) w /\
  first_conn_req (fini_connections w) = [] /\
  (forall port, find_connection (first_conn_req (fini_connections w)) port = None) /\
  (forall e b, ~ In (EvFreeEntry e) (skipn (length (trace w)) (trace (fini_connections w))) /\
               ~ In (EvFreeBuffer b) (skipn (length (trace w)) (trace (fini_connections w)))).
Proof.
  intros Hnd Hfd. split; [|split; [|split]].
  - destruct w as [reg srv socks tr]. symmetry. apply fini_connections_fold; assumption.
  - reflexivity.
  - intros port. reflexivity.
  - intros e b. unfold fini_connections, emit. cbn [trace set_registry].
    rewrite skipn_app, skipn_all, Nat.sub_diag. cbn [app skipn].
    split; intros Hin; apply in_flat_map in Hin as (c & _ & Hin); simpl in Hin;
      intuition discriminate.
Qed.

Lemma fini_connections_removes_each_witness :
  fini_connections (world_two [])
  = fold_left rem_connection [9001; 9002] (world_two []).
Proof.
  refine (proj1 (fini_connections_removes_each (world_two []) _ _)).
  - simpl. repeat constructor; simpl; intuition discriminate.
  - simpl. repeat constructor; simpl; unfold conn_9001, conn_9002; simpl; lia.
Defined.

(** ** The send queues of the dispatcher *)
























(** ** The send queue as a FIFO *)

Lemma enqueue_all_app msgs : forall q,
  enqueue_all q msgs
  = q ++ map (fun m => {| b_msgix := fst m; b_msglen := None; b_buffer := Some (snd m) |})
           msgs.
Proof.
  unfold enqueue_all.
  induction msgs as [|m msgs IH]; intros q; cbn [fold_left map].
  - rewrite app_nil_r. reflexivity.
  - rewrite IH. cbn [add_message negb fst snd]. rewrite <- app_assoc. reflexivity.
Qed.

Lemma dequeue_skipn k : forall q, dequeue k q = skipn k q.
Proof.
  unfold dequeue. induction k as [|k IH]; intros q; [reflexivity|].
  rewrite Nat.iter_succ_r, IH. destruct q as [|e q]; [|reflexivity].
  cbn [rem_message fst]. destruct k; reflexivity.
Qed.

Lemma hd_skipn_map {A B} (f : A -> B) k : forall l,
  hd_error (skipn k (map f l)) = option_map f (nth_error l k).
Proof.
  induction k as [|k IH]; intros [|a l]; try reflexivity. cbn [map skipn nth_error]. apply IH.
Qed.

(** The send queue is first in, first out, and a failed [add_message] leaves
    it as it was. *)
Theorem send_queue_fifo (msgs : list (Z * list byte)) :
  let entry m := {| b_msgix := fst m; b_msglen := None; b_buffer := Some (snd m) |} in
  let q := enqueue_all [] msgs in
  (forall k,
     get_message (dequeue k q)
     = (option_map entry (nth_error msgs k), dequeue k q, [])) /\
  dequeue (length msgs) q = [] /\
  (forall q0 ix buffer entry_ok buffer_ok,
     buffer = None \/ entry_ok = false \/ buffer_ok = false ->
     fst (fst (add_message entry_ok buffer_ok q0 ix buffer)) = -1 /\
     snd (fst (add_message entry_ok buffer_ok q0 ix buffer)) = q0).
Proof.
  intros entry q.
  assert (Hq : q = map entry msgs) by (unfold q; rewrite enqueue_all_app; reflexivity).
  split; [|split].
  - intros k. rewrite dequeue_skipn, Hq, <- hd_skipn_map.
    assert (Hb : Forall (fun e => b_buffer e <> None) (skipn k (map entry msgs))).
    { apply Forall_forall. intros e He.
      assert (Hin : In e (map entry msgs))
        by (rewrite <- (firstn_skipn k (map entry msgs)); apply in_or_app; right; exact He).
      apply in_map_iff in Hin as (m & <- & _). discriminate. }
    destruct Hb as [|e l He _]; [reflexivity|].
    cbn [get_message hd_error]. destruct (b_buffer e); [reflexivity|contradiction].
  - rewrite dequeue_skipn, Hq. apply skipn_all2. rewrite length_map. lia.
  - intros q0 ix buffer entry_ok buffer_ok H. unfold add_message.
    destruct buffer as [b|]; [|auto].
    destruct entry_ok; [|auto]. destruct buffer_ok; [|auto].
    destruct H as [H|[H|H]]; discriminate.
Qed.

(** ** The backlog of a connection *)






(** ** The read section *)

Lemma tcp_recv_message_frame (P buf : list byte) (ix cap : Z) (s s' : list recv_event) :
  Z.of_nat (length P) <= cap -> cap <= INT_MAX - 8 ->
  - 2 ^ 31 <= ix < 2 ^ 31 ->
  arrives s (8 + length P) = Some (frame P ix, s') ->
  tcp_recv_message s buf cap = Some (RECV_COMPLETE, P ++ skipn (length P) buf, [], s').
Proof.
  intros HP Hcap Hix Harr. unfold frame in Harr.
  set (h := {| h_msglen := Z.of_nat (length P); h_msgix := ix |}) in *.
  assert (Hnoclamp : (cap <? h_msglen h) = false) by (apply Z.ltb_ge; simpl; lia).
  assert (H1 : 0 <= cap <= INT_MAX - 8) by lia.
  assert (H2 : - 2 ^ 31 <= h_msglen h < 2 ^ 31) by (simpl; unfold INT_MAX in *; lia).
  assert (H3 : Z.of_nat (length P) = if cap <? h_msglen h then cap else h_msglen h)
    by (rewrite Hnoclamp; reflexivity).
  destruct (recv_loop_header cap h P buf s' H1 H2 Hix H3 (S (sock_measure s)) 0%nat
              (repeat Byte.x00 8) [] s ltac:(lia) ltac:(lia) eq_refl Harr)
    as (st' & Heq & Hb & Hl & Hs).
  unfold tcp_recv_message.
  change (recv_init s buf) with
    {| header := firstn 0 (header_bytes h) ++ repeat Byte.x00 8; buffer := buf;
       recv_count := Z.of_nat 0; iov_base := IovHeader (Z.of_nat 0);
       iov_len := Z.of_nat (8 - 0); rlog := []; rsock := s |}.
  rewrite Heq, Hb, Hl, Hs. unfold clamp_log. rewrite Hnoclamp. reflexivity.
Qed.




Lemma term_index_text P rest limit :
  Forall (fun b => 32 <= char_value b) P -> (length P <= limit)%nat ->
  term_index (P ++ Byte.x00 :: rest) limit = length P.
Proof.
  intros HP. revert limit. induction HP as [|b P Hb _ IH]; intros limit Hl.
  - destruct limit; reflexivity.
  - destruct limit as [|limit]; [simpl in Hl; lia|].
    cbn [app term_index length].
    destruct (char_value b <? 32) eqn:E; [apply Z.ltb_lt in E; lia|].
    rewrite IH by (simpl in Hl; lia). reflexivity.
Qed.

Lemma remove_term_text P rest :
  Forall (fun b => 32 <= char_value b) P ->
  Z.of_nat (length P) <= MAX_MESSAGE_LEN ->
  remove_term (P ++ Byte.x00 :: rest) (MAX_MESSAGE_LEN + 1) = P ++ Byte.x00 :: rest.
Proof.
  intros HP HL. unfold remove_term.
  change (MAX_MESSAGE_LEN + 1 <? 2) with false. cbv iota.
  rewrite term_index_text by (try exact HP; unfold MAX_MESSAGE_LEN in *; lia).
  unfold write_at. rewrite Nat2Z.id.
  rewrite firstn_app_exact by reflexivity.
  replace (length P + length [Byte.x00])%nat with (length (P ++ [Byte.x00]))
    by (rewrite length_app; reflexivity).
  replace (P ++ Byte.x00 :: rest) with ((P ++ [Byte.x00]) ++ rest) at 1
    by (rewrite <- app_assoc; reflexivity).
  rewrite skipn_app_exact by reflexivity. reflexivity.
Qed.




(** ** The send loop of the worker *)

Lemma wrap_int_succ a : wrap_int (wrap_int a + 1) = wrap_int (a + 1).
Proof.
  unfold wrap_int.
  replace ((a + 2 ^ 31) mod 2 ^ 32 - 2 ^ 31 + 1 + 2 ^ 31)
    with ((a + 2 ^ 31) mod 2 ^ 32 + 1) by lia.
  rewrite Zplus_mod_idemp_l. f_equal. f_equal. lia.
Qed.

Lemma wrap_int_add a (n : nat) :
  Nat.iter n (fun x => wrap_int (x + 1)) a
  = match n with O => a | S _ => wrap_int (a + Z.of_nat n) end.
Proof.
  induction n as [|n IH]; [reflexivity|].
  rewrite Nat.iter_succ, IH. destruct n as [|n].
  - reflexivity.
  - rewrite wrap_int_succ. f_equal. lia.
Qed.

Lemma tcp_send_message_frame (sender : socket) (P : list byte) (ix : Z) r rest :
  Z.of_nat (length P) <= INT_MAX - 8 ->
  outbound sender = r :: rest -> send_ret r = 8 + Z.of_nat (length P) ->
  tcp_send_message sender P (strlen P) ix
  = (SEND_COMPLETE,
     {| inbound := inbound sender; outbound := rest;
        wire := wire sender ++ frame P ix |}).
Proof.
  intros HP Hout Hret.
  assert (Hs : strlen P = Z.of_nat (length P))
    by (unfold strlen; apply wrap_int_small; unfold INT_MAX in *; lia).
  rewrite Hs. unfold tcp_send_message, sendmsg. rewrite Hout.
  cbv beta iota zeta. rewrite Hret.
  rewrite (wrap_int_small (8 + Z.of_nat (length P))) by (unfold INT_MAX in *; lia).
  destruct (0 <? 8 + Z.of_nat (length P)) eqn:E; [|apply Z.ltb_ge in E; lia].
  f_equal. f_equal. f_equal. unfold frame.
  rewrite to_size_t_small by (unfold INT_MAX in *; lia).
  rewrite Nat2Z.id, firstn_all.
  apply firstn_all2. rewrite length_app, length_header_bytes. lia.
Qed.

Lemma child_send_queue_all (clientsock client_port : Z) : forall q ch,
  Forall2 (fun e r => exists b, b_buffer e = Some b /\
                                Z.of_nat (length b) <= INT_MAX - 8 /\
                                send_ret r = 8 + Z.of_nat (length b))
    q (firstn (length q) (outbound (Worker.sock ch))) ->
  let ch' := Worker.child_send_queue q ch clientsock client_port in
  (q <> [] -> Worker.firstmsg ch' = []) /\
  wire (Worker.sock ch') = wire (Worker.sock ch) ++ echoed_frames (Worker.send_count ch) q /\
  outbound (Worker.sock ch') = skipn (length q) (outbound (Worker.sock ch)) /\
  inbound (Worker.sock ch') = inbound (Worker.sock ch) /\
  Worker.send_count ch'
  = Nat.iter (length q) (fun x => wrap_int (x + 1)) (Worker.send_count ch) /\
  Worker.recv_count ch' = Worker.recv_count ch /\
  Worker.running ch' = Worker.running ch.
Proof.
  induction q as [|e q IH]; intros ch Hall ch'.
  - subst ch'. cbn [Worker.child_send_queue echoed_frames length skipn Nat.iter].
    rewrite app_nil_r. repeat split; auto; congruence.
  - cbn [length firstn] in Hall.
    destruct (outbound (Worker.sock ch)) as [|r rs] eqn:Hout; [inversion Hall|].
    apply Forall2_cons_iff in Hall as [(b & Hb & Hlen & Hret) Hall].
    subst ch'. cbn [Worker.child_send_queue]. rewrite Hb.
    rewrite (tcp_send_message_frame (Worker.sock ch) b _ r rs Hlen Hout Hret).
    match goal with |- context [Worker.child_send_queue q ?c1 _ _] => set (ch1 := c1) end.
    specialize (IH ch1). cbn [ch1 Worker.sock outbound] in IH.
    specialize (IH Hall). cbv zeta in IH.
    destruct IH as (Hq & Hw & Ho & Hi & Hsc & Hrc & Hrun).
    split; [|split; [|split; [|split; [|split; [|split]]]]].
    + intros _. destruct q as [|e' q']; [reflexivity|]. apply Hq. discriminate.
    + rewrite Hw. cbn [ch1 Worker.sock wire Worker.send_count echoed_frames].
      rewrite Hb, app_assoc. reflexivity.
    + rewrite Ho. reflexivity.
    + rewrite Hi. reflexivity.
    + rewrite Hsc. cbn [ch1 Worker.send_count length]. rewrite Nat.iter_succ_r. reflexivity.
    + rewrite Hrc. reflexivity.
    + rewrite Hrun. reflexivity.
Qed.

(** When no send blocks or fails, the worker's send loop empties the queue
    and puts the messages on the wire in queue order, numbered on from
    [send_count]. *)
Theorem worker_sends_queue_in_order (ch : Worker.child) (clientsock client_port : Z) :
  Forall2 (fun e r => exists b, b_buffer e = Some b /\
                                Z.of_nat (length b) <= INT_MAX - 8 /\
                                send_ret r = 8 + Z.of_nat (length b))
    (Worker.firstmsg ch)
    (firstn (length (Worker.firstmsg ch)) (outbound (Worker.sock ch))) ->
  let n := length (Worker.firstmsg ch) in
  let ch' := Worker.child_send ch clientsock client_port in
  Worker.firstmsg ch' = [] /\
  wire (Worker.sock ch')
  = wire (Worker.sock ch) ++ echoed_frames (Worker.send_count ch) (Worker.firstmsg ch) /\
  outbound (Worker.sock ch') = skipn n (outbound (Worker.sock ch)) /\
  Worker.send_count ch'
  = match n with O => Worker.send_count ch
    | S _ => wrap_int (Worker.send_count ch + Z.of_nat n) end /\
  Worker.running ch' = Worker.running ch.
Proof.
  intros Hall n ch'.
  destruct (child_send_queue_all clientsock client_port (Worker.firstmsg ch) ch Hall)
    as (Hq & Hw & Ho & _ & Hsc & _ & Hrun).
  split; [|split; [|split; [|split]]].
  - unfold ch', Worker.child_send.
    destruct (Worker.firstmsg ch) as [|e q] eqn:E; [simpl; exact E|].
    apply Hq. discriminate.
  - exact Hw.
  - exact Ho.
  - unfold ch', Worker.child_send. rewrite Hsc. apply wrap_int_add.
  - exact Hrun.
Qed.

Lemma worker_sends_queue_in_order_witness :
  wire (Worker.sock (Worker.child_send child_ready 4 9000))
  = frame msg_A 1 ++ frame msg_B 2.
Proof.
  refine (eq_trans (proj1 (proj2 (worker_sends_queue_in_order child_ready 4 9000 _))) _).
  - repeat constructor; eexists; (split; [reflexivity|]); split; try reflexivity;
      unfold INT_MAX; simpl; lia.
  - reflexivity.
Defined.


(** ** One round of the worker *)

Lemma remove_term_c_string buffer size :
  2 <= size -> size <= Z.of_nat (length buffer) ->
  c_string (remove_term buffer size)
  = firstn (term_index buffer (Z.to_nat (size - 1))) buffer.
Proof.
  intros H2 HL. rewrite (remove_term_shape buffer size H2 HL).
  apply c_string_prefix. apply term_index_prefix.
Qed.

(** One round of the worker: a frame comes in, its message goes out. *)
Lemma child_round_echo (os : Worker.round_calls) (ch : Worker.child)
    (procid clientsock client_port : Z) (P : list byte) (ix : Z)
    (s' : list recv_event) (r : sendmsg_result) (rest : list sendmsg_result) :
  Worker.running ch = true -> Worker.firstmsg ch = [] ->
  0 < Worker.select_ret os -> Worker.select_readable os = true ->
  Worker.response_malloc os = true -> Worker.qentry_malloc os = true ->
  Z.of_nat (length P) <= MAX_MESSAGE_LEN + 1 -> - 2 ^ 31 <= ix < 2 ^ 31 ->
  arrives (inbound (Worker.sock ch)) (8 + length P) = Some (frame P ix, s') ->
  let cleared := repeat Byte.x00 (Z.to_nat (MAX_MESSAGE_LEN + 1)) in
  let text := c_string (remove_term (P ++ skipn (length P) cleared) (MAX_MESSAGE_LEN + 1)) in
  outbound (Worker.sock ch) = r :: rest -> send_ret r = 8 + Z.of_nat (length text) ->
  exists ch',
     Worker.child_round os ch procid clientsock client_port = Some ch' /\
     wire (Worker.sock ch')
     = wire (Worker.sock ch) ++ frame text (wrap_int (Worker.send_count ch + 1)) /\
     inbound (Worker.sock ch') = s' /\
     outbound (Worker.sock ch') = rest /\
     Worker.firstmsg ch' = [] /\
     Worker.recv_count ch' = wrap_int (Worker.recv_count ch + 1) /\
     Worker.send_count ch' = wrap_int (Worker.send_count ch + 1) /\
     Worker.running ch' = true.
Proof.
  intros Hrun Hq Hsel Hread Hm1 Hm2 HP Hix Harr cleared text Hout Hret.
  subst cleared. set (cleared := repeat Byte.x00 (Z.to_nat (MAX_MESSAGE_LEN + 1))) in *.
  assert (Hbuf : Z.of_nat (length (P ++ skipn (length P) cleared)) = MAX_MESSAGE_LEN + 1).
  { rewrite length_app, length_skipn. unfold cleared. rewrite repeat_length.
    unfold MAX_MESSAGE_LEN in *. lia. }
  assert (Htext : Z.of_nat (length text) <= MAX_MESSAGE_LEN).
  { unfold text. rewrite remove_term_c_string by (unfold MAX_MESSAGE_LEN in *; lia).
    rewrite length_firstn.
    pose proof (term_index_bound (P ++ skipn (length P) cleared)
                  (Z.to_nat (MAX_MESSAGE_LEN + 1 - 1))) as [B _].
    unfold MAX_MESSAGE_LEN in *. lia. }
  unfold Worker.child_round, Worker.child_recv.
  destruct (Worker.select_ret os <? 0) eqn:E1; [apply Z.ltb_lt in E1; lia|].
  destruct (Worker.select_ret os =? 0) eqn:E2; [apply Z.eqb_eq in E2; lia|].
  rewrite Hread. fold cleared.
  rewrite (tcp_recv_message_frame P cleared ix (MAX_MESSAGE_LEN + 1) _ s' HP
             ltac:(unfold MAX_MESSAGE_LEN, INT_MAX; lia) Hix Harr).
  unfold Worker.child_enqueue. rewrite Hm1, Hm2. cbn [negb].
  fold text.
  cbn [Worker.received Worker.firstmsg Worker.sock Worker.send_count Worker.recv_count
         Worker.running Worker.ctrace].
  rewrite Hrun, Hq. cbn [app].
  eexists. split; [reflexivity|].
  unfold Worker.child_send. cbn [Worker.firstmsg]. rewrite Hout.
  match goal with |- context [Worker.child_send_queue ?q ?c _ _] =>
    set (ch1 := c); set (q1 := q) end.
  destruct (child_send_queue_all clientsock client_port q1 ch1)
    as (Hq' & Hw & Ho & Hi & Hsc & Hrc & Hrun').
  { change (firstn (length q1) (outbound (Worker.sock ch1))) with [r].
    constructor; [|constructor]. exists text. cbn [b_buffer].
    split; [reflexivity|]. split; [|exact Hret].
    unfold MAX_MESSAGE_LEN, INT_MAX in *. lia. }
  split; [|split; [|split; [|split; [|split; [|split]]]]].
  + rewrite Hw. unfold q1. cbn [echoed_frames b_buffer]. rewrite app_nil_r. reflexivity.
  + exact Hi.
  + rewrite Ho. reflexivity.
  + apply Hq'. discriminate.
  + exact Hrc.
  + rewrite Hsc. reflexivity.
  + exact Hrun'.
Qed.

(** One round of the worker echoes the message it receives. *)
Theorem worker_echoes_message (os : Worker.round_calls) (ch : Worker.child)
    (procid clientsock client_port : Z) (P : list byte) (ix : Z)
    (s' : list recv_event) (r : sendmsg_result) (rest : list sendmsg_result) :
  Worker.running ch = true -> Worker.firstmsg ch = [] ->
  0 < Worker.select_ret os -> Worker.select_readable os = true ->
  Worker.response_malloc os = true -> Worker.qentry_malloc os = true ->
  Z.of_nat (length P) <= MAX_MESSAGE_LEN + 1 -> - 2 ^ 31 <= ix < 2 ^ 31 ->
  arrives (inbound (Worker.sock ch)) (8 + length P) = Some (frame P ix, s') ->
  let cleared := repeat Byte.x00 (Z.to_nat (MAX_MESSAGE_LEN + 1)) in
  let text := c_string (remove_term (P ++ skipn (length P) cleared) (MAX_MESSAGE_LEN + 1)) in
  outbound (Worker.sock ch) = r :: rest -> send_ret r = 8 + Z.of_nat (length text) ->
  (exists ch',
     Worker.child_round os ch procid clientsock client_port = Some ch' /\
     wire (Worker.sock ch')
     = wire (Worker.sock ch) ++ frame text (wrap_int (Worker.send_count ch + 1)) /\
     inbound (Worker.sock ch') = s' /\
     outbound (Worker.sock ch') = rest /\
     Worker.firstmsg ch' = [] /\
     Worker.recv_count ch' = wrap_int (Worker.recv_count ch + 1) /\
     Worker.send_count ch' = wrap_int (Worker.send_count ch + 1) /\
     Worker.running ch' = true) /\
  (Forall (fun b => 32 <= byte.unsigned b <= 127) P ->
   Z.of_nat (length P) <= MAX_MESSAGE_LEN -> text = P).
Proof.
  intros Hrun Hq Hsel Hread Hm1 Hm2 HP Hix Harr cleared text Hout Hret.
  subst cleared. set (cleared := repeat Byte.x00 (Z.to_nat (MAX_MESSAGE_LEN + 1))) in *.
  split.
  - exact (child_round_echo os ch procid clientsock client_port P ix s' r rest
             Hrun Hq Hsel Hread Hm1 Hm2 HP Hix Harr Hout Hret).
  - intros Hprint HL.
    assert (Hp : Forall (fun b => 32 <= char_value b) P).
    { eapply Forall_impl; [|exact Hprint]. intros b Hb. apply char_value_printable. exact Hb. }
    unfold text.
    assert (Hc : cleared = repeat Byte.x00 (length P)
                           ++ Byte.x00 :: repeat Byte.x00 (255 - length P)).
    { unfold cleared. change (Z.to_nat (MAX_MESSAGE_LEN + 1)) with 256%nat.
      replace 256%nat with (length P + S (255 - length P))%nat
        by (unfold MAX_MESSAGE_LEN in HL; lia).
      rewrite repeat_app. reflexivity. }
    rewrite Hc, skipn_app_exact by apply repeat_length.
    rewrite remove_term_text by assumption.
    apply c_string_prefix. exact Hp.
Qed.

Lemma worker_echoes_message_witness :
  exists ch',
    Worker.child_round round_ready child_listening 77 4 9000 = Some ch' /\
    wire (Worker.sock ch') = frame msg_A 1.
Proof.
  destruct (worker_echoes_message round_ready child_listening 77 4 9000 msg_A 1 []
              {| send_ret := 9; send_errno := 0 |} [])
    as [(ch' & Hr & Hw & _) _]; try reflexivity; try (simpl; lia).
  exists ch'. split; [exact Hr|]. rewrite Hw. reflexivity.
Defined.


(** ** The list of worker processes *)












Lemma unlink_server_spec pid srv :
  match unlink_server pid srv with
  | Some (s, rest) =>
      exists before after,
        srv = before ++ s :: after /\ rest = before ++ after /\ srv_pid s = pid /\
        ~ In pid (map srv_pid before)
  | None => ~ In pid (map srv_pid srv)
  end.
Proof.
  induction srv as [|x srv IH]; cbn [unlink_server]; [intros []|].
  destruct (srv_pid x =? pid) eqn:E; [apply Z.eqb_eq in E | apply Z.eqb_neq in E].
  - exists [], srv. simpl. auto.
  - destruct (unlink_server pid srv) as [[s rest]|].
    + destruct IH as (before & after & -> & -> & Hp & Hn).
      exists (x :: before), after. simpl. repeat split; auto.
      intros [H|H]; auto.
    + simpl. intros [H|H]; auto.
Qed.

Lemma unlink_server_first pid before s after :
  srv_pid s = pid -> ~ In pid (map srv_pid before) ->
  unlink_server pid (before ++ s :: after) = Some (s, before ++ after).
Proof.
  intros Hp Hnb. induction before as [|b before IH]; cbn [app unlink_server].
  - apply Z.eqb_eq in Hp. rewrite Hp. reflexivity.
  - destruct (srv_pid b =? pid) eqn:E.
    + apply Z.eqb_eq in E. exfalso. apply Hnb. now left.
    + rewrite IH; [reflexivity|]. intros H. apply Hnb. now right.
Qed.

(** [rem_server_link] takes out the first entry of the process, and only
    reports when there is none. *)
Theorem rem_server_link_first (srv : list tServerStc) (pid : Z) :
  (~ In pid (map srv_pid srv) ->
   rem_server_link srv pid
   = (srv, [SrvLog PRINT_ERROR "pid %d connection not found in server list"
              [ArgInt pid]])) /\
  (In pid (map srv_pid srv) ->
   exists before s after,
     srv = before ++ s :: after /\ srv_pid s = pid /\
     ~ In pid (map srv_pid before) /\
     rem_server_link srv pid = (before ++ after, [SrvFree s])) /\
  (forall w port,
     first_conn_srv w = srv ->
     let added := first_conn_srv (add_server_link true w pid port) in
     let new := {| srv_valid := true; srv_pid := pid; srv_port := port |} in
     added = srv ++ [new] /\
     (~ In pid (map srv_pid srv) -> rem_server_link added pid = (srv, [SrvFree new])) /\
     (In pid (map srv_pid srv) ->
      exists old, In old srv /\ rem_server_link added pid
                               = (fst (rem_server_link srv pid) ++ [new], [SrvFree old]))).
Proof.
  pose proof (unlink_server_spec pid srv) as Hspec.
  split; [|split].
  - intros Hn. unfold rem_server_link.
    destruct (unlink_server pid srv) as [[s rest]|]; [|reflexivity].
    destruct Hspec as (before & after & -> & _ & Hp & _).
    exfalso. apply Hn. rewrite map_app. apply in_or_app. right. left. exact Hp.
  - intros Hin. unfold rem_server_link.
    destruct (unlink_server pid srv) as [[s rest]|]; [|contradiction].
    destruct Hspec as (before & after & -> & -> & Hp & Hn).
    exists before, s, after. auto.
  - intros w port Hw added new.
    assert (Ha : added = srv ++ [new]) by (unfold added; simpl; rewrite Hw; reflexivity).
    split; [exact Ha|]. rewrite Ha. clear Ha added.
    pose proof (unlink_server_spec pid (srv ++ [new])) as Hspec'.
    unfold rem_server_link.
    split.
    + intros Hn.
      destruct (unlink_server pid (srv ++ [new])) as [[s rest]|].
      * destruct Hspec' as (before & after & Heq & -> & Hp & Hnb).
        assert (Hlast : before = srv /\ s = new /\ after = []).
        { destruct after as [|a after].
          - apply app_inj_tail in Heq as [-> ->]. auto.
          - exfalso. apply Hn.
            replace (before ++ s :: a :: after)
              with ((before ++ s :: removelast (a :: after)) ++ [last (a :: after) new])
              in Heq.
            2:{ rewrite <- app_assoc. cbn [app]. f_equal. f_equal.
                symmetry. apply app_removelast_last. discriminate. }
            apply app_inj_tail in Heq as [-> _].
            rewrite map_app. apply in_or_app. right. left. exact Hp. }
        destruct Hlast as (-> & -> & ->). rewrite app_nil_r. reflexivity.
      * exfalso. apply Hspec'. rewrite map_app. apply in_or_app. right. now left.
    + intros Hin.
      destruct (unlink_server pid srv) as [[s rest]|] eqn:Hu; [|contradiction].
      destruct Hspec as (before & after & -> & -> & Hp & Hnb).
      exists s. split; [apply in_or_app; right; now left|].
      assert (Hu' : unlink_server pid ((before ++ s :: after) ++ [new])
                    = Some (s, (before ++ after) ++ [new])).
      { rewrite <- !app_assoc. cbn [app].
        apply (unlink_server_first pid before s (after ++ [new]) Hp Hnb). }
      rewrite Hu'. reflexivity.
Qed.

Lemma set_connection_select_spec reg : forall set maxfd,
  match set_connection_select reg set maxfd with
  | Some (set', maxfd') =>
      Forall (fun c => 0 <= sockfd c < FD_SETSIZE) reg /\
      (forall fd, set' fd = true <-> set fd = true \/ In fd (map sockfd reg)) /\
      maxfd <= maxfd' /\ Forall (fun c => sockfd c <= maxfd') reg /\
      (maxfd' = maxfd \/ In maxfd' (map sockfd reg))
  | None => ~ Forall (fun c => 0 <= sockfd c < FD_SETSIZE) reg
  end.
Proof.
  induction reg as [|c reg IH]; intros set maxfd; cbn [set_connection_select].
  - split; [constructor|]. split; [intros fd; simpl; tauto|].
    split; [lia|]. split; [constructor|now left].
  - unfold FD_SET.
    destruct ((0 <=? sockfd c) && (sockfd c <? FD_SETSIZE)) eqn:E.
    + apply andb_true_iff in E as [E1 E2]. apply Z.leb_le in E1. apply Z.ltb_lt in E2.
      specialize (IH (fun x => (x =? sockfd c) || set x)
                     (if maxfd <? sockfd c then sockfd c else maxfd)).
      destruct (set_connection_select reg _ _) as [[set' maxfd']|].
      * destruct IH as (Hr & Hset & Hmax & Hall & Hin).
        assert (Hm : maxfd <= maxfd' /\ sockfd c <= maxfd').
        { destruct (maxfd <? sockfd c) eqn:Em;
            [apply Z.ltb_lt in Em | apply Z.ltb_ge in Em]; lia. }
        split; [constructor; [lia|exact Hr]|].
        split.
        { intros fd. rewrite Hset. cbn [map In].
          rewrite orb_true_iff, Z.eqb_eq. intuition auto. }
        split; [lia|]. split; [constructor; [lia|exact Hall]|].
        cbn [map In]. destruct Hin as [Hin|Hin]; [|auto].
        destruct (maxfd <? sockfd c); auto.
      * intros H. apply IH. now inversion H.
    + intros H. inversion H as [|? ? Hc _]; subst.
      apply andb_false_iff in E as [E|E];
        [apply Z.leb_gt in E | apply Z.ltb_ge in E]; lia.
Qed.

(** The descriptor sets that [main] gives to [select] hold the keyboard, the
    listening socket and every connection, and [max_descriptor] is the
    largest of them. *)
Theorem select_sets_cover (w : world) (serversock : Z) :
  let fds := map sockfd (first_conn_req w) in
  let in_range fd := 0 <= fd < FD_SETSIZE in
  (in_range serversock /\ Forall in_range fds ->
   exists read_set write_set max_descriptor,
     select_sets w serversock = Some (read_set, write_set, max_descriptor) /\
     (forall fd, read_set fd = true <->
                 fd = STDIN_FILENO \/ fd = serversock \/ In fd fds) /\
     (forall fd, write_set fd = true <-> In fd fds) /\
     Forall (fun fd => fd <= max_descriptor) (STDIN_FILENO :: serversock :: fds) /\
     In max_descriptor (serversock :: fds)) /\
  (~ (in_range serversock /\ Forall in_range fds) -> select_sets w serversock = None).
Proof.
  intros fds in_range. subst in_range. cbv beta. unfold select_sets.
  change (FD_SET STDIN_FILENO FD_ZERO) with (Some (fun x => (x =? STDIN_FILENO) || FD_ZERO x)).
  cbv iota beta.
  unfold FD_SET.
  destruct ((0 <=? serversock) && (serversock <? FD_SETSIZE)) eqn:E.
  2:{ split; [|reflexivity]. intros [[H1 H2] _].
      apply andb_false_iff in E as [E|E];
        [apply Z.leb_gt in E | apply Z.ltb_ge in E]; lia. }
  apply andb_true_iff in E as [E1 E2]. apply Z.leb_le in E1. apply Z.ltb_lt in E2.
  match goal with |- context [set_connection_select _ ?s serversock] =>
    pose proof (set_connection_select_spec (first_conn_req w) s serversock) as H1 end.
  destruct (set_connection_select (first_conn_req w) _ serversock)
    as [[read_set max1]|].
  2:{ split; [|reflexivity]. intros [_ Hall]. exfalso. apply H1.
      unfold fds in Hall. rewrite Forall_map in Hall. exact Hall. }
  destruct H1 as (Hr & Hset1 & Hmax1 & Hall1 & Hin1).
  pose proof (set_connection_select_spec (first_conn_req w) FD_ZERO max1) as H2.
  destruct (set_connection_select (first_conn_req w) FD_ZERO max1)
    as [[write_set max2]|]; [|contradiction].
  destruct H2 as (_ & Hset2 & Hmax2 & Hall2 & Hin2).
  split; [|intros Hn; exfalso; apply Hn; split; [lia|unfold fds; rewrite Forall_map; exact Hr]].
  intros _. exists read_set, write_set, max2.
  split; [reflexivity|]. split; [|split; [|split]].
  - intros fd. rewrite Hset1. rewrite !orb_true_iff, !Z.eqb_eq. unfold FD_ZERO.
    fold fds. split; intros H;
      [destruct H as [[H|[H|H]]|H] | destruct H as [H|[H|H]]]; auto; discriminate.
  - intros fd. rewrite Hset2. unfold FD_ZERO. fold fds.
    split; intros H; [destruct H as [H|H]|]; auto; discriminate.
  - constructor; [unfold STDIN_FILENO; lia|]. constructor; [lia|].
    unfold fds. rewrite Forall_map. exact Hall2.
  - fold fds in Hin1, Hin2. cbn [In].
    destruct Hin2 as [->|Hin2]; [|auto]. destruct Hin1 as [->|Hin1]; auto.
Qed.

(** ** [logmsg] and the keyboard *)

Lemma print_all_value : PRINT_ALL = 240.
Proof. reflexivity. Qed.

Lemma print_flags_selectable flag : forall value v invalid,
  Z.land value PRINT_ALL = value ->
  print_flags flag value = Some (v, invalid) ->
  Z.land v PRINT_ALL = v.
Proof.
  assert (Hor : forall a b, Z.land a PRINT_ALL = a -> Z.land b PRINT_ALL = b ->
                            Z.land (Z.lor a b) PRINT_ALL = Z.lor a b).
  { intros a b Ha Hb. rewrite Z.land_lor_distr_l, Ha, Hb. reflexivity. }
  induction flag as [|c flag IH]; intros value v invalid Hv; cbn [print_flags];
    [discriminate|].
  destruct (32 <? char_value c); [|intros [= <- _]; exact Hv].
  repeat match goal with
    | |- context [Byte.eqb c ?x] => destruct (Byte.eqb c x)
    end;
    try (apply IH; try apply Hor; try exact Hv; reflexivity).
  intros [= <- _]. exact Hv.
Qed.

Lemma land_selected a pf :
  Z.land a PRINT_ERROR = 0 -> Z.land a PRINT_WARNING = 0 -> Z.land a PRINT_QUERY = 0 ->
  Z.land a (Z.lor (Z.lor (Z.lor pf PRINT_ERROR) PRINT_WARNING) PRINT_QUERY) = Z.land a pf.
Proof.
  intros H1 H2 H3. rewrite !Z.land_lor_distr_r, H1, H2, H3, !Z.lor_0_r. reflexivity.
Qed.

Lemma land_always a pf :
  In a [PRINT_ERROR; PRINT_WARNING; PRINT_QUERY] ->
  Z.land a (Z.lor (Z.lor (Z.lor pf PRINT_ERROR) PRINT_WARNING) PRINT_QUERY) <> 0.
Proof.
  intros Ha H. rewrite !Z.land_lor_distr_r in H.
  apply Z.lor_eq_0_iff in H as [H H3]. apply Z.lor_eq_0_iff in H as [H H2].
  apply Z.lor_eq_0_iff in H as [_ H1].
  destruct Ha as [<-|[<-|[<-|[]]]]; discriminate.
Qed.

(** [logmsg] prints errors, warnings and query lines whatever [print_flag]
    holds, and the selectable categories exactly when their bit is set; with a
    [print_flag] made by the [p] command, status lines are not printed. *)
Theorem logmsg_selection (print_flag : Z) :
  logmsg print_flag PRINT_ERROR = Prefixed " ! ERROR : " /\
  logmsg print_flag PRINT_WARNING = Prefixed " ! WARN  : " /\
  logmsg print_flag PRINT_QUERY = Uninitialised /\
  (forall category,
     In category [PRINT_SENT; PRINT_RCVD; PRINT_SOCKET; PRINT_OTHER] ->
     (logmsg print_flag category = Suppressed <-> Z.land category print_flag = 0) /\
     (Z.land category print_flag <> 0 ->
      exists prefix, logmsg print_flag category = Prefixed prefix)) /\
  (forall flag invalid,
     print_flags flag 0 = Some (print_flag, invalid) ->
     Z.land print_flag PRINT_ALL = print_flag /\
     logmsg print_flag PRINT_STATUS = Suppressed).
Proof.
  split; [|split; [|split; [|split]]].
  - unfold logmsg. cbv zeta.
    destruct (Z.land PRINT_ERROR _ =? 0) eqn:E; [|reflexivity].
    apply Z.eqb_eq in E. apply land_always in E; [destruct E|simpl; auto].
  - unfold logmsg. cbv zeta.
    destruct (Z.land PRINT_WARNING _ =? 0) eqn:E; [|reflexivity].
    apply Z.eqb_eq in E. apply land_always in E; [destruct E|simpl; auto].
  - unfold logmsg. cbv zeta.
    destruct (Z.land PRINT_QUERY _ =? 0) eqn:E; [|reflexivity].
    apply Z.eqb_eq in E. apply land_always in E; [destruct E|simpl; auto].
  - intros category Hc. unfold logmsg. cbv zeta.
    rewrite land_selected by (destruct Hc as [<-|[<-|[<-|[<-|[]]]]]; reflexivity).
    destruct (Z.land category print_flag =? 0) eqn:E;
      [apply Z.eqb_eq in E | apply Z.eqb_neq in E].
    + split; [tauto|]. intros H. contradiction.
    + split.
      * split; [|intros H; contradiction].
        destruct Hc as [<-|[<-|[<-|[<-|[]]]]]; discriminate.
      * intros _. destruct Hc as [<-|[<-|[<-|[<-|[]]]]]; eexists; reflexivity.
  - intros flag invalid Hp.
    assert (Hsel : Z.land print_flag PRINT_ALL = print_flag)
      by (eapply print_flags_selectable; [|exact Hp]; reflexivity).
    split; [exact Hsel|]. unfold logmsg. cbv zeta.
    rewrite land_selected by reflexivity.
    rewrite <- Hsel, Z.land_assoc, (Z.land_comm PRINT_STATUS), <- Z.land_assoc.
    change (Z.land PRINT_ALL PRINT_STATUS) with 0. rewrite Z.land_0_r. reflexivity.
Qed.

Lemma userio_get_command_cases value buffer size input r :
  userio_get_command value buffer size input = Some r ->
  In (cmd r) [ACTION_INVALID; ACTION_QUIT; ACTION_ADD_ENDPOINT; ACTION_REM_ENDPOINT;
              ACTION_SEL_ENDPOINT; ACTION_DELAY; ACTION_TEST; ACTION_SET_PRINT_FLAG;
              ACTION_SHOW_CONNECTIONS] /\
  (cmd r = ACTION_SET_PRINT_FLAG ->
   exists v, cmd_value r = Some v /\ Z.land v PRINT_ALL = v).
Proof.
  unfold userio_get_command.
  destruct value as [v|], buffer as [buf|];
    try (intros [= <-]; cbn [cmd]; split; [simpl; auto|discriminate]).
  destruct (size =? 0); [intros [= <-]; cbn [cmd]; split; [simpl; auto|discriminate]|].
  destruct (fgets buf (wrap_int (size - 1)) input) as [buf1 rest].
  destruct (nth_error buf1 0) as [c0|]; [|discriminate].
  destruct (Byte.eqb c0 Byte.x23);
    [|intros [= <-]; cbn [cmd]; split; [simpl; auto 10|discriminate]].
  destruct (nth_error buf1 1) as [c1|]; [|discriminate].
  repeat match goal with
    | |- context [Byte.eqb c1 ?x] => destruct (Byte.eqb c1 x)
    end;
    try (intros [= <-]; cbn [cmd]; split; [simpl; auto 10|discriminate]);
    try (destruct (atoi (skipn 2 buf1)); [|discriminate];
         intros [= <-]; cbn [cmd]; split; [simpl; auto 10|discriminate]).
  destruct (print_flags (skipn 2 buf1) 0) as [[v' [bad|]]|] eqn:Hp; [| |discriminate];
    intros [= <-]; cbn [cmd cmd_value]; (split; [simpl; auto 10|]); intros _.
  - exists PRINT_ALL. split; reflexivity.
  - exists v'. split; [reflexivity|].
    eapply print_flags_selectable; [|exact Hp]. reflexivity.
Qed.

Lemma quiet_refl w : quiet w w.
Proof. split; reflexivity. Qed.

Lemma quiet_trans w1 w2 w3 : quiet w1 w2 -> quiet w2 w3 -> quiet w1 w3.
Proof. intros [A1 A2] [B1 B2]. split; congruence. Qed.

Lemma emit_quiet w evs : forallb (fun e => negb (is_send e)) evs = true -> quiet w (emit w evs).
Proof.
  intros H. split; [reflexivity|]. cbn [trace emit]. rewrite filter_app.
  replace (filter is_send evs) with (@nil event); [apply app_nil_r|].
  induction evs as [|e evs IH]; [reflexivity|].
  cbn [forallb] in H. apply andb_true_iff in H as [He H].
  cbn [filter]. destruct (is_send e); [discriminate|]. auto.
Qed.

Lemma set_registry_quiet w reg : quiet w (set_registry w reg).
Proof. split; reflexivity. Qed.

Lemma rem_connection_quiet w port : quiet w (rem_connection w port).
Proof.
  unfold rem_connection.
  destruct (unlink port (first_conn_req w)) as [[c reg']|].
  - eapply quiet_trans; [apply (set_registry_quiet w reg')|].
    apply emit_quiet. destruct (0 <=? sockfd c); reflexivity.
  - apply emit_quiet. reflexivity.
Qed.

Lemma add_connection_quiet os w port : quiet w (snd (add_connection os w port)).
Proof.
  unfold add_connection, tcp_create_socket, tcp_connect_to_server.
  repeat match goal with
    | |- context [match ?x with Some _ => _ | None => _ end] => destruct x
    | |- context [if ?b then _ else _] => destruct b
    end;
    cbn [snd];
    try (apply emit_quiet; reflexivity);
    try (eapply quiet_trans; [apply set_registry_quiet|apply emit_quiet; reflexivity]).
Qed.

Lemma show_queue_quiet q lines :
  show_queue q = Some lines -> forallb (fun e => negb (is_send e)) lines = true.
Proof.
  revert lines. induction q as [|e q IH]; intros lines; cbn [show_queue].
  - intros [= <-]. reflexivity.
  - destruct (b_buffer e); [|discriminate].
    destruct (show_queue q); [|discriminate].
    intros [= <-]. cbn [forallb is_send negb andb]. auto.
Qed.

Lemma show_connections_quiet unset reg lines :
  show_connections unset reg = Some lines ->
  forallb (fun e => negb (is_send e)) lines = true.
Proof.
  revert lines. induction reg as [|c reg IH]; intros lines; cbn [show_connections].
  - intros [= <-]. reflexivity.
  - destruct (show_queue (queue c)) as [l1|] eqn:Hq; [|discriminate].
    destruct (show_connections unset reg) as [l2|]; [|discriminate].
    intros [= <-]. cbn [forallb is_send negb andb].
    rewrite forallb_app, (show_queue_quiet _ _ Hq), (IH l2 eq_refl). reflexivity.
Qed.

Lemma show_all_connections_quiet unset w lines :
  show_all_connections unset w = Some lines ->
  forallb (fun e => negb (is_send e)) lines = true.
Proof.
  unfold show_all_connections.
  destruct (show_connections unset (first_conn_req w)) as [l|] eqn:Hs; [|discriminate].
  intros [= <-]. cbn [forallb is_send negb andb].
  rewrite forallb_app, (show_connections_quiet _ _ _ Hs). cbn [andb forallb is_send negb].
  unfold show_servers. apply forallb_forall. intros e He.
  apply in_flat_map in He as (s & _ & He). destruct (srv_valid s); [|destruct He].
  destruct He as [<-|[]]. reflexivity.
Qed.

Lemma handle_command_quiet os entry_ok buffer_ok unset m w command value buffer :
  In command [ACTION_INVALID; ACTION_QUIT; ACTION_ADD_ENDPOINT; ACTION_REM_ENDPOINT;
              ACTION_SEL_ENDPOINT; ACTION_DELAY; ACTION_TEST; ACTION_SET_PRINT_FLAG;
              ACTION_SHOW_CONNECTIONS] ->
  let o := handle_command os entry_ok buffer_ok unset m w command value buffer in
  (forall v m' w', o <> Package v m' w') /\ quiet w (section_world o).
Proof.
  intros Hc.
  destruct Hc as [<-|[<-|[<-|[<-|[<-|[<-|[<-|[<-|[<-|[]]]]]]]]]];
    unfold handle_command;
    match goal with
    | |- context [?a =? ACTION_QUIT] => cbn [Z.eqb Pos.eqb ACTION_INVALID ACTION_QUIT
        ACTION_SEND_MESSAGE ACTION_ADD_ENDPOINT ACTION_REM_ENDPOINT ACTION_SEL_ENDPOINT
        ACTION_DELAY ACTION_TEST ACTION_SET_PRINT_FLAG ACTION_SHOW_CONNECTIONS
        ACTION_TRANSPORT ACTION_HOHOHO]
    end; cbv zeta.
  - split; [discriminate|]. apply emit_quiet. reflexivity.
  - split; [discriminate|]. apply emit_quiet. reflexivity.
  - pose proof (add_connection_quiet os w value) as Hq.
    destruct (add_connection os w value) as [connection w']. split; [discriminate|exact Hq].
  - pose proof (rem_connection_quiet w value) as Hq.
    destruct (current_endpt m) as [p|]; [|split; [discriminate|exact Hq]].
    destruct (find_connection _ p) as [endpt|]; [|split; [discriminate|exact Hq]].
    destruct (destport endpt =? value); split; try discriminate; exact Hq.
  - destruct (find_connection _ value); (split; [discriminate|]);
      [apply quiet_refl|apply emit_quiet; reflexivity].
  - split; [discriminate|apply quiet_refl].
  - destruct (current_endpt m) as [p|];
      [|split; [discriminate|apply emit_quiet; reflexivity]].
    destruct (find_connection _ p) as [endpt|]; [|split; [discriminate|apply quiet_refl]].
    destruct (state endpt =? STATE_IDLE); (split; [discriminate|]);
      [apply emit_quiet; reflexivity|apply quiet_refl].
  - split; [discriminate|apply quiet_refl].
  - destruct (show_all_connections unset w) as [lines|] eqn:Hs;
      (split; [discriminate|]); [|apply quiet_refl].
    apply emit_quiet. eapply show_all_connections_quiet; eauto.
Qed.

Lemma take_line_head n c rest :
  exists line rest', take_line (S n) (c :: rest) = (c :: line, rest').
Proof.
  change (take_line (S n) (c :: rest))
    with (if Byte.eqb c Byte.x0a then ([c], rest)
          else let '(line, rest') := take_line n rest in (c :: line, rest')).
  destruct (Byte.eqb c Byte.x0a); [eexists _, _; reflexivity|].
  destruct (take_line n rest) as [line rest']. eexists _, _; reflexivity.
Qed.

(** Nothing that is typed makes [main] send a message: [userio_get_command]
    never returns [ACTION_SEND_MESSAGE], [ACTION_TRANSPORT] or [ACTION_HOHOHO],
    and a line that does not start with [#] shows the connections. *)
Theorem keyboard_never_sends (os : add_calls) (entry_ok buffer_ok : bool)
    (unset : tConnectStc -> Z) (m : main_state) (w : world) (input : list byte) :
  let o := fst (keyboard_section os entry_ok buffer_ok unset m w input) in
  (forall v m' w', o <> Package v m' w') /\
  sockets (section_world o) = sockets w /\
  filter is_send (trace (section_world o)) = filter is_send (trace w) /\
  (forall value buffer size r,
     userio_get_command value buffer size input = Some r ->
     cmd r <> ACTION_SEND_MESSAGE /\ cmd r <> ACTION_TRANSPORT /\
     cmd r <> ACTION_HOHOHO) /\
  (forall c rest,
     input = c :: rest -> c <> Byte.x23 ->
     o = match show_all_connections unset w with
         | Some lines => Done (set_testcount m 0) (emit (emit w []) lines)
         | None => SectionUndefined (emit w [])
         end).
Proof.
  intros o.
  assert (Hmain : (forall v m' w', o <> Package v m' w') /\ quiet w (section_world o)).
  { unfold o, keyboard_section.
    destruct (userio_get_command _ _ _ input) as [r|] eqn:Hr;
      [|cbn [fst]; split; [discriminate|apply quiet_refl]].
    pose proof (userio_get_command_cases _ _ _ _ _ Hr) as [Hc _].
    destruct r as [command [value|] [buffer|] rest evs]; cbn [fst cmd] in *;
      try (split; [discriminate|apply quiet_refl]).
    destruct (handle_command_quiet os entry_ok buffer_ok unset (set_testcount m 0)
                (emit w evs) command value buffer Hc) as [Hp Hq].
    split; [exact Hp|].
    eapply quiet_trans; [|exact Hq].
    apply emit_quiet.
    revert Hr. unfold userio_get_command. cbv zeta.
    change (MAX_MESSAGE_LEN + 1 =? 0) with false. cbv iota.
    destruct (fgets _ _ input) as [buf1 rest1].
    destruct (nth_error buf1 0) as [c0|]; [|discriminate].
    destruct (Byte.eqb c0 Byte.x23); [|intros [= _ _ _ _ <-]; reflexivity].
    destruct (nth_error buf1 1) as [c1|]; [|discriminate].
    repeat match goal with
      | |- context [Byte.eqb c1 ?x] => destruct (Byte.eqb c1 x)
      end;
      try (intros [= _ _ _ _ <-]; reflexivity);
      try (destruct (atoi (skipn 2 buf1)); [|discriminate];
           intros [= _ _ _ _ <-]; reflexivity).
    destruct (print_flags (skipn 2 buf1) 0) as [[v' [bad|]]|]; [| |discriminate];
      intros [= _ _ _ _ <-]; reflexivity. }
  destruct Hmain as [Hp [Hs Ht]].
  split; [exact Hp|]. split; [exact Hs|]. split; [exact Ht|]. split.
  - intros value buffer size r Hr.
    destruct (userio_get_command_cases _ _ _ _ _ Hr) as [Hc _].
    repeat split; intros E; rewrite E in Hc; simpl in Hc;
      repeat destruct Hc as [Hc|Hc]; try discriminate; destruct Hc.
  - intros c rest -> Hne. unfold o, keyboard_section, userio_get_command.
    change (MAX_MESSAGE_LEN + 1 =? 0) with false. cbv iota.
    change (wrap_int (MAX_MESSAGE_LEN + 1 - 1)) with 255.
    unfold fgets. change (255 <=? 0) with false. change (255 =? 1) with false.
    cbv iota. change (Z.to_nat (255 - 1)) with 254%nat.
    pose proof (take_line_head 253 c rest) as Hline.
    destruct Hline as (line & rest' & ->).
    cbv zeta. unfold write_at. cbn [Z.to_nat firstn app nth_error].
    destruct (Byte.eqb c Byte.x23) eqn:E; [apply Byte.byte_dec_bl in E; contradiction|].
    cbn [fst]. unfold handle_command.
    cbn [Z.eqb Pos.eqb ACTION_INVALID ACTION_QUIT
        ACTION_SEND_MESSAGE ACTION_ADD_ENDPOINT ACTION_REM_ENDPOINT ACTION_SEL_ENDPOINT
        ACTION_DELAY ACTION_TEST ACTION_SET_PRINT_FLAG ACTION_SHOW_CONNECTIONS
        ACTION_TRANSPORT ACTION_HOHOHO].
    reflexivity.
Qed.

Lemma decimal_length fuel : forall n acc (k : nat),
  0 <= n < 10 ^ Z.of_nat k -> (1 <= k <= fuel)%nat ->
  (length acc < length (decimal fuel n acc) <= k + length acc)%nat.
Proof.
  induction fuel as [|fuel IH]; intros n acc k Hn Hk; [lia|].
  cbn [decimal].
  destruct (n / 10 =? 0) eqn:E; [cbn [length]; lia|].
  apply Z.eqb_neq in E.
  assert (Hk2 : (2 <= k)%nat).
  { destruct k as [|[|k]]; try lia. change (10 ^ Z.of_nat 1) with 10 in Hn.
    exfalso. apply E. apply Z.div_small. lia. }
  match goal with |- context [decimal fuel (n / 10) ?a] => set (acc' := a) end.
  specialize (IH (n / 10) acc' (k - 1)%nat).
  assert (Hlen : length acc' = S (length acc)) by reflexivity.
  rewrite Hlen in IH. 
  assert (Hdiv : 0 <= n / 10 < 10 ^ Z.of_nat (k - 1)).
  { split; [apply Z.div_pos; lia|].
    apply Z.div_lt_upper_bound; [lia|].
    replace (10 * 10 ^ Z.of_nat (k - 1)) with (10 ^ Z.of_nat k); [lia|].
    replace (Z.of_nat k) with (Z.succ (Z.of_nat (k - 1))) by lia.
    rewrite Z.pow_succ_r by lia. reflexivity. }
  specialize (IH Hdiv ltac:(lia)). lia.
Qed.

Lemma sprintf_5_5d_length v : 0 <= v <= 99999 -> length (sprintf_5_5d v) = 5%nat.
Proof.
  intros Hv. unfold sprintf_5_5d.
  pose proof (decimal_length 10 (Z.abs v) [] 5 ltac:(change (10 ^ Z.of_nat 5) with 100000; lia)
                ltac:(lia)) as Hd.
  cbn [length] in Hd.
  destruct (v <? 0) eqn:E; [apply Z.ltb_lt in E; lia|]. cbv zeta.
  repeat (rewrite length_app || rewrite repeat_length). lia.
Qed.


End Coverage.

Section EndToEnd.
Import Netio Queue Registry Dispatcher Servers Userio Main.





End EndToEnd.


Section Selection.
Import Netio Queue Registry Dispatcher Servers Userio Main.

(** [add_connection] keeps what it allocates only when it links the entry. *)
Theorem add_connection_no_leak (os : add_calls) (w : world) (port : Z) :
  let r := fst (add_connection os w port) in
  let w' := snd (add_connection os w port) in
  let released := filter is_release (skipn (length (trace w)) (trace w')) in
  let sock := r_socket (create os) in
  sockets w' = sockets w /\ first_conn_srv w' = first_conn_srv w /\
  match r with
  | Some c =>
      first_conn_req w' = first_conn_req w ++ [c] /\
      c = {| sockfd := sock; destport := port; sendport := None; state := state c;
             msgix := 0; sntix := 0; rspix := 0; pndix := 0; queue := [] |} /\
      0 <= sock /\ released = []
  | None =>
      first_conn_req w' = first_conn_req w /\
      (find_connection (first_conn_req w) port <> None \/ malloc_ok os = false ->
       released = []) /\
      (find_connection (first_conn_req w) port = None -> malloc_ok os = true ->
       (sock < 0 -> released = [EvFreeUnlinked]) /\
       (0 <= sock ->
        released = [EvClose sock; EvFreeUnlinked] \/
        released = [EvFreeUnlinked; EvClose sock]))
  end.
Proof.
  cbv zeta.
  assert (Hadded : forall evs, skipn (length (trace w)) (trace w ++ evs) = evs).
  { intros evs. rewrite skipn_app, skipn_all, Nat.sub_diag. reflexivity. }
  unfold add_connection, tcp_create_socket, tcp_connect_to_server.
  change (0 <? 0) with false. cbn [andb].
  destruct (find_connection (first_conn_req w) port) as [c0|] eqn:Hf;
    [|destruct (malloc_ok os) eqn:Hm; cbn [negb];
      [destruct (r_socket (create os) <? 0) eqn:E0;
       [|destruct (r_fcntl (create os) <? 0);
         [|destruct (r_getsockopt_rcv (create os) <? 0);
           [|destruct (r_getsockopt_snd (create os) <? 0);
             [|rewrite E0;
               destruct (port <=? 0);
               [|destruct (connect_ret os <? 0);
                 [destruct (connect_errno os =? EINPROGRESS)|]]]]]]|]];
    change (-1 <? 0) with true; cbv iota;
    change (STATE_IDLE =? STATE_IDLE) with true;
    change (STATE_PENDING =? STATE_IDLE) with false;
    change (STATE_READY =? STATE_IDLE) with false; cbv iota;
    cbn [fst snd emit set_registry sockets first_conn_srv first_conn_req trace];
    rewrite ?Hadded;
    try (apply Z.ltb_lt in E0); try (apply Z.ltb_ge in E0);
    cbn [filter is_release app];
    repeat split; auto; try discriminate; try lia;
    try (intros [H|H]; congruence);
    try (intros; lia).
Qed.


Lemma find_connection_app reg c :
  find_connection (reg ++ [c]) (destport c) <> None.
Proof.
  unfold find_connection. induction reg as [|x reg IH]; cbn [app find].
  - rewrite Z.eqb_refl. discriminate.
  - destruct (destport x =? destport c); [discriminate|exact IH].
Qed.

Lemma handle_command_selection os entry_ok buffer_ok unset m w command value buffer m' w' :
  In command [ACTION_INVALID; ACTION_QUIT; ACTION_ADD_ENDPOINT; ACTION_REM_ENDPOINT;
              ACTION_SEL_ENDPOINT; ACTION_DELAY; ACTION_TEST; ACTION_SET_PRINT_FLAG;
              ACTION_SHOW_CONNECTIONS] ->
  selected_linked m w ->
  handle_command os entry_ok buffer_ok unset m w command value buffer = Done m' w' ->
  selected_linked m' w'.
Proof.
  intros Hc Hsel. unfold selected_linked in *.
  cbn [In] in Hc.
  repeat destruct Hc as [<-|Hc]; try destruct Hc; unfold handle_command;
    repeat match goal with
      | |- context [?a =? ?b] =>
          lazymatch a with
          | ACTION_INVALID => idtac | ACTION_QUIT => idtac
          | ACTION_ADD_ENDPOINT => idtac | ACTION_REM_ENDPOINT => idtac
          | ACTION_SEL_ENDPOINT => idtac | ACTION_DELAY => idtac
          | ACTION_TEST => idtac | ACTION_SET_PRINT_FLAG => idtac
          | ACTION_SHOW_CONNECTIONS => idtac
          end;
          let v := eval vm_compute in (a =? b) in change (a =? b) with v
      end; cbv iota.
  - intros [= <- <-]. exact Hsel.
  - intros [= <- <-]. exact Hsel.
  - destruct (add_connection os w value) as [[c|] w1] eqn:Ha; intros [= <- <-];
      cbn [current_endpt set_current_endpt option_map]; [|exact I].
    pose proof (add_connection_registry os w value) as H.
    rewrite Ha in H. destruct H as (-> & _ & <- & _).
    apply find_connection_app.
  - destruct (current_endpt m) as [p|] eqn:Hp; [|intros [= <- <-]; rewrite Hp; exact I].
    destruct (find_connection (first_conn_req (rem_connection w value)) p) as [endpt|] eqn:Hf;
      [|discriminate].
    destruct (destport endpt =? value); intros [= <- <-];
      cbn [current_endpt set_current_endpt]; [exact I|].
    rewrite Hp, Hf. discriminate.
  - destruct (find_connection (first_conn_req w) value) as [endpt|] eqn:Hf;
      intros [= <- <-]; cbn [current_endpt set_current_endpt]; [|exact I].
    apply find_connection_port in Hf as Hport. destruct Hport as [-> _].
    rewrite Hf. discriminate.
  - intros [= <- <-]. exact Hsel.
  - destruct (current_endpt m) as [p|] eqn:Hp; [|intros [= <- <-]; rewrite Hp; exact I].
    destruct (find_connection (first_conn_req w) p) as [endpt|] eqn:Hf; [|discriminate].
    destruct (state endpt =? STATE_IDLE); intros [= <- <-];
      cbn [current_endpt set_testcount]; rewrite ?Hp; cbn [first_conn_req emit];
      rewrite Hf; discriminate.
  - intros [= <- <-]. exact Hsel.
  - destruct (show_all_connections unset w); [|discriminate].
    intros [= <- <-]. exact Hsel.
Qed.

(** A command that the keyboard section completes leaves [current_endpt]
    NULL or on an entry that is still linked. *)
Theorem keyboard_selection_linked (os : add_calls) (entry_ok buffer_ok : bool)
    (unset : tConnectStc -> Z) (m m' : main_state) (w w' : world) (input : list byte) :
  selected_linked m w ->
  fst (keyboard_section os entry_ok buffer_ok unset m w input) = Done m' w' ->
  selected_linked m' w'.
Proof.
  intros Hsel. unfold keyboard_section.
  destruct (userio_get_command _ _ _ input) as [r|] eqn:Hr; [|discriminate].
  pose proof (userio_get_command_cases _ _ _ _ _ Hr) as [Hc _].
  destruct r as [command [value|] [buffer|] rest evs]; cbn [fst cmd] in *;
    try discriminate.
  apply handle_command_selection; [exact Hc|].
  exact Hsel.
Qed.

Lemma keyboard_selection_linked_witness :
  exists m' w',
    fst (keyboard_section calls_ok true true (fun _ => 0) main_start world_empty
           line_add_9001) = Done m' w' /\
    current_endpt m' = Some 9001 /\ selected_linked m' w'.
Proof.
  destruct (fst (keyboard_section calls_ok true true (fun _ => 0) main_start world_empty
                   line_add_9001)) as [m' w'|w'|v m' w'] eqn:E;
    [|vm_compute in E; discriminate|vm_compute in E; discriminate].
  exists m', w'. split; [reflexivity|]. split.
  - vm_compute in E. injection E as <- _. reflexivity.
  - exact (keyboard_selection_linked calls_ok true true (fun _ => 0) main_start m'
             world_empty w' line_add_9001 I E).
Defined.

(** Removing the selected connection with [#-] frees its entry before
    [main] reads [current_endpt->destport]. *)
Theorem remove_selected_reads_freed (os : add_calls) (entry_ok buffer_ok : bool)
    (unset : tConnectStc -> Z) (m : main_state) (w : world) (input : list byte)
    (r : command_read) (p : Z) (buffer : list byte) :
  NoDup (map destport (first_conn_req w)) ->
  current_endpt m = Some p ->
  userio_get_command (Some 0) (Some (repeat Byte.x00 (Z.to_nat (MAX_MESSAGE_LEN + 1))))
    (MAX_MESSAGE_LEN + 1) input = Some r ->
  cmd r = ACTION_REM_ENDPOINT -> cmd_value r = Some p -> cmd_buffer r = Some buffer ->
  keyboard_section os entry_ok buffer_ok unset m w input
  = (SectionUndefined (rem_connection (emit w (cmd_log r)) p), cmd_input r).
Proof.
  intros Hnd Hp Hr Hc Hv Hb. unfold keyboard_section. rewrite Hr.
  destruct r as [command value0 buffer0 rest evs]. cbn [cmd cmd_value cmd_buffer cmd_input cmd_log] in *.
  subst command value0 buffer0. unfold handle_command.
  change (ACTION_REM_ENDPOINT =? ACTION_QUIT) with false.
  change (ACTION_REM_ENDPOINT =? ACTION_SEND_MESSAGE) with false.
  change (ACTION_REM_ENDPOINT =? ACTION_ADD_ENDPOINT) with false.
  change (ACTION_REM_ENDPOINT =? ACTION_REM_ENDPOINT) with true. cbv iota.
  cbn [current_endpt set_testcount]. rewrite Hp.
  rewrite rem_connection_gone; [reflexivity|exact Hnd].
Qed.

Lemma remove_selected_reads_freed_witness :
  exists w',
    fst (keyboard_section calls_ok true true (fun _ => 0) (main_selected 0)
           (world_idle [] []) line_rem_9001) = SectionUndefined w' /\
    first_conn_req w' = [].
Proof.
  destruct (userio_get_command (Some 0)
              (Some (repeat Byte.x00 (Z.to_nat (MAX_MESSAGE_LEN + 1))))
              (MAX_MESSAGE_LEN + 1) line_rem_9001) as [r|] eqn:Hr;
    [|vm_compute in Hr; discriminate].
  assert (Hc : cmd r = ACTION_REM_ENDPOINT /\ cmd_value r = Some 9001 /\
               exists buffer, cmd_buffer r = Some buffer).
  { vm_compute in Hr. injection Hr as <-. repeat split. eexists. reflexivity. }
  destruct Hc as (Hc & Hv & buffer & Hb).
  rewrite (remove_selected_reads_freed calls_ok true true (fun _ => 0) (main_selected 0)
             (world_idle [] []) line_rem_9001 r 9001 buffer);
    try assumption; try reflexivity.
  - eexists. split; [reflexivity|]. reflexivity.
  - repeat constructor. intros [].
Defined.

(** When the send of a test message fails, the connection is removed but
    the test mode goes on: its next round reads the freed entry. *)
Theorem test_mode_outlives_connection (entry_ok buffer_ok : bool) (m : main_state)
    (w w' : world) (p ret : Z) (c : tConnectStc) :
  NoDup (map destport (first_conn_req w)) ->
  1 < testcount m <= 99999 ->
  current_endpt m = Some p -> find_connection (first_conn_req w) p = Some c ->
  send_message entry_ok buffer_ok (produce w p) p (Some (test_message (testcount m)))
  = Removed ret w' ->
  let m' := set_testcount m (testcount m - 1) in
  test_section entry_ok buffer_ok m w = Done m' w' /\
  current_endpt m' = Some p /\
  find_connection (first_conn_req w') p = None /\
  test_section entry_ok buffer_ok m' w' = SectionUndefined w'.
Proof.
  intros Hnd Ht Hp Hf Hsend m'.
  assert (Hgone : find_connection (first_conn_req w') p = None).
  { eapply send_message_removed; [|exact Hsend].
    unfold produce. cbn [first_conn_req set_registry].
    rewrite update_ports by reflexivity. exact Hnd. }
  assert (Hfit : forall n, 0 <= n <= 99999 ->
            (sizeof_tempbuf <? Z.of_nat (length (test_message n)) + 1) = false).
  { intros n Hn.
    assert (Hlen : Z.of_nat (length (test_message n)) + 1 = sizeof_tempbuf).
    { unfold test_message. rewrite length_app, (sprintf_5_5d_length n Hn). reflexivity. }
    rewrite Hlen. apply Z.ltb_irrefl. }
  split; [|split; [exact Hp|split; [exact Hgone|]]].
  - unfold test_section.
    destruct (testcount m =? 0) eqn:E; [apply Z.eqb_eq in E; lia|].
    rewrite Hfit by lia. rewrite Hp, Hf, Hsend.
    unfold m'. rewrite (wrap_int_small (testcount m - 1)) by lia. reflexivity.
  - unfold test_section, m'. cbn [testcount set_testcount current_endpt].
    destruct (testcount m - 1 =? 0) eqn:E; [apply Z.eqb_eq in E; lia|].
    rewrite Hfit by lia. rewrite Hp, Hgone. reflexivity.
Qed.

Lemma test_mode_outlives_connection_witness :
  exists w',
    test_section true true (main_selected 2)
      (world_idle [] [{| send_ret := -1; send_errno := 104 |}])
    = Done (main_selected 1) w' /\
    test_section true true (main_selected 1) w' = SectionUndefined w'.
Proof.
  destruct (send_message true true
              (produce (world_idle [] [{| send_ret := -1; send_errno := 104 |}]) 9001) 9001
              (Some (test_message 2))) as [ret w'|ret w'|w'] eqn:E;
    [vm_compute in E; discriminate| |vm_compute in E; discriminate].
  assert (Hnd : NoDup (map destport
                         (first_conn_req
                            (world_idle [] [{| send_ret := -1; send_errno := 104 |}])))).
  { repeat constructor. intros []. }
  assert (Hcount : 1 < testcount (main_selected 2) <= 99999).
  { cbn [testcount main_selected]. lia. }
  destruct (test_mode_outlives_connection true true (main_selected 2)
              (world_idle [] [{| send_ret := -1; send_errno := 104 |}]) w' 9001 ret conn_idle
              Hnd Hcount eq_refl eq_refl E)
    as (H1 & _ & _ & H2).
  exists w'. split; [exact H1|exact H2].
Defined.

End Selection.

Section WorkerExit.
Import Netio Queue Registry Dispatcher Servers Userio Main Worker.

Lemma worker_goes_on_refl ch : worker_goes_on ch ch.
Proof.
  exists []. rewrite app_nil_r. repeat split. intros H. left. exact H.
Qed.

Lemma worker_goes_on_trans ch1 ch2 ch3 :
  worker_goes_on ch1 ch2 -> worker_goes_on ch2 ch3 -> worker_goes_on ch1 ch3.
Proof.
  intros (e1 & H1 & C1 & R1) (e2 & H2 & C2 & R2). exists (e1 ++ e2).
  split; [rewrite H2, H1, app_assoc; reflexivity|]. split.
  - rewrite filter_app, C1, C2. reflexivity.
  - intros H. rewrite existsb_app. destruct (R2 H) as [H'|H'].
    + destruct (R1 H') as [H''|H'']; [left; exact H''|right; rewrite H''; reflexivity].
    + right. rewrite H'. apply orb_true_r.
Qed.

Lemma worker_goes_on_say ch ch' evs :
  ctrace ch' = ctrace ch ++ evs -> filter is_close evs = [] ->
  (running ch' = running ch \/ existsb logs_cause evs = true) ->
  worker_goes_on ch ch'.
Proof.
  intros Ht Hc Hr. exists evs. split; [exact Ht|]. split; [exact Hc|].
  intros H. destruct Hr as [Hr|Hr]; [left; rewrite <- Hr; exact H|right; exact Hr].
Qed.

Lemma child_send_queue_goes_on pending clientsock client_port : forall ch,
  worker_goes_on ch (child_send_queue pending ch clientsock client_port).
Proof.
  induction pending as [|p next IH]; intros ch; cbn [child_send_queue].
  - apply worker_goes_on_refl.
  - destruct (b_buffer p) as [b|].
    + destruct (tcp_send_message (sock ch) b (strlen b) (wrap_int (send_count ch + 1)))
        as [[] sock'].
      * eapply worker_goes_on_trans; [|apply IH].
        eapply worker_goes_on_say; cbn [ctrace running]; [reflexivity|reflexivity|auto].
      * eapply worker_goes_on_trans; [|apply IH].
        eapply worker_goes_on_say; cbn [ctrace running]; [reflexivity|reflexivity|auto].
      * eapply worker_goes_on_say; cbn [ctrace running]; [reflexivity|reflexivity|].
        right. reflexivity.
    + eapply worker_goes_on_trans; [|apply IH].
      eapply worker_goes_on_say; cbn [ctrace running]; [reflexivity|reflexivity|auto].
Qed.

Lemma child_enqueue_goes_on response_ok qentry_ok ch procid client_port buffer :
  worker_goes_on ch (child_enqueue response_ok qentry_ok ch procid client_port buffer).
Proof.
  unfold child_enqueue.
  destruct response_ok; cbn [negb]; [destruct qentry_ok; cbn [negb]|].
  - eapply worker_goes_on_say; cbn [ctrace running]; [reflexivity|reflexivity|auto].
  - eapply worker_goes_on_say; cbn [ctrace running stop say].
    + rewrite <- app_assoc. reflexivity.
    + reflexivity.
    + right. reflexivity.
  - eapply worker_goes_on_say; cbn [ctrace running stop say].
    + rewrite <- app_assoc. reflexivity.
    + reflexivity.
    + right. reflexivity.
Qed.

Lemma recv_loop_closes_nothing fuel msglen : forall st r st',
  filter is_close (rlog st) = [] ->
  recv_loop fuel msglen st = Some (r, st') ->
  filter is_close (rlog st') = [].
Proof.
  induction fuel as [|fuel IH]; intros st r st' Hl; cbn [recv_loop]; [discriminate|].
  destruct (recvmsg (rsock st) (iov_len st)) as [[[ret errno] data] sock'].
  destruct (store st data) as [hdr1 buf1].
  destruct (wrap_int ret =? 0); [intros [= _ <-]; exact Hl|].
  destruct (wrap_int ret <? 0).
  { destruct (errno =? EWOULDBLOCK); intros [= _ <-]; exact Hl. }
  destruct (sizeof_header <=? _); [|apply IH; exact Hl].
  assert (Hl2 : filter is_close
                  (snd (if msglen <? header_msglen hdr1
                        then (set_header_msglen hdr1 msglen,
                              rlog st ++ [invalid_header_log (header_msglen hdr1)
                                            (header_msgix hdr1)])
                        else (hdr1, rlog st))) = []).
  { destruct (msglen <? header_msglen hdr1); cbn [snd]; [|exact Hl].
    rewrite filter_app, Hl. reflexivity. }
  destruct (if msglen <? header_msglen hdr1 then _ else _) as [hdr2 log2].
  cbn [snd] in Hl2.
  destruct (_ <=? _); [intros [= _ <-]; exact Hl2|].
  destruct (_ =? sizeof_header); apply IH; exact Hl2.
Qed.

Lemma child_recv_goes_on os ch procid client_port ch' :
  child_recv os ch procid client_port = Some ch' -> worker_goes_on ch ch'.
Proof.
  unfold child_recv, tcp_recv_message.
  destruct (recv_loop _ _ _) as [[r st]|] eqn:Hloop; [|discriminate].
  apply recv_loop_closes_nothing in Hloop; [|reflexivity].
  intros [= <-].
  assert (H1 : worker_goes_on ch (received ch (rsock st) (rlog st))).
  { eapply worker_goes_on_say; cbn [ctrace running received]; [reflexivity|exact Hloop|auto]. }
  eapply worker_goes_on_trans; [exact H1|].
  destruct r.
  - apply child_enqueue_goes_on.
  - eapply worker_goes_on_say; cbn [ctrace running stop say]; [reflexivity|reflexivity|auto].
  - eapply worker_goes_on_say; cbn [ctrace running stop say]; [reflexivity|reflexivity|].
    right. reflexivity.
  - eapply worker_goes_on_say; cbn [ctrace running stop say]; [reflexivity|reflexivity|].
    right. reflexivity.
Qed.

Lemma child_round_goes_on os ch procid clientsock client_port ch' :
  child_round os ch procid clientsock client_port = Some ch' -> worker_goes_on ch ch'.
Proof.
  unfold child_round.
  destruct (select_ret os <? 0).
  { intros [= <-].
    eapply worker_goes_on_say; cbn [ctrace running stop say]; [reflexivity|reflexivity|].
    right. reflexivity. }
  destruct (select_ret os =? 0); [intros [= <-]; apply worker_goes_on_refl|].
  assert (H1 : forall ch1,
            (if select_readable os then child_recv os ch procid client_port else Some ch)
            = Some ch1 -> worker_goes_on ch ch1).
  { intros ch1. destruct (select_readable os).
    - apply child_recv_goes_on.
    - intros [= <-]. apply worker_goes_on_refl. }
  destruct (if select_readable os then _ else _) as [ch1|]; [|discriminate].
  specialize (H1 ch1 eq_refl). intros [= <-].
  destruct (running ch1); [|exact H1].
  eapply worker_goes_on_trans; [exact H1|apply child_send_queue_goes_on].
Qed.

Lemma child_run_goes_on procid clientsock client_port script : forall ch ch',
  child_run script ch procid clientsock client_port = Some ch' -> worker_goes_on ch ch'.
Proof.
  induction script as [|os script IH]; intros ch ch'; cbn [child_run].
  - intros [= <-]. apply worker_goes_on_refl.
  - destruct (running ch); [|intros [= <-]; apply worker_goes_on_refl].
    destruct (child_round os ch procid clientsock client_port) as [ch1|] eqn:Hr;
      [|discriminate].
    intros H. eapply worker_goes_on_trans; [|apply IH; exact H].
    eapply child_round_goes_on. exact Hr.
Qed.

(** When [child_handle_client] returns, the worker has logged why it left
    its loop and has closed the client socket once, as its last step but
    the line that it terminates. *)
Theorem worker_exit (script : list round_calls) (s : socket)
    (procid clientsock client_port : Z) (ch' : child) :
  child_handle_client script s procid clientsock client_port = Some ch' ->
  running ch' = false /\
  filter is_close (ctrace ch') = [EvClose clientsock] /\
  exists evs,
    ctrace ch'
    = evs ++ [EvClose clientsock; EvLog PRINT_OTHER "pid %d terminating" [ArgInt procid]] /\
    existsb logs_cause evs = true.
Proof.
  unfold child_handle_client.
  destruct (child_run script (child_start s) procid clientsock client_port) as [ch|] eqn:Hrun;
    [|discriminate].
  destruct (running ch) eqn:Hr; [discriminate|].
  intros [= <-].
  apply child_run_goes_on in Hrun as (evs & Ht & Hc & Hstop).
  cbn [ctrace child_start app] in Ht.
  cbn [running say ctrace]. rewrite Ht.
  split; [exact Hr|]. split.
  - rewrite filter_app, Hc. reflexivity.
  - exists evs. split; [reflexivity|].
    destruct (Hstop Hr) as [H|H]; [discriminate|exact H].
Qed.

Lemma worker_exit_witness :
  exists ch',
    Worker.child_handle_client [round_ready; round_ready] closing_socket 7 4 40000
    = Some ch' /\
    wire (Worker.sock ch') = frame msg_A 1 /\
    filter is_close (Worker.ctrace ch') = [EvClose 4].
Proof.
  destruct (Worker.child_handle_client [round_ready; round_ready] closing_socket 7 4 40000)
    as [ch'|] eqn:E; [|vm_compute in E; discriminate].
  exists ch'. split; [reflexivity|]. split.
  - vm_compute in E. injection E as <-. reflexivity.
  - exact (proj1 (proj2 (worker_exit [round_ready; round_ready] closing_socket 7 4 40000
                           ch' E))).
Defined.

End WorkerExit.

Section Parse.
Import Netio Queue Registry Dispatcher Servers Userio Main.

Lemma isdigit_plain c :
  isdigit c = true ->
  isspace c = false /\ Byte.eqb c Byte.x2d = false /\ Byte.eqb c Byte.x2b = false /\
  Byte.eqb c Byte.x0a = false.
Proof.
  destruct c; vm_compute; intros H; try discriminate H; repeat split.
Qed.

Lemma decimal_digit d :
  0 <= d < 10 ->
  let c := nth (Z.to_nat d)
             [Byte.x30; Byte.x31; Byte.x32; Byte.x33; Byte.x34;
              Byte.x35; Byte.x36; Byte.x37; Byte.x38; Byte.x39] Byte.x30 in
  isdigit c = true /\ byte.unsigned c - 48 = d.
Proof.
  intros Hd.
  assert (H : d = 0 \/ d = 1 \/ d = 2 \/ d = 3 \/ d = 4 \/ d = 5 \/ d = 6 \/ d = 7
              \/ d = 8 \/ d = 9) by lia.
  repeat destruct H as [->|H]; try subst d; split; reflexivity.
Qed.

(** [decimal] puts the digits of [n] before [acc], and [atoi] reads them
    back. *)
Lemma decimal_spec fuel : forall n acc,
  0 <= n < 10 ^ Z.of_nat (S fuel) ->
  exists ds,
    decimal (S fuel) n acc = ds ++ acc /\ ds <> [] /\
    (length ds <= S fuel)%nat /\
    Forall (fun c => isdigit c = true) ds /\
    forall tail, atoi_digits (ds ++ tail) 0 = atoi_digits tail n.
Proof.
  assert (Hone : forall n, 0 <= n < 10 ->
            let d := nth (Z.to_nat (n mod 10))
                       [Byte.x30; Byte.x31; Byte.x32; Byte.x33; Byte.x34;
                        Byte.x35; Byte.x36; Byte.x37; Byte.x38; Byte.x39] Byte.x30 in
            [d] <> [] /\ Forall (fun c => isdigit c = true) [d] /\
            forall tail, atoi_digits ([d] ++ tail) 0 = atoi_digits tail n).
  { intros n Hn d.
    destruct (decimal_digit (n mod 10) ltac:(apply Z.mod_pos_bound; lia)) as [Hd Hv].
    fold d in Hd, Hv.
    split; [discriminate|]. split; [constructor; [exact Hd|constructor]|].
    intros tail. cbn [app atoi_digits]. rewrite Hd, Hv.
    rewrite Z.mod_small by lia. reflexivity. }
  induction fuel as [|fuel IH]; intros n acc Hn.
  - change (10 ^ Z.of_nat 1) with 10 in Hn.
    cbn [decimal]. rewrite (Z.div_small n 10) by lia. change (0 =? 0) with true. cbv iota.
    destruct (Hone n Hn) as (H1 & H2 & H3).
    match goal with |- context [?d :: acc] => exists [d] end.
    split; [reflexivity|]. split; [exact H1|]. split; [cbn [length]; lia|].
    split; [exact H2|exact H3].
  - change (decimal (S (S fuel)) n acc)
      with (let acc' := nth (Z.to_nat (n mod 10))
                          [Byte.x30; Byte.x31; Byte.x32; Byte.x33; Byte.x34;
                           Byte.x35; Byte.x36; Byte.x37; Byte.x38; Byte.x39] Byte.x30
                        :: acc in
            if n / 10 =? 0 then acc' else decimal (S fuel) (n / 10) acc').
    cbv zeta.
    destruct (n / 10 =? 0) eqn:E.
    + apply Z.eqb_eq in E.
      assert (Hsmall : 0 <= n < 10).
      { split; [lia|]. destruct (Z_lt_ge_dec n 10) as [Hl|Hg]; [exact Hl|].
        exfalso. assert (1 <= n / 10) by (apply Z.div_le_lower_bound; lia). lia. }
      destruct (Hone n Hsmall) as (H1 & H2 & H3).
      match goal with |- context [?d :: acc] => exists [d] end.
    split; [reflexivity|]. split; [exact H1|]. split; [cbn [length]; lia|].
      split; [exact H2|exact H3].
    + assert (Hdiv : 0 <= n / 10 < 10 ^ Z.of_nat (S fuel)).
      { split; [apply Z.div_pos; lia|].
        apply Z.div_lt_upper_bound; [lia|].
        replace (10 * 10 ^ Z.of_nat (S fuel)) with (10 ^ Z.of_nat (S (S fuel))); [lia|].
        replace (Z.of_nat (S (S fuel))) with (Z.succ (Z.of_nat (S fuel))) by lia.
        rewrite Z.pow_succ_r by lia. reflexivity. }
      match goal with |- context [decimal (S fuel) (n / 10) (?d :: acc)] => set (c := d) end.
      destruct (IH (n / 10) (c :: acc) Hdiv) as (ds & Hds & Hne & Hlen & Hall & Hval).
      destruct (decimal_digit (n mod 10) ltac:(apply Z.mod_pos_bound; lia)) as [Hd Hv].
      fold c in Hd, Hv.
      exists (ds ++ [c]). split; [rewrite Hds, <- app_assoc; reflexivity|].
      split; [destruct ds; discriminate|].
      split; [rewrite length_app; cbn [length]; lia|].
      split; [apply Forall_app; split; [exact Hall|constructor; [exact Hd|constructor]]|].
      intros tail. rewrite <- app_assoc. cbn [app]. rewrite Hval.
      cbn [atoi_digits]. rewrite Hd, Hv. f_equal.
      rewrite (Z.div_mod n 10) at 3 by lia. reflexivity.
Qed.

Lemma take_line_digits ds : forall limit more,
  Forall (fun c => isdigit c = true) ds -> (length ds < limit)%nat ->
  take_line limit (ds ++ Byte.x0a :: more) = (ds ++ [Byte.x0a], more).
Proof.
  induction ds as [|c ds IH]; intros limit more Hall Hlen.
  - destruct limit; [cbn [length] in Hlen; lia|]. reflexivity.
  - destruct limit; [cbn [length] in Hlen; lia|].
    apply Forall_cons_iff in Hall as [Hc Hall].
    destruct (isdigit_plain c Hc) as (_ & _ & _ & Hnl).
    cbn [app take_line]. rewrite Hnl, IH; [reflexivity|exact Hall|cbn [length] in Hlen; lia].
Qed.

(** A command with a number is read back as typed: [#+], [#-], [#s] and
    [#t] followed by the decimal numeral of an [int] that is not negative
    give the command with that number, and leave the rest of the input. *)
Theorem numeric_command_parses (c1 : byte) (command n : Z) (more : list byte) :
  In (c1, command) [(Byte.x2b, ACTION_ADD_ENDPOINT); (Byte.x2d, ACTION_REM_ENDPOINT);
                    (Byte.x73, ACTION_SEL_ENDPOINT); (Byte.x74, ACTION_TEST)] ->
  0 <= n < 2 ^ 31 ->
  exists buffer,
    userio_get_command (Some 0) (Some (repeat Byte.x00 (Z.to_nat (MAX_MESSAGE_LEN + 1))))
      (MAX_MESSAGE_LEN + 1) (Byte.x23 :: c1 :: decimal 10 n [] ++ Byte.x0a :: more)
    = Some {| cmd := command; cmd_value := Some n; cmd_buffer := Some buffer;
              cmd_input := more; cmd_log := [] |}.
Proof.
  intros Hc Hn.
  destruct (decimal_spec 9 n [] ltac:(change (10 ^ Z.of_nat 10) with 10000000000; lia))
    as (ds & Hds & Hne & Hlen & Hall & Hval).
  rewrite app_nil_r in Hds. rewrite Hds.
  assert (Hc1 : Byte.eqb c1 Byte.x0a = false).
  { cbn [In] in Hc. repeat destruct Hc as [[= <- _]|Hc]; try reflexivity. destruct Hc. }
  unfold userio_get_command.
  change (MAX_MESSAGE_LEN + 1 =? 0) with false. cbv iota.
  change (wrap_int (MAX_MESSAGE_LEN + 1 - 1)) with 255.
  unfold fgets. change (255 <=? 0) with false. change (255 =? 1) with false. cbv iota.
  change (Z.to_nat (255 - 1)) with (S (S 252)).
  change (take_line (S (S 252)) (Byte.x23 :: c1 :: ds ++ Byte.x0a :: more))
    with (let '(line, rest) :=
            (if Byte.eqb c1 Byte.x0a then ([c1], ds ++ Byte.x0a :: more)
             else let '(line, rest) := take_line 252 (ds ++ Byte.x0a :: more) in
                  (c1 :: line, rest)) in (Byte.x23 :: line, rest)).
  rewrite Hc1, take_line_digits by (try exact Hall; lia).
  unfold write_at. change (Z.to_nat 0) with 0%nat.
  cbn [firstn app nth_error]. change (Byte.eqb Byte.x23 Byte.x23) with true. cbv iota.
  cbn [skipn].
  assert (Hatoi : forall tail, atoi ((ds ++ [Byte.x0a]) ++ tail) = Some n).
  { intros tail. unfold atoi. rewrite <- app_assoc.
    destruct ds as [|c ds']; [contradiction|].
    apply Forall_cons_iff in Hall as Hhead. destruct Hhead as [Hd _].
    destruct (isdigit_plain c Hd) as (Hs & Hm & Hp & _).
    change (atoi_signed ((c :: ds') ++ [Byte.x0a] ++ tail))
      with (if isspace c then atoi_signed (ds' ++ [Byte.x0a] ++ tail)
            else if Byte.eqb c Byte.x2d
                 then option_map Z.opp (atoi_digits (ds' ++ [Byte.x0a] ++ tail) 0)
                 else if Byte.eqb c Byte.x2b then atoi_digits (ds' ++ [Byte.x0a] ++ tail) 0
                      else atoi_digits ((c :: ds') ++ [Byte.x0a] ++ tail) 0).
    rewrite Hs, Hm, Hp, Hval. cbn [app atoi_digits].
    change (isdigit Byte.x0a) with false. cbv iota.
    destruct (- 2 ^ 31 <=? n) eqn:E1; [|apply Z.leb_gt in E1; lia].
    destruct (n <? 2 ^ 31) eqn:E2; [|apply Z.ltb_ge in E2; lia].
    reflexivity. }
  cbv beta zeta. rewrite <- !(app_assoc (ds ++ [Byte.x0a]) [Byte.x00]), !Hatoi.
  cbn [In] in Hc.
  repeat destruct Hc as [[= <- <-]|Hc]; try destruct Hc; eexists; reflexivity.
Qed.

Lemma numeric_command_parses_witness :
  exists buffer,
    userio_get_command (Some 0) (Some (repeat Byte.x00 (Z.to_nat (MAX_MESSAGE_LEN + 1))))
      (MAX_MESSAGE_LEN + 1) (line_add_9001 ++ [Byte.x0a])
    = Some {| cmd := ACTION_ADD_ENDPOINT; cmd_value := Some 9001;
              cmd_buffer := Some buffer; cmd_input := [Byte.x0a]; cmd_log := [] |}.
Proof.
  apply (numeric_command_parses Byte.x2b ACTION_ADD_ENDPOINT 9001 [Byte.x0a]).
  - left. reflexivity.
  - lia.
Defined.

End Parse.
